(** * solvis: call-graph extraction and call resolution (src/parsing.js)

    A shallow embedding of the functions of [src/parsing.js]:
    [isKeywordCall], [isKeywordFunction], [isCountableStatement],
    [parserFunctionVisitor], [processData], [profileData],
    [findAndRenameCall], [renameToSymLinks] and [parsing].

    JavaScript values are modelled as follows.
    - [undefined] in a slot that otherwise holds a string is [None]; so is
      [null] in a slot that otherwise holds a string or an object.
    - An array is a [list]; [push] appends at the end.
    - A [Map] is an association list in insertion order ([Map.set] on a key
      that is present replaces the value in place).
    - A thrown exception is the outcome [Throw]; unbounded recursion is the
      outcome [OutOfFuel] for every amount of fuel. *)

From Stdlib Require Import String Ascii List Bool Arith Lia.
Import ListNotations.
Open Scope list_scope.
Open Scope string_scope.

Set Implicit Arguments.

(** ** Outcomes: normal completion, exception, fuel exhausted *)

Inductive js_error : Type :=
| TypeError      (* property read on undefined or null *)
| FileError.     (* fs.readFileSync on a missing or undefined path *)

Inductive outcome (A : Type) : Type :=
| Done (a : A)
| Throw (e : js_error)
| OutOfFuel.

Arguments Done {A} a.
Arguments Throw {A} e.
Arguments OutOfFuel {A}.

Definition bind {A B : Type} (m : outcome A) (k : A -> outcome B) : outcome B :=
  match m with
  | Done a => k a
  | Throw e => Throw e
  | OutOfFuel => OutOfFuel
  end.

Notation "x <- m ;; k" := (bind m (fun x => k))
  (at level 61, m at next level, right associativity).
Notation "' p <- m ;; k" := (bind m (fun p => k))
  (at level 61, p pattern, m at next level, right associativity).

(** [arr.forEach(f)] for a body [f] that updates an accumulator and may
    throw or recurse. *)
Fixpoint forEach {A S : Type} (f : S -> A -> outcome S) (arr : list A) (s : S)
  : outcome S :=
  match arr with
  | [] => Done s
  | a :: rest => s' <- f s a ;; forEach f rest s'
  end.

(** ** JavaScript helpers *)

(** Template-literal interpolation [`${v}`] of a string-or-undefined. *)
Definition js_str (v : option string) : string :=
  match v with
  | Some s => s
  | None => "undefined"
  end.

(** [a === b] where [a] is a string and [b] a string or [undefined]. *)
Definition str_eq_opt (a : string) (b : option string) : bool :=
  match b with
  | Some s => String.eqb a s
  | None => false
  end.

(** [a === b] on two string-or-undefined values. *)
Definition opt_str_eqb (a b : option string) : bool :=
  match a, b with
  | Some x, Some y => String.eqb x y
  | None, None => true
  | _, _ => false
  end.

(** [list.includes(x)] on an array of strings, [x] a string or [undefined]. *)
Definition includes (l : list string) (x : option string) : bool :=
  existsb (fun y => str_eq_opt y x) l.

(** [list.includes(x)] on an array of string-or-undefined values. *)
Definition includes_opt (l : list (option string)) (x : option string) : bool :=
  existsb (fun y => opt_str_eqb y x) l.

(** [s.indexOf(sub) > -1]. *)
Fixpoint contains (sub s : string) : bool :=
  String.prefix sub s ||
  match s with
  | EmptyString => false
  | String _ s' => contains sub s'
  end.

(** The keys of the [Map]s of [src/parsing.js]: strings (contract names)
    and strings-or-[null] (the [name] of a declaration), compared as [Map]
    compares them. *)
Class JsKey (K : Type) : Type := key_eqb : K -> K -> bool.

#[global] Instance string_key : JsKey string := String.eqb.
#[global] Instance name_key : JsKey (option string) := opt_str_eqb.

(** A JS [Map]: association list in insertion order. *)
Definition JsMap (K V : Type) : Type := list (K * V).

Fixpoint map_set {K V : Type} {key : JsKey K} (k : K) (v : V) (m : JsMap K V)
  : JsMap K V :=
  match m with
  | [] => [(k, v)]
  | (k', v') :: rest =>
      if key_eqb k' k then (k', v) :: rest else (k', v') :: map_set k v rest
  end.

Fixpoint map_get {K V : Type} {key : JsKey K} (k : K) (m : JsMap K V) : option V :=
  match m with
  | [] => None
  | (k', v') :: rest => if key_eqb k' k then Some v' else map_get k rest
  end.

(** ** Paths (Node's [path] module, POSIX flavour)

    Modelled from the spec: the path utility is external to the repository
    ("relative imports resolve against the importing file's directory,
    non-relative imports resolve against a conventional external-dependency
    root"); [path.join] joins with "/" and normalises "." and ".."
    segments, [path.parse(p).name] is the last segment without its
    extension. *)
Module Path.

Definition slash : ascii := "/"%char.
Definition dot : ascii := "."%char.

(** Split at every "/". *)
Fixpoint split_aux (cur : string) (s : string) : list string :=
  match s with
  | EmptyString => [cur]
  | String c s' =>
      if Ascii.eqb c slash then cur :: split_aux "" s'
      else split_aux (cur ++ String c "") s'
  end.
Definition split (s : string) : list string := split_aux "" s.

(** Resolve "." and ".." segments; [acc] is the reversed result. *)
Fixpoint norm_segments (absolute : bool) (acc : list string) (segs : list string)
  : list string :=
  match segs with
  | [] => rev acc
  | seg :: rest =>
      if String.eqb seg "" || String.eqb seg "." then norm_segments absolute acc rest
      else if String.eqb seg ".." then
        match acc with
        | [] => if absolute then norm_segments absolute [] rest
                else norm_segments absolute [".."] rest
        | top :: acc' =>
            if String.eqb top ".." then norm_segments absolute (".." :: acc) rest
            else norm_segments absolute acc' rest
        end
      else norm_segments absolute (seg :: acc) rest
  end.

Definition is_absolute (p : string) : bool :=
  match p with
  | String c _ => Ascii.eqb c slash
  | EmptyString => false
  end.

Definition ends_with_slash (p : string) : bool :=
  match rev (list_ascii_of_string p) with
  | c :: _ => Ascii.eqb c slash
  | [] => false
  end.

Definition normalize (p : string) : string :=
  match p with
  | EmptyString => "."
  | _ =>
      let a := is_absolute p in
      let body := String.concat "/" (norm_segments a [] (split p)) in
      let trailing := ends_with_slash p in
      if String.eqb body "" then
        (if a then "/" else if trailing then "./" else ".")
      else
        let body' := if trailing then body ++ "/" else body in
        if a then "/" ++ body' else body'
  end.

(** [path.join(a, b)]. *)
Definition join (a b : string) : string :=
  match a, b with
  | EmptyString, EmptyString => "."
  | EmptyString, _ => normalize b
  | _, EmptyString => normalize a
  | _, _ => normalize (a ++ "/" ++ b)
  end.

(** The characters before the last "." of a base name, when that "."
    starts an extension. *)
Fixpoint strip_ext_aux (rev_chars : list ascii) : option (list ascii) :=
  match rev_chars with
  | [] => None
  | c :: rest =>
      if Ascii.eqb c dot then
        match rest with
        | [] => None                (* a leading dot is not an extension *)
        | _ => Some rest
        end
      else strip_ext_aux rest
  end.

Definition basename (p : string) : string :=
  last (filter (fun s => negb (String.eqb s "")) (split p)) "".

(** [path.parse(p).name]; the base names "." and ".." have no extension. *)
Definition parse_name (p : string) : string :=
  let b := basename p in
  if String.eqb b ".." then b
  else
    match strip_ext_aux (rev (list_ascii_of_string b)) with
    | Some r => string_of_list_ascii (rev r)
    | None => b
    end.

End Path.

(** ** The syntax tree (AST access layer, external)

    Modelled from the spec: the parser is an external collaborator that
    "parses one source file into a typed syntax tree and supports visiting
    nodes of a requested kind, invoking a caller-supplied handler per
    matching node, including nested/sub-tree visits".  The tree below keeps
    the node kinds and the properties that [src/parsing.js] reads.  A
    visit is a pre-order walk: the handler of a node runs before its
    children are walked, children in property order; no handler of
    [src/parsing.js] stops the walk.

    State variables, struct members, event parameters and local variables
    are [VariableDeclaration] nodes.  The parameters and the return
    parameters of a function or of a modifier are [Parameter] nodes, for
    which [src/parsing.js] has no handler.

    A declaration has a [name], which is [null] for an event parameter
    without a name, and a [typeName], which is [null] for a name declared
    by [var (a, b) = ...].  A type name has a [name] when it is an
    elementary type and a [namePath] when it is a user-defined type, and
    neither when it is an array, a mapping or a function type; beneath it
    are the type names and the expressions it contains (the base type and
    the length of an array type).

    Nodes of a kind for which [src/parsing.js] has no handler and of which
    it reads no property (a block, a parameter list, a literal) are
    [OtherNode]s or, where they only enclose a list, left out. *)

#[warnings="-register-all"]
Inductive Node : Type :=
| Identifier (name : string)
| MemberAccess (expression : Node) (memberName : string)
| FunctionCall (expression : Node) (arguments : list Node)
| IndexAccess (base : Node) (index : Node)
| VariableDeclarationNode (d : VariableDeclaration)
| OtherNode (type : string) (children : list Node)
with VariableDeclaration : Type :=
| mkVariableDeclaration (name : option string) (typeName : option TypeName)
with TypeName : Type :=
| mkTypeName (name : option string) (namePath : option string) (nodes : list Node).

(** [d.name] and [d.typeName] of a declaration. *)
Definition vd_name (d : VariableDeclaration) : option string :=
  match d with mkVariableDeclaration n _ => n end.

Definition typeName (d : VariableDeclaration) : option TypeName :=
  match d with mkVariableDeclaration _ t => t end.

(** [t.name] and [t.namePath] of a type name, and the nodes beneath it. *)
Definition tn_name (t : TypeName) : option string :=
  match t with mkTypeName n _ _ => n end.

Definition namePath (t : TypeName) : option string :=
  match t with mkTypeName _ p _ => p end.

Definition tn_nodes (t : TypeName) : list Node :=
  match t with mkTypeName _ _ ns => ns end.

(** [node.type]. *)
Definition node_type (n : Node) : string :=
  match n with
  | Identifier _ => "Identifier"
  | MemberAccess _ _ => "MemberAccess"
  | FunctionCall _ _ => "FunctionCall"
  | IndexAccess _ _ => "IndexAccess"
  | VariableDeclarationNode _ => "VariableDeclaration"
  | OtherNode t _ => t
  end.

(** [node.name] of an expression: only an identifier has the property. *)
Definition node_name (n : Node) : option string :=
  match n with
  | Identifier x => Some x
  | _ => None
  end.

(** [node.memberName]. *)
Definition node_memberName (n : Node) : option string :=
  match n with
  | MemberAccess _ m => Some m
  | _ => None
  end.

(** The nodes of a sub-tree in the order [parser.visit] reaches them. *)
Fixpoint subnodes (n : Node) : list Node :=
  n ::
  match n with
  | Identifier _ => []
  | MemberAccess e _ => subnodes e
  | FunctionCall e args => (subnodes e ++ flat_map subnodes args)%list
  | IndexAccess b i => (subnodes b ++ subnodes i)%list
  | VariableDeclarationNode (mkVariableDeclaration _ (Some (mkTypeName _ _ ns))) =>
      flat_map subnodes ns
  | VariableDeclarationNode (mkVariableDeclaration _ None) => []
  | OtherNode _ cs => flat_map subnodes cs
  end.

(** The nodes beneath a type name. *)
Definition type_subnodes (t : TypeName) : list Node :=
  flat_map subnodes (tn_nodes t).

(** A [Parameter] node: a parameter or return parameter; its [typeName]
    is never [null]. *)
Record FunctionParameter : Type := mkParameter {
  p_name : option string;
  p_typeName : TypeName
}.

(** The nodes beneath a parameter list. *)
Definition parameter_subnodes (ps : list FunctionParameter) : list Node :=
  flat_map (fun p => type_subnodes (p_typeName p)) ps.

Record ModifierInvocation : Type := mkModifierInvocation {
  mi_name : string;
  mi_arguments : list Node
}.

(** A function definition, its properties in the order of the walk:
    [parameters], [returnParameters] (empty when there is no [returns]),
    [body] ([None] for a bare declaration and otherwise the block's
    [statements]), [modifiers].  [name] is read for a function that is no
    constructor only; it is the empty string for a fallback function. *)
Record FunctionDefinition : Type := mkFunctionDefinition {
  fd_name : string;
  isConstructor : bool;
  parameters : list FunctionParameter;
  returnParameters : list FunctionParameter;
  body : option (list Node);
  modifiers : list ModifierInvocation
}.

Inductive ContractPart : Type :=
| StateVariableDeclaration (variables : list VariableDeclaration)
| EventDefinition (name : string) (eparams : list VariableDeclaration)
| StructDefinition (name : string) (members : list VariableDeclaration)
| ModifierDefinition (name : string) (mparams : list FunctionParameter) (mbody : list Node)
| FunctionDef (f : FunctionDefinition).

Record ContractDefinition : Type := mkContractDefinition {
  cd_name : string;
  baseContracts : list string;      (* InheritanceSpecifier: baseName.namePath *)
  subNodes : list ContractPart
}.

Inductive SourceItem : Type :=
| PragmaDirective
| ImportDirective (path : string)
| ContractDef (c : ContractDefinition).

Definition SourceUnit : Type := list SourceItem.

(** The file system and the process, as the code sees them. *)
Record Env : Type := mkEnv {
  readFile : string -> option SourceUnit;   (* readFileSync, then parse *)
  cwd : string                              (* process.cwd() *)
}.

(** The nodes under a function definition in the order
    [parser.visit(fDef, ...)] reaches them: the nodes beneath the
    parameters, beneath the return parameters, the statements of the body,
    then the arguments of the modifiers. *)
Definition fdef_subnodes (fDef : FunctionDefinition) : list Node :=
  (parameter_subnodes (parameters fDef)
   ++ parameter_subnodes (returnParameters fDef)
   ++ match body fDef with
      | Some stmts => flat_map subnodes stmts
      | None => []
      end
   ++ flat_map (fun m => flat_map subnodes (mi_arguments m)) (modifiers fDef))%list.

(** ** Keyword tables and the call filter *)

Definition isKeywordCall (word : option string) : bool :=
  opt_str_eqb word (Some "length").

Definition isKeywordFunction (word : option string) : bool :=
  opt_str_eqb word (Some "require")
  || opt_str_eqb word (Some "revert")
  || opt_str_eqb word (Some "assert").

Definition is_defined (v : option string) : bool :=
  match v with
  | Some _ => true
  | None => false
  end.

(** [isCountableStatement(fLink, contractsList, ignoresList)], on
    [fLink.expression]. *)
Definition isCountableStatement (expression : Node)
    (contractsList ignoresList : list string) : bool :=
  negb (isKeywordFunction (node_name expression))
  && negb (includes ignoresList (node_name expression))
  && negb (includes contractsList (node_name expression))
  && is_defined (node_name expression).

(** ** Extracted data *)

(** An entry of [callMethods]: [{ name, args }].  [name] is the callee as
    written until [renameToSymLinks] overwrites it with the resolved
    identifier or [undefined]. *)
Record CallRef : Type := mkCallRef {
  name : option string;
  args : list Node
}.

(** An entry of [methodCalls]. *)
Record MethodRecord : Type := mkMethodRecord {
  functionName : string;
  functionDefinition : string;
  callMethods : list CallRef
}.

(** An entry of the array [processData] returns. *)
Record ContractRecord : Type := mkContractRecord {
  contractName : option string;
  extendsContracts : list string;
  importList : list string;
  methodCalls : list MethodRecord
}.

(** [fDef.body.statements.length]; the visitor only runs on a definition
    whose body is not null. *)
Definition statements_length (fDef : FunctionDefinition) : nat :=
  match body fDef with
  | Some stmts => length stmts
  | None => 0
  end.

(** ** [parserFunctionVisitor] *)

(** The [FunctionCall] handler. *)
Definition visitFunctionCall (contractsList ignoresList : list string)
    (fDef : FunctionDefinition) (callMethods : list CallRef)
    (expression : Node) (arguments : list Node) : list CallRef :=
  if negb (str_eq_opt (fd_name fDef) (node_name expression))
     && Nat.ltb 1 (statements_length fDef)
     && isCountableStatement expression contractsList ignoresList
  then (callMethods ++ [mkCallRef (node_name expression) arguments])%list
  else callMethods.

(** The [MemberAccess] handler. *)
Definition visitMemberAccess (contractsList : list string)
    (callMethods : list CallRef)
    (expression : Node) (memberName : string) : list CallRef :=
  if (negb (String.eqb (node_type expression) "Identifier")
      || includes contractsList (node_name expression)
      || opt_str_eqb (node_name expression) (Some "super"))
     && negb (String.eqb (node_type expression) "IndexAccess")
  then
    if isKeywordCall (Some memberName) then callMethods
    else
      match expression with
      | FunctionCall _ arguments =>       (* hasOwnProperty 'arguments' *)
          (callMethods ++ [mkCallRef (Some memberName) arguments])%list
      | _ => (callMethods ++ [mkCallRef (Some memberName) []])%list
      end
  else callMethods.

(** The visitor object: dispatch on the node kind. *)
Definition parserFunctionVisitor (contractsList ignoresList : list string)
    (fDef : FunctionDefinition) (callMethods : list CallRef) (n : Node)
  : list CallRef :=
  match n with
  | FunctionCall expression arguments =>
      visitFunctionCall contractsList ignoresList fDef callMethods expression arguments
  | MemberAccess expression memberName =>
      visitMemberAccess contractsList callMethods expression memberName
  | _ => callMethods
  end.

(** [parser.visit(fDef, parserFunctionVisitor(..., fDef, callMethods))]
    started from an empty [callMethods]. *)
Definition visitFunction (contractsList ignoresList : list string)
    (fDef : FunctionDefinition) : list CallRef :=
  fold_left (parserFunctionVisitor contractsList ignoresList fDef)
            (fdef_subnodes fDef) [].

(** [t.name === undefined ? t.namePath : t.name] for a type name [t]. *)
Definition type_of (t : TypeName) : option string :=
  match tn_name t with
  | None => namePath t
  | Some n => Some n
  end.

(** ** [processData] *)

(** The resolved path of an import directive. *)
Definition importPath (env : Env) (solidityFile : string) (path : string) : string :=
  match path with
  | String "."%char _ => Path.join (Path.join solidityFile "../") path
  | _ => Path.join (Path.join (cwd env) "node_modules") path
  end.

(** The last contract definition of the file: [contractName] after the
    first scan ([undefined] if there is none). *)
Definition file_contractName (ast : SourceUnit) : option string :=
  fold_left (fun acc it =>
               match it with
               | ContractDef c => Some (cd_name c)
               | _ => acc
               end) ast None.

Definition file_imports (ast : SourceUnit) : list string :=
  flat_map (fun it => match it with ImportDirective p => [p] | _ => [] end) ast.

Definition file_functions (ast : SourceUnit) : list FunctionDefinition :=
  flat_map (fun it =>
              match it with
              | ContractDef c =>
                  flat_map (fun p => match p with FunctionDef f => [f] | _ => [] end)
                           (subNodes c)
              | _ => []
              end) ast.

Definition file_inheritance (ast : SourceUnit) : list string :=
  flat_map (fun it => match it with ContractDef c => baseContracts c | _ => [] end) ast.

(** [importList.filter(imp => imp.indexOf(x) > -1)[0]] *)
Definition findImport (importList : list string) (x : string) : option string :=
  hd_error (filter (fun imp => contains x imp) importList).

(** The working state of one [processData] activation together with the
    shared [importVisited] array. *)
Record ProcessState : Type := mkProcessState {
  ps_methodCalls : list MethodRecord;
  ps_processed : list ContractRecord;
  ps_extendsContracts : list string;
  ps_importVisited : list (option string)
}.

Section ProcessData.

Variable env : Env.
Variables ignoresList contractsList : list string.

(** The function itself, one level of recursion down. *)
Variable processData_rec :
  option string -> list (option string)
  -> outcome (list ContractRecord * list (option string)).

(** The block that occurs three times in [processData]:
    mark [nodePath] visited, recurse, append the result to [processed]. *)
Definition visitPath (nodePath : option string) (st : ProcessState)
  : outcome ProcessState :=
  '(result, visited') <-
      processData_rec nodePath (ps_importVisited st ++ [nodePath])%list ;;
  Done (mkProcessState (ps_methodCalls st)
                       (ps_processed st ++ result)%list
                       (ps_extendsContracts st)
                       visited').

(** The [FunctionDefinition] handler of the second scan. *)
Definition onFunctionDefinition (contractName : option string)
    (importList : list string) (st : ProcessState) (fDef : FunctionDefinition)
  : outcome ProcessState :=
  if isConstructor fDef then
    forEach (fun st modifier =>
               let nodePath := findImport importList (mi_name modifier) in
               if negb (includes_opt (ps_importVisited st) nodePath)
               then visitPath nodePath st
               else Done st)
            (modifiers fDef) st
  else
    let callMethods :=
      match body fDef with
      | Some _ => visitFunction contractsList ignoresList fDef
      | None => []
      end in
    let functionDefinition :=
      fold_left (fun acc p => acc ++ ":" ++ js_str (type_of (p_typeName p)))
                (parameters fDef)
                (js_str contractName ++ ":" ++ fd_name fDef) in
    Done (mkProcessState
            (ps_methodCalls st ++ [mkMethodRecord (fd_name fDef) functionDefinition callMethods])%list
            (ps_processed st) (ps_extendsContracts st) (ps_importVisited st)).

(** The [InheritanceSpecifier] handler of the third scan. *)
Definition onInheritanceSpecifier (importList : list string)
    (st : ProcessState) (baseName : string) : outcome ProcessState :=
  let nodePath := findImport importList baseName in
  st' <- (if negb (includes_opt (ps_importVisited st) nodePath)
          then visitPath nodePath st
          else Done st) ;;
  Done (mkProcessState (ps_methodCalls st') (ps_processed st')
                       (ps_extendsContracts st' ++ [baseName])%list
                       (ps_importVisited st')).

(** The final loop over [importList]. *)
Definition onImport (st : ProcessState) (nodePath : string) : outcome ProcessState :=
  if includes_opt (ps_importVisited st) (Some nodePath) then Done st
  else visitPath (Some nodePath) st.

Definition processData_body (solidityFile : option string)
    (importVisited : list (option string))
  : outcome (list ContractRecord * list (option string)) :=
  match solidityFile with
  | None => Throw FileError
  | Some file =>
      match readFile env file with
      | None => Throw FileError
      | Some ast =>
          let contractName := file_contractName ast in
          let importList := map (importPath env file) (file_imports ast) in
          st <- forEach (onFunctionDefinition contractName importList)
                        (file_functions ast)
                        (mkProcessState [] [] [] importVisited) ;;
          st <- forEach (onInheritanceSpecifier importList)
                        (file_inheritance ast) st ;;
          st <- forEach onImport importList st ;;
          Done ((ps_processed st ++
                   [mkContractRecord contractName (ps_extendsContracts st)
                                     importList (ps_methodCalls st)])%list,
                ps_importVisited st)
      end
  end.

End ProcessData.

(** [processData(solidityFile, importVisited, ignoresList, contractsList)]:
    the returned array and the final content of [importVisited].  [fuel]
    bounds the depth of the recursion. *)
Fixpoint processData (fuel : nat) (env : Env) (solidityFile : option string)
    (importVisited : list (option string)) (ignoresList contractsList : list string)
  : outcome (list ContractRecord * list (option string)) :=
  match fuel with
  | O => OutOfFuel
  | S fuel' =>
      processData_body env ignoresList contractsList
        (fun nodePath visited =>
           processData fuel' env nodePath visited ignoresList contractsList)
        solidityFile importVisited
  end.

(** ** [profileData] *)

(** The nodes the profiling scan has a handler for. *)
Inductive ProfileNode : Type :=
| PVariableDeclaration (node : VariableDeclaration)
| PEventDefinition (name : string)
| PStructDefinition (name : string)
| PContractDefinition (name : string)
| PImportDirective (path : string).

(** The [VariableDeclaration] nodes among the nodes of a walk. *)
Definition declarations_in (ns : list Node) : list VariableDeclaration :=
  flat_map (fun n => match n with VariableDeclarationNode d => [d] | _ => [] end) ns.

(** The walk of a list of declarations. *)
Definition declaration_subnodes (ds : list VariableDeclaration) : list Node :=
  flat_map (fun d => subnodes (VariableDeclarationNode d)) ds.

Definition part_profile_nodes (p : ContractPart) : list ProfileNode :=
  match p with
  | StateVariableDeclaration vars =>
      map PVariableDeclaration (declarations_in (declaration_subnodes vars))
  | EventDefinition n ps =>
      PEventDefinition n
      :: map PVariableDeclaration (declarations_in (declaration_subnodes ps))
  | StructDefinition n ms =>
      PStructDefinition n
      :: map PVariableDeclaration (declarations_in (declaration_subnodes ms))
  | ModifierDefinition _ ps stmts =>
      map PVariableDeclaration
          (declarations_in (parameter_subnodes ps ++ flat_map subnodes stmts)%list)
  | FunctionDef f =>
      map PVariableDeclaration (declarations_in (fdef_subnodes f))
  end.

(** The handled nodes of a file in the order the walk reaches them. *)
Definition profile_nodes (ast : SourceUnit) : list ProfileNode :=
  flat_map (fun it =>
              match it with
              | PragmaDirective => []
              | ImportDirective p => [PImportDirective p]
              | ContractDef c =>
                  PContractDefinition (cd_name c)
                  :: flat_map part_profile_nodes (subNodes c)
              end) ast.

(** [contractVariables]: declarations by name; and the registry: the
    [contractVariables] of the files by contract name. *)
Definition ContractVariables : Type := JsMap (option string) VariableDeclaration.

Definition VariableTypeMap : Type := JsMap string ContractVariables.

(** The four collections [profileData] mutates. *)
Record ProfileState : Type := mkProfileState {
  pf_importVisited : list string;
  pf_ignoresList : list string;
  pf_contractsList : list string;
  pf_variableType : VariableTypeMap
}.

(** The locals of one activation: [contractName], [contractVariables]. *)
Record ProfileLocals : Type := mkProfileLocals {
  pl_contractName : string;
  pl_contractVariables : ContractVariables
}.

Section ProfileData.

Variable env : Env.
Variable profileData_rec : string -> ProfileState -> outcome ProfileState.

Definition onProfileNode (solidityFile : string)
    (st : ProfileLocals * ProfileState) (n : ProfileNode)
  : outcome (ProfileLocals * ProfileState) :=
  let '(loc, sh) := st in
  match n with
  | PVariableDeclaration node =>
      Done (mkProfileLocals (pl_contractName loc)
              (map_set (vd_name node) node (pl_contractVariables loc)), sh)
  | PEventDefinition nm | PStructDefinition nm =>
      Done (loc, mkProfileState (pf_importVisited sh)
                   (pf_ignoresList sh ++ [nm])%list
                   (pf_contractsList sh) (pf_variableType sh))
  | PContractDefinition nm =>
      Done (mkProfileLocals nm (pl_contractVariables loc),
            mkProfileState (pf_importVisited sh) (pf_ignoresList sh)
                   (pf_contractsList sh ++ [nm])%list (pf_variableType sh))
  | PImportDirective path =>
      let nodePath := importPath env solidityFile path in
      if negb (includes (pf_importVisited sh) (Some nodePath)) then
        sh' <- profileData_rec nodePath
                 (mkProfileState (pf_importVisited sh ++ [nodePath])%list
                    (pf_ignoresList sh) (pf_contractsList sh) (pf_variableType sh)) ;;
        Done (loc, sh')
      else Done st
  end.

Definition profileData_body (solidityFile : string) (sh : ProfileState)
  : outcome ProfileState :=
  match readFile env solidityFile with
  | None => Throw FileError
  | Some ast =>
      '(loc, sh') <- forEach (onProfileNode solidityFile) (profile_nodes ast)
                             (mkProfileLocals "" [], sh) ;;
      Done (mkProfileState (pf_importVisited sh') (pf_ignoresList sh')
              (pf_contractsList sh')
              (map_set (pl_contractName loc) (pl_contractVariables loc)
                       (pf_variableType sh')))
  end.

End ProfileData.

(** [profileData(solidityFile, importVisited, ignoresList, contractsList,
    variableType)]: the four collections after the call. *)
Fixpoint profileData (fuel : nat) (env : Env) (solidityFile : string)
    (sh : ProfileState) : outcome ProfileState :=
  match fuel with
  | O => OutOfFuel
  | S fuel' => profileData_body env (profileData fuel' env) solidityFile sh
  end.

(** ** [findAndRenameCall] *)

(** [key === p.name] for a key of [contractVariables] (a string or
    [null]) and the name of an argument (a string or [undefined]). *)
Definition key_is (key pname : option string) : bool :=
  match key, pname with
  | Some k, Some x => String.eqb k x
  | _, _ => false
  end.

(** [value.typeName.name === undefined ? value.typeName.namePath
    : value.typeName.name]; the read of [name] throws when [typeName] is
    [null]. *)
Definition declaredType (value : VariableDeclaration) : outcome (option string) :=
  match typeName value with
  | Some t => Done (type_of t)
  | None => Throw TypeError
  end.

(** The nested [forEach] over [variableTypeMap] that sets [argType]: every
    declaration named [pname] that is met while [argType] is [undefined]
    has its type read. *)
Definition lookupArgType (variableTypeMap : VariableTypeMap) (pname : option string)
  : outcome (option string) :=
  forEach
    (fun argType (valueVar : string * ContractVariables) =>
       forEach
         (fun argType (kv : option string * VariableDeclaration) =>
            if key_is (fst kv) pname && negb (is_defined argType)
            then declaredType (snd kv)
            else Done argType)
         (snd valueVar) argType)
    variableTypeMap None.

(** What one argument appends to [functionDefinition]. *)
Definition argSegment (variableTypeMap : VariableTypeMap) (p : Node) : outcome string :=
  if String.eqb (node_type p) "Identifier" then
    argType <- lookupArgType variableTypeMap (node_name p) ;;
    Done (":" ++ js_str argType)
  else if String.eqb (node_type p) "MemberAccess" then
    Done (if opt_str_eqb (node_memberName p) (Some "sender") then ":address"
          else if opt_str_eqb (node_memberName p) (Some "value") then ":uint256"
          else "")
  else Done "".

(** The identifier built when the callee is found in [contractInfo]
    ([call.args] is always an array). *)
Definition localDefinition (contractInfo : ContractRecord)
    (variableTypeMap : VariableTypeMap) (call : CallRef) : outcome string :=
  forEach (fun functionDefinition p =>
             segment <- argSegment variableTypeMap p ;;
             Done (functionDefinition ++ segment))
          (args call)
          (js_str (contractName contractInfo) ++ ":" ++ js_str (name call)).

(** [contractInfo.methodCalls.find(method => method.functionName === call.name)] *)
Definition findMethod (contractInfo : ContractRecord) (call : CallRef)
  : option MethodRecord :=
  find (fun method => str_eq_opt (functionName method) (name call))
       (methodCalls contractInfo).

(** [contracts.find(c => c.contractName === n)] *)
Definition findContract (contracts : list ContractRecord) (n : string)
  : option ContractRecord :=
  find (fun c => opt_str_eqb (contractName c) (Some n)) contracts.

(** [if (result !== undefined) foundResult = result] *)
Definition overwrite (foundResult result : option string) : option string :=
  match result with
  | Some _ => result
  | None => foundResult
  end.

(** [findAndRenameCall(contracts, contractRoot, contractInfo,
    variableTypeMap, call)].  [contracts] and [contractInfo] may be
    [undefined]; the result is a string or [undefined].  [fuel] bounds the
    depth of the recursion. *)
Fixpoint findAndRenameCall (fuel : nat) (contracts : option (list ContractRecord))
    (contractRoot : ContractRecord) (contractInfo : option ContractRecord)
    (variableTypeMap : VariableTypeMap) (call : CallRef)
  : outcome (option string) :=
  match fuel with
  | O => OutOfFuel
  | S fuel' =>
      match contracts with
      | None => Done None
      | Some cs =>
          match contractInfo with
          | None => Throw TypeError         (* contractInfo.methodCalls *)
          | Some info =>
              match findMethod info call with
              | Some _ =>
                  functionDefinition <- localDefinition info variableTypeMap call ;;
                  Done (Some functionDefinition)
              | None =>
                  foundResult <-
                    forEach (fun foundResult extending =>
                               let contractToVisit := findContract cs extending in
                               result <- findAndRenameCall fuel' contracts contractRoot
                                           contractToVisit variableTypeMap call ;;
                               Done (overwrite foundResult result))
                            (extendsContracts info) None ;;
                  match foundResult with
                  | Some _ => Done foundResult
                  | None =>
                      forEach (fun foundResult importContract =>
                                 let contractName := Path.parse_name importContract in
                                 if negb (includes (extendsContracts info) (Some contractName))
                                 then
                                   let contractToVisit := findContract cs contractName in
                                   result <- findAndRenameCall fuel' contracts contractRoot
                                               contractToVisit variableTypeMap call ;;
                                   Done (overwrite foundResult result)
                                 else Done foundResult)
                              (importList info) foundResult
                  end
              end
          end
      end
  end.

(** ** [renameToSymLinks] and [parsing] *)

Fixpoint mapM {A B : Type} (f : A -> outcome B) (l : list A) : outcome (list B) :=
  match l with
  | [] => Done []
  | a :: rest => b <- f a ;; bs <- mapM f rest ;; Done (b :: bs)
  end.

(** An element of [contractsArray]: [{ file, contract }]. *)
Record FileData : Type := mkFileData {
  file : string;
  contract : list ContractRecord
}.

(** The body of the innermost [map]: [call.name] is overwritten.  The
    resolver reads [contractName], [extendsContracts], [importList],
    [functionName] and the [name] and [args] of the call at hand only, none
    of which an earlier overwrite has touched, so the universe it is given
    can be the one from before the loop. *)
Definition renameCall (fuel : nat) (contracts : list ContractRecord)
    (contractInfo : ContractRecord) (variableTypeMap : VariableTypeMap)
    (call : CallRef) : outcome CallRef :=
  r <- findAndRenameCall fuel (Some contracts) contractInfo (Some contractInfo)
         variableTypeMap call ;;
  Done (mkCallRef r (args call)).

Definition renameMethod (fuel : nat) (contracts : list ContractRecord)
    (contractInfo : ContractRecord) (variableTypeMap : VariableTypeMap)
    (method : MethodRecord) : outcome MethodRecord :=
  calls <- mapM (renameCall fuel contracts contractInfo variableTypeMap)
                (callMethods method) ;;
  Done (mkMethodRecord (functionName method) (functionDefinition method) calls).

Definition renameContract (fuel : nat) (contracts : list ContractRecord)
    (variableTypeMap : VariableTypeMap) (contractInfo : ContractRecord)
  : outcome ContractRecord :=
  methods <- mapM (renameMethod fuel contracts contractInfo variableTypeMap)
                  (methodCalls contractInfo) ;;
  Done (mkContractRecord (contractName contractInfo) (extendsContracts contractInfo)
                         (importList contractInfo) methods).

Definition renameToSymLinks (fuel : nat) (allContractsData : list FileData)
    (variableTypeMap : VariableTypeMap) : outcome (list FileData) :=
  mapM (fun data =>
          cs <- mapM (renameContract fuel (contract data) variableTypeMap)
                     (contract data) ;;
          Done (mkFileData (file data) cs))
       allContractsData.

(** [exports.parsing], up to the hand-over to the two rendering
    transforms: the linked [contractsArray]. *)
Definition parsing (fuel : nat) (env : Env) (solidityFilesPath : list string)
  : outcome (list FileData) :=
  '(contractsArray, variableTypeMap) <-
     forEach (fun (acc : list FileData * VariableTypeMap) file =>
                let '(contractsArray, variableTypeMap) := acc in
                sh <- profileData fuel env file
                        (mkProfileState [] [] [] variableTypeMap) ;;
                '(contract, _) <- processData fuel env (Some file) []
                                    (pf_ignoresList sh) (pf_contractsList sh) ;;
                Done ((contractsArray ++ [mkFileData file contract])%list,
                      pf_variableType sh))
             solidityFilesPath ([], []) ;;
  renameToSymLinks fuel contractsArray variableTypeMap.

(** ** Vocabulary of the statements *)

(** [:t1:t2:...:tn] *)
Definition segments (tys : list string) : string :=
  fold_right (fun t acc => ":" ++ t ++ acc) "" tys.

(** What the arguments of a call append to an identifier. *)
Definition argSegments (variableTypeMap : VariableTypeMap) (arguments : list Node)
  : outcome string :=
  forEach (fun segs p =>
             segment <- argSegment variableTypeMap p ;;
             Done (segs ++ segment))
          arguments "".

(** [s] has the form [Contract:Function[:Type]*] for a contract record of
    [universe] and a function that record defines. *)
Definition resolvedForm (universe : list ContractRecord) (s : string) : Prop :=
  exists (c : ContractRecord) (m : MethodRecord) (tys : list string),
    In c universe /\ In m (methodCalls c)
    /\ s = js_str (contractName c) ++ ":" ++ functionName m ++ segments tys.

(** The variable declarations of a file in the order the profiling scan
    meets them. *)
Definition file_declarations (ast : SourceUnit) : list VariableDeclaration :=
  flat_map (fun n => match n with PVariableDeclaration d => [d] | _ => [] end)
           (profile_nodes ast).

(** The names of the contract definitions of a file in the order the
    profiling scan meets them. *)
Definition file_contracts (ast : SourceUnit) : list string :=
  flat_map (fun n => match n with PContractDefinition c => [c] | _ => [] end)
           (profile_nodes ast).

(** The last contract a file defines (the empty string if none). *)
Definition file_profileName (ast : SourceUnit) : string :=
  last (file_contracts ast) "".

(** [contractVariables] after all declarations of [ds] have been set. *)
Definition variables_of (ds : list VariableDeclaration) : ContractVariables :=
  fold_left (fun m d => map_set (vd_name d) d m) ds [].

(** The contract names the resolver may look up from a record: its bases,
    then the names of its import paths. *)
Definition consulted (info : ContractRecord) : list string :=
  (extendsContracts info ++ map Path.parse_name (importList info))%list.

(** What a handler of the profiling scan does to the locals. *)
Definition local_step (loc : ProfileLocals) (n : ProfileNode) : ProfileLocals :=
  match n with
  | PVariableDeclaration node =>
      mkProfileLocals (pl_contractName loc)
                      (map_set (vd_name node) node (pl_contractVariables loc))
  | PContractDefinition nm => mkProfileLocals nm (pl_contractVariables loc)
  | _ => loc
  end.

(** The last declaration named [k] ([None]: without a name). *)
Definition last_declaration (k : option string) (ds : list VariableDeclaration)
  : option VariableDeclaration :=
  find (fun d => opt_str_eqb (vd_name d) k) (rev ds).

(** [functionCallNode.expression.arguments] when the receiver of a member
    access has the property, the empty array otherwise. *)
Definition receiverArguments (expression : Node) : list Node :=
  match expression with
  | FunctionCall _ arguments => arguments
  | _ => []
  end.

(** The signature of a function: contract name, function name and the
    types of the parameters. *)
Definition signature (contractName : option string) (fDef : FunctionDefinition)
  : string :=
  js_str contractName ++ ":" ++ fd_name fDef
  ++ segments (map (fun p => js_str (type_of (p_typeName p))) (parameters fDef)).

(** The entry of [methodCalls] for a function that is no constructor. *)
Definition methodRecord (contractsList ignoresList : list string)
    (contractName : option string) (fDef : FunctionDefinition) : MethodRecord :=
  mkMethodRecord (fd_name fDef) (signature contractName fDef)
    (match body fDef with
     | Some _ => visitFunction contractsList ignoresList fDef
     | None => []
     end).

(** The record of a file itself. *)
Definition ownRecord (env : Env) (contractsList ignoresList : list string)
    (solidityFile : string) (ast : SourceUnit) : ContractRecord :=
  mkContractRecord (file_contractName ast) (file_inheritance ast)
    (map (importPath env solidityFile) (file_imports ast))
    (map (methodRecord contractsList ignoresList (file_contractName ast))
         (filter (fun f => negb (isConstructor f)) (file_functions ast))).

(** An extraction run keeps the visited list free of duplicates, only
    appends to it, and returns one record per appended path and one for
    the file itself. *)
Definition visits_once
    (run : list (option string) -> outcome (list ContractRecord * list (option string)))
  : Prop :=
  forall (visited visited' : list (option string)) (records : list ContractRecord),
    run visited = Done (records, visited') ->
    NoDup visited ->
    NoDup visited'
    /\ exists added : list (option string),
         visited' = (visited ++ added)%list
         /\ List.length records = S (List.length added).

(** The same, inside the scans of one file: [visited] is the list at
    entry, [ps_processed] holds one record per appended path. *)
Definition scan_invariant (visited : list (option string)) (st : ProcessState) : Prop :=
  NoDup (ps_importVisited st)
  /\ exists added : list (option string),
       ps_importVisited st = (visited ++ added)%list
       /\ List.length (ps_processed st) = List.length added.

(** The files of [files] that are not yet in the visited list. *)
Definition unvisited (files : list string) (visited : list (option string))
  : list string :=
  filter (fun p => negb (includes_opt visited (Some p))) files.

(** [fs.readFileSync(nodePath)] throws. *)
Definition unreadable (env : Env) (nodePath : option string) : Prop :=
  match nodePath with
  | Some p => readFile env p = None
  | None => True
  end.

(** The names of the events and structs of a scanned node list, and of
    its contract definitions. *)
Definition ignored_in (nodes : list ProfileNode) : list string :=
  flat_map (fun n => match n with
                     | PEventDefinition x | PStructDefinition x => [x]
                     | _ => []
                     end) nodes.

Definition contracts_in (nodes : list ProfileNode) : list string :=
  flat_map (fun n => match n with PContractDefinition c => [c] | _ => [] end) nodes.

(** The file at path [p] is readable and the names it declares are in the
    lists of [sh]. *)
Definition profiled (env : Env) (p : string) (sh : ProfileState) : Prop :=
  exists ast : SourceUnit,
    readFile env p = Some ast
    /\ incl (ignored_in (profile_nodes ast)) (pf_ignoresList sh)
    /\ incl (file_contracts ast) (pf_contractsList sh).

(** The three lists of [sh'] hold what those of [sh] hold. *)
Definition grows (sh sh' : ProfileState) : Prop :=
  incl (pf_importVisited sh) (pf_importVisited sh')
  /\ incl (pf_ignoresList sh) (pf_ignoresList sh')
  /\ incl (pf_contractsList sh) (pf_contractsList sh').

(** Every file that came onto the visited list between [sh] and [sh'] is
    profiled in [sh']. *)
Definition closed_under_imports (env : Env) (sh sh' : ProfileState) : Prop :=
  forall p : string,
    In p (pf_importVisited sh') -> ~ In p (pf_importVisited sh) -> profiled env p sh'.

(** All (name, declaration) pairs of the registry, contract after
    contract in insertion order. *)
Definition registry_entries (variableTypeMap : VariableTypeMap)
  : list (option string * VariableDeclaration) :=
  flat_map snd variableTypeMap.

(** The pair is a declaration of [x] that settles the type of an
    argument [x]: its [typeName] is [null], or has a [name] or a
    [namePath]. *)
Definition settles (x : string) (kv : option string * VariableDeclaration) : bool :=
  key_is (fst kv) (Some x)
  && match typeName (snd kv) with
     | Some t => is_defined (type_of t)
     | None => true
     end.

(** Every declaration of the registry has a type name. *)
Definition typed_registry (variableTypeMap : VariableTypeMap) : Prop :=
  forall kv : option string * VariableDeclaration,
    In kv (registry_entries variableTypeMap) -> typeName (snd kv) <> None.

(** The records the resolver can get to from a record: the record itself,
    and what can be got to from the record of a base or of an import. *)
Inductive reachable (cs : list ContractRecord)
  : ContractRecord -> ContractRecord -> Prop :=
| reachable_self (c : ContractRecord) : reachable cs c c
| reachable_step (c c' d : ContractRecord) (n : string) :
    In n (consulted c) -> findContract cs n = Some c' ->
    reachable cs c' d -> reachable cs c d.

(** Two records agree on everything the resolver reads: the contract
    name, the bases, the import paths and the names of the functions. *)
Definition same_links (c c' : ContractRecord) : Prop :=
  contractName c = contractName c'
  /\ extendsContracts c = extendsContracts c'
  /\ importList c = importList c'
  /\ map functionName (methodCalls c) = map functionName (methodCalls c').

(** What linking makes of a call, a method, a contract and a file. *)
Definition linked_call (fuel : nat) (universe : list ContractRecord)
    (contractInfo : ContractRecord) (variableTypeMap : VariableTypeMap)
    (call call' : CallRef) : Prop :=
  args call' = args call
  /\ findAndRenameCall fuel (Some universe) contractInfo (Some contractInfo)
                       variableTypeMap call
     = Done (name call').

Definition linked_method (fuel : nat) (universe : list ContractRecord)
    (contractInfo : ContractRecord) (variableTypeMap : VariableTypeMap)
    (method method' : MethodRecord) : Prop :=
  functionName method' = functionName method
  /\ functionDefinition method' = functionDefinition method
  /\ Forall2 (linked_call fuel universe contractInfo variableTypeMap)
             (callMethods method) (callMethods method').

Definition linked_contract (fuel : nat) (universe : list ContractRecord)
    (variableTypeMap : VariableTypeMap) (c c' : ContractRecord) : Prop :=
  contractName c' = contractName c
  /\ extendsContracts c' = extendsContracts c
  /\ importList c' = importList c
  /\ Forall2 (linked_method fuel universe c variableTypeMap)
             (methodCalls c) (methodCalls c').

Definition linked_file (fuel : nat) (variableTypeMap : VariableTypeMap)
    (data data' : FileData) : Prop :=
  file data' = file data
  /\ Forall2 (linked_contract fuel (contract data) variableTypeMap)
             (contract data) (contract data').

(** The file at path [p] is readable and all its resolved import paths
    are in the visited list of [sh]. *)
Definition imports_visited (env : Env) (p : string) (sh : ProfileState) : Prop :=
  exists ast : SourceUnit,
    readFile env p = Some ast
    /\ incl (map (importPath env p) (file_imports ast)) (pf_importVisited sh).

(** Every path of the visited list of extraction is one of [seen]. *)
Definition visited_within (seen : list string) (st : ProcessState) : Prop :=
  incl (ps_importVisited st) (map Some seen).

(** The record [r] is the own record of a readable file: of [f], or of a
    file that came onto the visited list between [visited] and [visited']. *)
Definition extracted_from (env : Env) (contractsList ignoresList : list string)
    (visited visited' : list (option string)) (f : option string)
    (r : ContractRecord) : Prop :=
  exists (p : string) (ast : SourceUnit),
    (Some p = f \/ (In (Some p) visited' /\ ~ In (Some p) visited))
    /\ readFile env p = Some ast
    /\ r = ownRecord env contractsList ignoresList p ast.

(** The same for the records gathered so far inside the scans of a file. *)
Definition gathered (env : Env) (contractsList ignoresList : list string)
    (visited : list (option string)) (st : ProcessState) : Prop :=
  incl visited (ps_importVisited st)
  /\ Forall (fun r => exists (p : string) (ast : SourceUnit),
                        In (Some p) (ps_importVisited st)
                        /\ ~ In (Some p) visited
                        /\ readFile env p = Some ast
                        /\ r = ownRecord env contractsList ignoresList p ast)
            (ps_processed st).

(** * Properties *)

(** ** Sample programs

    The sources used by the concrete statements below, as the parser would
    hand them over. *)
Module Samples.

Definition stmt (e : Node) : Node := OtherNode "ExpressionStatement" [e].
Definition call (f : string) (a : list Node) : Node := FunctionCall (Identifier f) a.
Definition number (n : string) : Node := OtherNode "NumberLiteral" [].
Definition uint256 : TypeName := mkTypeName (Some "uint256") None [].
Definition variable (n : string) (t : TypeName) : VariableDeclaration :=
  mkVariableDeclaration (Some n) (Some t).
Definition param (n : string) (t : TypeName) : FunctionParameter := mkParameter (Some n) t.
Definition func (n : string) (ps : list FunctionParameter) (b : option (list Node))
  : ContractPart :=
  FunctionDef (mkFunctionDefinition n false ps [] b []).

(** [msg.value] and [msg.sender] *)
Definition msg_value : Node := MemberAccess (Identifier "msg") "value".
Definition msg_sender : Node := MemberAccess (Identifier "msg") "sender".

(** [function hello() { greet(); }] *)
Definition hello : FunctionDefinition :=
  mkFunctionDefinition "hello" false [] [] (Some [stmt (call "greet" [])]) [].

(** [function count() { step(); count(); }] *)
Definition count : FunctionDefinition :=
  mkFunctionDefinition "count" false [] []
    (Some [stmt (call "step" []); stmt (call "count" [])]) [].

(** Two files that import each other.
    A.sol: [import "./B.sol"; contract A { function foo() { keccak256(x); bar(); } }]
    B.sol: [import "./A.sol"; contract B { function bar() { } }] *)
Definition fileA : SourceUnit :=
  [ImportDirective "./B.sol";
   ContractDef (mkContractDefinition "A" []
     [func "foo" []
        (Some [stmt (call "keccak256" [Identifier "x"]); stmt (call "bar" [])])])].

Definition fileB : SourceUnit :=
  [ImportDirective "./A.sol";
   ContractDef (mkContractDefinition "B" [] [func "bar" [] (Some [])])].

Definition cyclic : Env :=
  mkEnv (fun p => if String.eqb p "/c/A.sol" then Some fileA
                  else if String.eqb p "/c/B.sol" then Some fileB
                  else None)
        "/cwd".

Definition recA : ContractRecord :=
  mkContractRecord (Some "A") [] ["/c/B.sol"]
    [mkMethodRecord "foo" "A:foo"
       [mkCallRef (Some "keccak256") [Identifier "x"]; mkCallRef (Some "bar") []]].

Definition recB : ContractRecord :=
  mkContractRecord (Some "B") [] ["/c/A.sol"] [mkMethodRecord "bar" "B:bar" []].

(** A library with a struct and a function, and a contract that uses
    both through the library's name.
    Lib.sol:  [library Lib { struct Point { uint256 x; }
                             function transfer(uint256 amount) { } }]
    Main.sol: [import "./Lib.sol";
               contract Main { function pay() { Lib.Point(1);
                                                Lib.transfer(msg.value); } }] *)
Definition fileLib : SourceUnit :=
  [ContractDef (mkContractDefinition "Lib" []
     [StructDefinition "Point" [variable "x" uint256];
      func "transfer" [param "amount" uint256] (Some [])])].

Definition pay : FunctionDefinition :=
  mkFunctionDefinition "pay" false [] []
    (Some [stmt (FunctionCall (MemberAccess (Identifier "Lib") "Point") [number "1"]);
           stmt (FunctionCall (MemberAccess (Identifier "Lib") "transfer") [msg_value])])
    [].

Definition fileMain : SourceUnit :=
  [ImportDirective "./Lib.sol";
   ContractDef (mkContractDefinition "Main" [] [FunctionDef pay])].

Definition recLib : ContractRecord :=
  mkContractRecord (Some "Lib") [] []
    [mkMethodRecord "transfer" "Lib:transfer:uint256" []].

Definition library : Env :=
  mkEnv (fun p => if String.eqb p "/c/Main.sol" then Some fileMain
                  else if String.eqb p "/c/Lib.sol" then Some fileLib
                  else None)
        "/cwd".

(** A file whose name differs from the contract it defines.
    SafeMath.sol: [library SafeMathLib { function add() { } }]
    Wallet.sol:   [import "./SafeMath.sol";
                   contract Wallet { function pay() { check(); send(); } }]
    and the records extraction returns for Wallet.sol. *)
Definition fileSafeMath : SourceUnit :=
  [ContractDef (mkContractDefinition "SafeMathLib" [] [func "add" [] (Some [])])].

Definition fileWallet : SourceUnit :=
  [ImportDirective "./SafeMath.sol";
   ContractDef (mkContractDefinition "Wallet" []
     [func "pay" [] (Some [stmt (call "check" []); stmt (call "send" [])])])].

Definition misnamed : Env :=
  mkEnv (fun p => if String.eqb p "/c/Wallet.sol" then Some fileWallet
                  else if String.eqb p "/c/SafeMath.sol" then Some fileSafeMath
                  else None)
        "/cwd".

Definition recSafeMathLib : ContractRecord :=
  mkContractRecord (Some "SafeMathLib") [] [] [mkMethodRecord "add" "SafeMathLib:add" []].

Definition recWallet : ContractRecord :=
  mkContractRecord (Some "Wallet") [] ["/c/SafeMath.sol"]
    [mkMethodRecord "pay" "Wallet:pay"
       [mkCallRef (Some "check") []; mkCallRef (Some "send") []]].

(** One file, two contracts.
    [contract X { uint256 a; } contract Y { uint256 b; }] *)
Definition fileXY : SourceUnit :=
  [ContractDef (mkContractDefinition "X" []
     [StateVariableDeclaration [variable "a" uint256]]);
   ContractDef (mkContractDefinition "Y" []
     [StateVariableDeclaration [variable "b" uint256]])].

Definition twoContracts : Env :=
  mkEnv (fun p => if String.eqb p "/c/XY.sol" then Some fileXY else None) "/cwd".

(** The registry after XY.sol has been profiled. *)
Definition registryXY : VariableTypeMap :=
  [("Y", [(Some "a", variable "a" uint256);
          (Some "b", variable "b" uint256)])].

(** [contract Child is A, B], both bases defining [f]. *)
Definition baseA : ContractRecord :=
  mkContractRecord (Some "A") [] [] [mkMethodRecord "f" "A:f" []].
Definition baseB : ContractRecord :=
  mkContractRecord (Some "B") [] [] [mkMethodRecord "f" "B:f" []].
Definition child : ContractRecord :=
  mkContractRecord (Some "Child") ["A"; "B"] ["/c/A.sol"; "/c/B.sol"]
    [mkMethodRecord "g" "Child:g" [mkCallRef (Some "f") [msg_sender]]].

(** [contract Shadow is A] with its own [f], called from [g]. *)
Definition shadow : ContractRecord :=
  mkContractRecord (Some "Shadow") ["A"] ["/c/A.sol"]
    [mkMethodRecord "f" "Shadow:f" [];
     mkMethodRecord "g" "Shadow:g"
       [mkCallRef (Some "f") [msg_value]; mkCallRef (Some "keccak256") [Identifier "x"]]].

Definition call_f_sender : CallRef := mkCallRef (Some "f") [msg_sender].
Definition call_f_value : CallRef := mkCallRef (Some "f") [msg_value].
Definition call_keccak : CallRef := mkCallRef (Some "keccak256") [Identifier "x"].
Definition call_check : CallRef := mkCallRef (Some "check") [].

(** What linking makes of Main.sol. *)
Definition linkedMain : list FileData :=
  [mkFileData "/c/Main.sol"
     [recLib;
      mkContractRecord (Some "Main") [] ["/c/Lib.sol"]
        [mkMethodRecord "pay" "Main:pay"
           [mkCallRef None []; mkCallRef (Some "Lib:transfer") []]]]].

(** [Child], its bases, and what linking makes of them. *)
Definition childData : list FileData :=
  [mkFileData "/c/Child.sol" [baseA; baseB; child]].

Definition linkedChild : ContractRecord :=
  mkContractRecord (Some "Child") ["A"; "B"] ["/c/A.sol"; "/c/B.sol"]
    [mkMethodRecord "g" "Child:g" [mkCallRef (Some "B:f:address") [msg_sender]]].

Definition linkedChildData : list FileData :=
  [mkFileData "/c/Child.sol" [baseA; baseB; linkedChild]].

(** Names declared without a type.  [var (a, b) = h();] declares [a] and
    [b] with a [typeName] that is [null]. *)
Definition var_a_b (init : Node) : Node :=
  OtherNode "VariableDeclarationStatement"
    [VariableDeclarationNode (mkVariableDeclaration (Some "a") None);
     VariableDeclarationNode (mkVariableDeclaration (Some "b") None);
     init].

(** [function h() returns (uint256, uint256) { return (1, 2); }] *)
Definition pair_of_numbers : ContractPart :=
  FunctionDef
    (mkFunctionDefinition "h" false [] [mkParameter None uint256; mkParameter None uint256]
       (Some [OtherNode "ReturnStatement"
                [OtherNode "TupleExpression" [number "1"; number "2"]]])
       []).

(** VarTuple.sol:
    [contract V { function h() returns (uint256, uint256) { return (1, 2); }
                  function g(uint256 x) { }
                  function t() { var (a, b) = h(); g(a); } }]
    with the registry profiling gives and the record extraction gives. *)
Definition fileVarTuple : SourceUnit :=
  [ContractDef (mkContractDefinition "V" []
     [pair_of_numbers;
      func "g" [param "x" uint256] (Some []);
      func "t" [] (Some [var_a_b (call "h" []); stmt (call "g" [Identifier "a"])])])].

Definition varTuple : Env :=
  mkEnv (fun p => if String.eqb p "/c/VarTuple.sol" then Some fileVarTuple else None)
        "/cwd".

Definition registryV : VariableTypeMap :=
  [("V", [(Some "a", mkVariableDeclaration (Some "a") None);
          (Some "b", mkVariableDeclaration (Some "b") None)])].

Definition call_g_a : CallRef := mkCallRef (Some "g") [Identifier "a"].

Definition recV : ContractRecord :=
  mkContractRecord (Some "V") [] []
    [mkMethodRecord "h" "V:h" [];
     mkMethodRecord "g" "V:g:uint256" [];
     mkMethodRecord "t" "V:t" [mkCallRef (Some "h") []; call_g_a]].

(** Two bases that define [f] and a contract derived from both that
    calls [f] on a name declared without a type.
    A.sol: [contract A { function f(uint256 x) { } }]
    B.sol: [contract B { function f(uint256 x) { } }]
    Child.sol: [import "./A.sol"; import "./B.sol";
                contract Child is A, B {
                  function h() returns (uint256, uint256) { return (1, 2); }
                  function g() { var (a, b) = h(); f(a); } }]
    with the registry profiling gives and the records extraction gives. *)
Definition fileDefinesF (c : string) : SourceUnit :=
  [ContractDef (mkContractDefinition c [] [func "f" [param "x" uint256] (Some [])])].

Definition fileDerived : SourceUnit :=
  [ImportDirective "./A.sol";
   ImportDirective "./B.sol";
   ContractDef (mkContractDefinition "Child" ["A"; "B"]
     [pair_of_numbers;
      func "g" [] (Some [var_a_b (call "h" []); stmt (call "f" [Identifier "a"])])])].

Definition derived : Env :=
  mkEnv (fun p => if String.eqb p "/d/Child.sol" then Some fileDerived
                  else if String.eqb p "/d/A.sol" then Some (fileDefinesF "A")
                  else if String.eqb p "/d/B.sol" then Some (fileDefinesF "B")
                  else None)
        "/cwd".

Definition registryDerived : VariableTypeMap :=
  [("A", []);
   ("B", []);
   ("Child", [(Some "a", mkVariableDeclaration (Some "a") None);
              (Some "b", mkVariableDeclaration (Some "b") None)])].

Definition call_f_a : CallRef := mkCallRef (Some "f") [Identifier "a"].

Definition definesF (c : string) : ContractRecord :=
  mkContractRecord (Some c) [] [] [mkMethodRecord "f" (c ++ ":f:uint256") []].

Definition recDerived : ContractRecord :=
  mkContractRecord (Some "Child") ["A"; "B"] ["/d/A.sol"; "/d/B.sol"]
    [mkMethodRecord "h" "Child:h" [];
     mkMethodRecord "g" "Child:g" [mkCallRef (Some "h") []; call_f_a]].

End Samples.

(** More sample programs. *)
Module Fixtures.

(** One file with a base and a contract derived from it, no import.
    Pair.sol: [contract Base { function greet() { } }
               contract Child is Base { function hello() { greet(); } }] *)
Definition filePair : SourceUnit :=
  [ContractDef (mkContractDefinition "Base" [] [Samples.func "greet" [] (Some [])]);
   ContractDef (mkContractDefinition "Child" ["Base"]
     [FunctionDef Samples.hello])].

Definition pair : Env :=
  mkEnv (fun p => if String.eqb p "/c/Pair.sol" then Some filePair else None) "/cwd".

(** The lists after Main.sol of [Samples.library] has been profiled, and
    the records extraction returns for it. *)
Definition profiledMain : ProfileState :=
  mkProfileState ["/c/Lib.sol"] ["Point"] ["Lib"; "Main"]
    [("Lib", [(Some "x", Samples.variable "x" Samples.uint256)]);
     ("Main", [])].

(** [function f(uint256[Lib.SIZE] a) { g(); h(); }] and
    [function one(uint256[Lib.SIZE] a) { g(); }] *)
Definition sizedArray : TypeName :=
  mkTypeName None None
    [OtherNode "ElementaryTypeName" []; MemberAccess (Identifier "Lib") "SIZE"].

Definition sized : FunctionDefinition :=
  mkFunctionDefinition "f" false [Samples.param "a" sizedArray] []
    (Some [Samples.stmt (Samples.call "g" []); Samples.stmt (Samples.call "h" [])]) [].

Definition sizedOne : FunctionDefinition :=
  mkFunctionDefinition "one" false [Samples.param "a" sizedArray] []
    (Some [Samples.stmt (Samples.call "g" [])]) [].

Definition extractedMain : list ContractRecord :=
  [Samples.recLib;
   mkContractRecord (Some "Main") [] ["/c/Lib.sol"]
     [mkMethodRecord "pay" "Main:pay"
        [mkCallRef (Some "Point") []; mkCallRef (Some "transfer") []]]].

End Fixtures.

(** ** Auxiliary facts *)

Lemma append_assoc (a b c : string) : (a ++ b) ++ c = a ++ (b ++ c).
Proof.
  induction a as [|ch a IH]; simpl; [reflexivity | now rewrite IH].
Qed.

Lemma append_empty_r (a : string) : a ++ "" = a.
Proof.
  induction a as [|ch a IH]; simpl; [reflexivity | now rewrite IH].
Qed.

Lemma str_eq_opt_true (a : string) (b : option string) :
  str_eq_opt a b = true <-> b = Some a.
Proof.
  destruct b as [s|]; simpl; [|split; discriminate].
  rewrite String.eqb_eq. split; [now intros -> | now intros [= ->]].
Qed.

Lemma opt_str_eqb_true (a b : option string) :
  opt_str_eqb a b = true <-> a = b.
Proof.
  destruct a as [x|], b as [y|]; simpl; try (split; (discriminate || reflexivity)).
  rewrite String.eqb_eq. split; [now intros -> | now intros [= ->]].
Qed.

(** [path.parse(p).name] on a file name, a hidden file and "..". *)
Example parse_name_cases :
  Path.parse_name "/c/SafeMath.sol" = "SafeMath"
  /\ Path.parse_name "/c/.hidden" = ".hidden"
  /\ Path.parse_name "/c/.." = ".."
  /\ Path.parse_name "/c/a.b.sol/" = "a.b".
Proof. repeat split; reflexivity. Qed.

Lemma bind_Done {A B : Type} (m : outcome A) (k : A -> outcome B) (b : B) :
  bind m k = Done b -> exists a, m = Done a /\ k a = Done b.
Proof.
  destruct m as [a| |]; simpl; intros H; try discriminate.
  exists a; split; [reflexivity | exact H].
Qed.

Lemma bind_ext {A B : Type} (m : outcome A) (k k' : A -> outcome B) :
  (forall a, k a = k' a) -> bind m k = bind m k'.
Proof. intros H. destruct m; simpl; auto. Qed.

Lemma forEach_app {A S : Type} (f : S -> A -> outcome S) :
  forall (l l' : list A) (s : S),
    forEach f (l ++ l')%list s = (s' <- forEach f l s ;; forEach f l' s').
Proof.
  induction l as [|a l IH]; intros l' s; simpl; [reflexivity|].
  destruct (f s a); simpl; auto.
Qed.

(** A loop whose body completes on every element completes. *)
Lemma forEach_total {A S : Type} (f : S -> A -> outcome S) :
  forall (arr : list A) (s : S),
    (forall s1 a, In a arr -> exists s2, f s1 a = Done s2) ->
    exists s', forEach f arr s = Done s'.
Proof.
  induction arr as [|a rest IH]; simpl; intros s Hstep.
  - exists s; reflexivity.
  - destruct (Hstep s a (or_introl eq_refl)) as (s1 & ->). simpl.
    apply IH. intros s2 b Hb. apply Hstep. now right.
Qed.

(** An invariant of the accumulator is kept by a completed [forEach]. *)
Lemma forEach_invariant {A S : Type} (P : S -> Prop) (f : S -> A -> outcome S) :
  forall (arr : list A) (s s' : S),
    (forall s1 a s2, In a arr -> P s1 -> f s1 a = Done s2 -> P s2) ->
    P s -> forEach f arr s = Done s' -> P s'.
Proof.
  induction arr as [|a rest IH]; simpl; intros s s' Hstep Hs Hrun.
  - injection Hrun as <-. exact Hs.
  - apply bind_Done in Hrun as (s1 & Hf & Hrest).
    apply (IH s1 s'); auto.
    + intros; eapply Hstep; eauto.
    + eapply Hstep; eauto.
Qed.

Lemma mapM_Forall2 {A B : Type} (f : A -> outcome B) :
  forall (l : list A) (l' : list B),
    mapM f l = Done l' -> Forall2 (fun a b => f a = Done b) l l'.
Proof.
  induction l as [|a rest IH]; simpl; intros l' H.
  - injection H as <-. constructor.
  - apply bind_Done in H as (b & Hb & H).
    apply bind_Done in H as (bs & Hbs & H).
    injection H as <-. constructor; auto.
Qed.

Lemma Forall2_In_r {A B : Type} (R : A -> B -> Prop) :
  forall (l : list A) (l' : list B) (b : B),
    Forall2 R l l' -> In b l' -> exists a, In a l /\ R a b.
Proof.
  intros l l' b H. induction H as [|x y l l' Hxy _ IH]; simpl; intros Hin.
  - contradiction.
  - destruct Hin as [<- | Hin].
    + exists x; auto.
    + destruct (IH Hin) as (a & Ha & HR). exists a; auto.
Qed.

Lemma find_In {A : Type} (p : A -> bool) (l : list A) (x : A) :
  find p l = Some x -> In x l /\ p x = true.
Proof. apply find_some. Qed.

Lemma findContract_name (contracts : list ContractRecord) (n : string) (c : ContractRecord) :
  findContract contracts n = Some c -> In c contracts /\ contractName c = Some n.
Proof.
  unfold findContract. intros H. apply find_some in H as [Hin Hp].
  split; [exact Hin|].
  destruct (contractName c) as [m|]; simpl in Hp; [|discriminate].
  apply String.eqb_eq in Hp. now subst.
Qed.

Lemma findMethod_name (info : ContractRecord) (call : CallRef) (m : MethodRecord) :
  findMethod info call = Some m ->
  In m (methodCalls info) /\ name call = Some (functionName m).
Proof.
  unfold findMethod. intros H. apply find_some in H as [Hin Hp].
  split; [exact Hin|].
  destruct (name call) as [f|]; simpl in Hp; [|discriminate].
  apply String.eqb_eq in Hp. now subst.
Qed.

(** The identifier built on a local hit starts with the contract and the
    callee; every argument appends nothing or one ":"-led segment. *)
Lemma argSegment_cases (variableTypeMap : VariableTypeMap) (p : Node) (s : string) :
  argSegment variableTypeMap p = Done s -> s = "" \/ exists t, s = ":" ++ t.
Proof.
  unfold argSegment.
  destruct (String.eqb (node_type p) "Identifier").
  - intros H. apply bind_Done in H as (argType & _ & H). injection H as <-.
    right. exists (js_str argType). reflexivity.
  - destruct (String.eqb (node_type p) "MemberAccess"); intros H; injection H as <-;
      [|left; reflexivity].
    destruct (opt_str_eqb (node_memberName p) (Some "sender"));
      [right; exists "address"; reflexivity|].
    destruct (opt_str_eqb (node_memberName p) (Some "value"));
      [right; exists "uint256"; reflexivity | left; reflexivity].
Qed.

(** What the arguments append does not depend on what they are appended
    to. *)
Lemma forEach_argSegment (variableTypeMap : VariableTypeMap) :
  forall (l : list Node) (acc : string),
    forEach (fun functionDefinition p =>
               segment <- argSegment variableTypeMap p ;;
               Done (functionDefinition ++ segment)) l acc
    = (segs <- argSegments variableTypeMap l ;; Done (acc ++ segs)).
Proof.
  unfold argSegments.
  induction l as [|p l IH]; intros acc; simpl.
  - now rewrite append_empty_r.
  - destruct (argSegment variableTypeMap p) as [seg| |]; simpl; try reflexivity.
    rewrite IH, (IH seg).
    destruct (forEach _ l "") as [segs| |]; simpl; try reflexivity.
    now rewrite append_assoc.
Qed.

Lemma localDefinition_segments (info : ContractRecord)
    (variableTypeMap : VariableTypeMap) (call : CallRef) :
  localDefinition info variableTypeMap call
  = (segs <- argSegments variableTypeMap (args call) ;;
     Done (js_str (contractName info) ++ ":" ++ js_str (name call) ++ segs)).
Proof.
  unfold localDefinition. rewrite forEach_argSegment.
  destruct (argSegments variableTypeMap (args call)); simpl; try reflexivity.
  now rewrite !append_assoc.
Qed.

Lemma argSegments_form (variableTypeMap : VariableTypeMap) :
  forall (l : list Node) (segs : string),
    argSegments variableTypeMap l = Done segs -> exists tys, segs = segments tys.
Proof.
  unfold argSegments.
  induction l as [|p l IH]; simpl; intros segs H.
  - injection H as <-. exists []; reflexivity.
  - apply bind_Done in H as (acc & Hp & H).
    apply bind_Done in Hp as (seg & Hseg & Hacc). injection Hacc as <-.
    simpl in H. rewrite forEach_argSegment in H.
    apply bind_Done in H as (rest & Hrest & H). injection H as <-.
    destruct (IH rest Hrest) as (tys & ->).
    destruct (argSegment_cases _ _ Hseg) as [-> | (t & ->)].
    + exists tys; reflexivity.
    + exists (t :: tys). simpl. reflexivity.
Qed.

Lemma localDefinition_form (info : ContractRecord) (variableTypeMap : VariableTypeMap)
    (call : CallRef) (s : string) :
  localDefinition info variableTypeMap call = Done s ->
  exists tys,
    s = js_str (contractName info) ++ ":" ++ js_str (name call) ++ segments tys.
Proof.
  rewrite localDefinition_segments. intros H.
  apply bind_Done in H as (segs & Hsegs & H). injection H as <-.
  destruct (argSegments_form _ _ Hsegs) as (tys & ->).
  exists tys. reflexivity.
Qed.

(** ** The resolver *)

(** One unfolding of the recursion when the callee is not local. *)
Lemma findAndRenameCall_miss (fuel : nat) (cs : list ContractRecord)
    (contractRoot info : ContractRecord) (variableTypeMap : VariableTypeMap)
    (call : CallRef) :
  findMethod info call = None ->
  findAndRenameCall (S fuel) (Some cs) contractRoot (Some info) variableTypeMap call
  = (foundResult <-
       forEach (fun foundResult extending =>
                  result <- findAndRenameCall fuel (Some cs) contractRoot
                              (findContract cs extending) variableTypeMap call ;;
                  Done (overwrite foundResult result))
               (extendsContracts info) None ;;
     match foundResult with
     | Some _ => Done foundResult
     | None =>
         forEach (fun foundResult importContract =>
                    if negb (includes (extendsContracts info)
                                      (Some (Path.parse_name importContract)))
                    then
                      result <- findAndRenameCall fuel (Some cs) contractRoot
                                  (findContract cs (Path.parse_name importContract))
                                  variableTypeMap call ;;
                      Done (overwrite foundResult result)
                    else Done foundResult)
                 (importList info) foundResult
     end).
Proof.
  intros Hmiss. simpl. rewrite Hmiss. reflexivity.
Qed.

(** On a local hit the result is the identifier built in the current
    record, or the exception of that build: at recursion depth one,
    whatever the universe, the bases and the imports are. *)
Lemma findAndRenameCall_hit (fuel : nat) (contracts : list ContractRecord)
    (contractRoot info : ContractRecord) (variableTypeMap : VariableTypeMap)
    (call : CallRef) (m : MethodRecord) :
  findMethod info call = Some m ->
  findAndRenameCall (S fuel) (Some contracts) contractRoot (Some info) variableTypeMap call
  = (functionDefinition <- localDefinition info variableTypeMap call ;;
     Done (Some functionDefinition)).
Proof.
  intros Hhit. simpl. rewrite Hhit. reflexivity.
Qed.

(** When the types of the arguments can be read, a local hit returns the
    identifier of the current record: its name, the callee, the segments. *)
Lemma findAndRenameCall_hit_typed (fuel : nat) (contracts : list ContractRecord)
    (contractRoot info : ContractRecord) (variableTypeMap : VariableTypeMap)
    (call : CallRef) (m : MethodRecord) (segs : string) :
  findMethod info call = Some m ->
  argSegments variableTypeMap (args call) = Done segs ->
  findAndRenameCall (S fuel) (Some contracts) contractRoot (Some info) variableTypeMap call
  = Done (Some (js_str (contractName info) ++ ":" ++ functionName m ++ segs)).
Proof.
  intros Hhit Hsegs.
  rewrite (findAndRenameCall_hit _ _ _ _ _ _ Hhit), localDefinition_segments, Hsegs.
  apply findMethod_name in Hhit as [_ ->]. reflexivity.
Qed.

(** On a registry in which every declaration has a type name, the types
    of the arguments can be read. *)
Lemma lookupArgType_typed (variableTypeMap : VariableTypeMap) (pname : option string) :
  typed_registry variableTypeMap ->
  exists argType, lookupArgType variableTypeMap pname = Done argType.
Proof.
  unfold typed_registry, lookupArgType, registry_entries.
  generalize (@None string) as acc.
  induction variableTypeMap as [|valueVar rest IH]; intros acc Htyped; simpl.
  - eauto.
  - destruct (@forEach_total _ _
                (fun argType (kv : option string * VariableDeclaration) =>
                   if key_is (fst kv) pname && negb (is_defined argType)
                   then declaredType (snd kv) else Done argType)
                (snd valueVar) acc) as (argType & ->).
    + intros argType kv Hkv.
      destruct (key_is (fst kv) pname && negb (is_defined argType)); [|eauto].
      unfold declaredType.
      destruct (typeName (snd kv)) as [t|] eqn:Ht; [eauto|].
      exfalso. apply (Htyped kv); [|exact Ht].
      simpl. apply in_or_app. now left.
    + simpl. apply IH. intros kv Hkv. apply Htyped. simpl. apply in_or_app. now right.
Qed.

Lemma argSegments_typed (variableTypeMap : VariableTypeMap) (arguments : list Node) :
  typed_registry variableTypeMap ->
  exists segs, argSegments variableTypeMap arguments = Done segs.
Proof.
  intros Htyped. unfold argSegments. apply forEach_total.
  intros segs p _. unfold argSegment.
  destruct (String.eqb (node_type p) "Identifier").
  - destruct (lookupArgType_typed (node_name p) Htyped) as (argType & ->).
    simpl. eauto.
  - destruct (String.eqb (node_type p) "MemberAccess"); simpl; eauto.
Qed.

(** The read of [value.typeName.name] for the argument [a] of [g(a)]
    throws: [a] is declared by [var (a, b) = h()]. *)
Lemma argSegments_untyped :
  argSegments Samples.registryV [Identifier "a"] = Throw TypeError
  /\ argSegments Samples.registryDerived [Identifier "a"] = Throw TypeError.
Proof. split; reflexivity. Qed.

(** On a registry in which every declaration has a type name, a local hit
    returns the identifier of the current record. *)
Lemma local_shadowing_typed (fuel : nat) (contracts : list ContractRecord)
    (contractRoot contractInfo : ContractRecord) (variableTypeMap : VariableTypeMap)
    (call : CallRef) (m : MethodRecord) :
  typed_registry variableTypeMap ->
  findMethod contractInfo call = Some m ->
  exists tys,
    findAndRenameCall (S fuel) (Some contracts) contractRoot (Some contractInfo)
                      variableTypeMap call
    = Done (Some (js_str (contractName contractInfo) ++ ":" ++ functionName m
                  ++ segments tys)).
Proof.
  intros Htyped Hhit.
  destruct (argSegments_typed (args call) Htyped) as (segs & Hsegs).
  destruct (argSegments_form _ _ Hsegs) as (tys & ->).
  exists tys. now apply findAndRenameCall_hit_typed.
Qed.

(** C3 (local shadowing).  When the current contract record defines a
    function with the callee's name, the resolver builds the identifier in
    the current record, at recursion depth one, for every universe and
    whatever the record's [extendsContracts] and [importList] are: neither
    an ancestor nor an import is looked at; and when every declaration of
    the registry has a type name it returns that identifier.  But the
    build does not always return.  VarTuple.sol declares [a] by
    [var (a, b) = h()] and calls [g(a)], with [g] defined in the same
    contract: profiling registers [a] with a [typeName] that is [null],
    the resolver reads [value.typeName.name] of it and throws, and
    [parsing] of VarTuple.sol ends in that exception.  With [a] declared
    as [uint256 a] the same call resolves to [V:g:uint256]. *)
Theorem C3_local_hit_throws_on_untyped_argument :
  forall fuel : nat,
    (forall (contracts : list ContractRecord) (contractRoot contractInfo : ContractRecord)
            (variableTypeMap : VariableTypeMap) (call : CallRef) (m : MethodRecord),
        findMethod contractInfo call = Some m ->
        findAndRenameCall (S fuel) (Some contracts) contractRoot (Some contractInfo)
                          variableTypeMap call
        = (functionDefinition <- localDefinition contractInfo variableTypeMap call ;;
           Done (Some functionDefinition))
        /\ (typed_registry variableTypeMap ->
            exists tys,
              findAndRenameCall (S fuel) (Some contracts) contractRoot (Some contractInfo)
                                variableTypeMap call
              = Done (Some (js_str (contractName contractInfo) ++ ":" ++ functionName m
                            ++ segments tys))))
    /\ profileData (S fuel) Samples.varTuple "/c/VarTuple.sol" (mkProfileState [] [] [] [])
       = Done (mkProfileState [] [] ["V"] Samples.registryV)
    /\ processData (S fuel) Samples.varTuple (Some "/c/VarTuple.sol") [] [] ["V"]
       = Done ([Samples.recV], [])
    /\ findMethod Samples.recV Samples.call_g_a = Some (mkMethodRecord "g" "V:g:uint256" [])
    /\ findAndRenameCall (S fuel) (Some [Samples.recV]) Samples.recV (Some Samples.recV)
         Samples.registryV Samples.call_g_a
       = Throw TypeError
    /\ findAndRenameCall (S fuel) (Some [Samples.recV]) Samples.recV (Some Samples.recV)
         [("V", [(Some "a", Samples.variable "a" Samples.uint256)])] Samples.call_g_a
       = Done (Some "V:g:uint256")
    /\ parsing (S fuel) Samples.varTuple ["/c/VarTuple.sol"] = Throw TypeError.
Proof.
  intros fuel. split.
  { intros contracts contractRoot contractInfo variableTypeMap call m Hhit. split.
    - now apply findAndRenameCall_hit with (m := m).
    - intros Htyped. now apply local_shadowing_typed. }
  split; [reflexivity|]. split; [reflexivity|]. split; [reflexivity|].
  split; [reflexivity|]. split; [reflexivity|].
  vm_compute. reflexivity.
Qed.

(** Among the ancestors, the result of a later one replaces the result of
    an earlier one: if [B] resolves the call and no ancestor after [B]
    does, the scan over [before ++ B :: after] ends with [B]'s result. *)
Lemma ancestors_last_wins (fuel : nat) (cs : list ContractRecord)
    (contractRoot : ContractRecord) (variableTypeMap : VariableTypeMap)
    (call : CallRef) (B : string) (s : string) :
  findAndRenameCall fuel (Some cs) contractRoot (findContract cs B) variableTypeMap call
  = Done (Some s) ->
  forall (after : list string),
    Forall (fun e => findAndRenameCall fuel (Some cs) contractRoot (findContract cs e)
                       variableTypeMap call = Done None) after ->
    forall (before : list string) (acc : option string),
      Forall (fun e => exists r, findAndRenameCall fuel (Some cs) contractRoot
                                   (findContract cs e) variableTypeMap call = Done r)
             before ->
      forEach (fun foundResult extending =>
                 result <- findAndRenameCall fuel (Some cs) contractRoot
                             (findContract cs extending) variableTypeMap call ;;
                 Done (overwrite foundResult result))
              (before ++ B :: after)%list acc
      = Done (Some s).
Proof.
  intros HB after Hafter.
  assert (Htail :
            forEach (fun foundResult extending =>
                 result <- findAndRenameCall fuel (Some cs) contractRoot
                             (findContract cs extending) variableTypeMap call ;;
                 Done (overwrite foundResult result)) after (Some s) = Done (Some s)).
  { induction Hafter as [|e after He _ IH]; simpl; [reflexivity|].
    rewrite He. simpl. exact IH. }
  induction before as [|e before IH]; intros acc Hbefore; simpl.
  - rewrite HB. simpl. exact Htail.
  - inversion Hbefore as [|? ? (r & Hr) Hrest]; subst.
    rewrite Hr. simpl. apply IH. exact Hrest.
Qed.

(** With bases [A, B] that both define the callee, which the current
    record does not define, the result is the identifier built in [B], or
    the exception of that build; it is never the identifier of [A]. *)
Lemma last_of_two_ancestors (fuel : nat) (contracts : list ContractRecord)
    (contractRoot Child : ContractRecord) (variableTypeMap : VariableTypeMap)
    (call : CallRef) (A B : string) (recA recB : ContractRecord)
    (fA fB : MethodRecord) :
  extendsContracts Child = [A; B] ->
  findMethod Child call = None ->
  findContract contracts A = Some recA -> findMethod recA call = Some fA ->
  findContract contracts B = Some recB -> findMethod recB call = Some fB ->
  findAndRenameCall (S (S fuel)) (Some contracts) contractRoot (Some Child)
                    variableTypeMap call
  = (functionDefinition <- localDefinition recB variableTypeMap call ;;
     Done (Some functionDefinition)).
Proof.
  intros Hext Hmiss HA HfA HB HfB.
  rewrite findAndRenameCall_miss by exact Hmiss.
  rewrite Hext. cbn [forEach]. rewrite HA, HB.
  rewrite (findAndRenameCall_hit _ _ _ _ _ _ HfA), (findAndRenameCall_hit _ _ _ _ _ _ HfB).
  rewrite !localDefinition_segments.
  destruct (argSegments variableTypeMap (args call)); reflexivity.
Qed.

(** When every declaration of the registry has a type name, the result is
    the identifier of [B]. *)
Lemma last_ancestor_wins_typed (fuel : nat) (contracts : list ContractRecord)
    (contractRoot Child : ContractRecord) (variableTypeMap : VariableTypeMap)
    (call : CallRef) (A B : string) (recA recB : ContractRecord)
    (fA fB : MethodRecord) :
  typed_registry variableTypeMap ->
  extendsContracts Child = [A; B] ->
  findMethod Child call = None ->
  findContract contracts A = Some recA -> findMethod recA call = Some fA ->
  findContract contracts B = Some recB -> findMethod recB call = Some fB ->
  exists tys,
    findAndRenameCall (S (S fuel)) (Some contracts) contractRoot (Some Child)
                      variableTypeMap call
    = Done (Some (B ++ ":" ++ functionName fB ++ segments tys)).
Proof.
  intros Htyped Hext Hmiss HA HfA HB HfB.
  rewrite (@last_of_two_ancestors fuel contracts contractRoot Child variableTypeMap
             call A B recA recB fA fB Hext Hmiss HA HfA HB HfB).
  destruct (argSegments_typed (args call) Htyped) as (segs & Hsegs).
  destruct (argSegments_form _ _ Hsegs) as (tys & ->).
  exists tys. rewrite localDefinition_segments, Hsegs. simpl.
  apply findContract_name in HB as [_ ->].
  apply findMethod_name in HfB as [_ ->]. reflexivity.
Qed.

(** C2 (ancestor precedence).  [Child] extends [A, B] in this order, the
    universe holds a record for each, both define the callee and [Child]
    does not: the resolver builds the identifier in [A], then in [B], and
    keeps [B]'s; when every declaration of the registry has a type name it
    returns [B]'s.  But neither build returns for the call [f(a)] of
    Child.sol, where [a] is declared by [var (a, b) = h()]: profiling
    registers [a] with a [typeName] that is [null], the resolver reads
    [value.typeName.name] of it and throws, and [parsing] of Child.sol ends
    in that exception.  With [a] declared as [uint256 a] the same call
    resolves to [B:f:uint256]. *)
Theorem C2_ancestors_throw_on_untyped_argument :
  forall fuel : nat,
    (forall (contracts : list ContractRecord) (contractRoot Child : ContractRecord)
            (variableTypeMap : VariableTypeMap) (call : CallRef) (A B : string)
            (recA recB : ContractRecord) (fA fB : MethodRecord),
        extendsContracts Child = [A; B] ->
        findMethod Child call = None ->
        findContract contracts A = Some recA -> findMethod recA call = Some fA ->
        findContract contracts B = Some recB -> findMethod recB call = Some fB ->
        findAndRenameCall (S (S fuel)) (Some contracts) contractRoot (Some Child)
                          variableTypeMap call
        = (functionDefinition <- localDefinition recB variableTypeMap call ;;
           Done (Some functionDefinition))
        /\ (typed_registry variableTypeMap ->
            exists tys,
              findAndRenameCall (S (S fuel)) (Some contracts) contractRoot (Some Child)
                                variableTypeMap call
              = Done (Some (B ++ ":" ++ functionName fB ++ segments tys))))
    /\ profileData (S (S fuel)) Samples.derived "/d/Child.sol" (mkProfileState [] [] [] [])
       = Done (mkProfileState ["/d/A.sol"; "/d/B.sol"] [] ["A"; "B"; "Child"]
                              Samples.registryDerived)
    /\ processData (S (S fuel)) Samples.derived (Some "/d/Child.sol") [] []
         ["A"; "B"; "Child"]
       = Done ([Samples.definesF "A"; Samples.definesF "B"; Samples.recDerived],
               [Some "/d/A.sol"; Some "/d/B.sol"])
    /\ extendsContracts Samples.recDerived = ["A"; "B"]
    /\ findMethod Samples.recDerived Samples.call_f_a = None
    /\ findMethod (Samples.definesF "A") Samples.call_f_a
       = Some (mkMethodRecord "f" "A:f:uint256" [])
    /\ findMethod (Samples.definesF "B") Samples.call_f_a
       = Some (mkMethodRecord "f" "B:f:uint256" [])
    /\ findAndRenameCall (S (S fuel))
         (Some [Samples.definesF "A"; Samples.definesF "B"; Samples.recDerived])
         Samples.recDerived (Some Samples.recDerived)
         Samples.registryDerived Samples.call_f_a
       = Throw TypeError
    /\ findAndRenameCall (S (S fuel))
         (Some [Samples.definesF "A"; Samples.definesF "B"; Samples.recDerived])
         Samples.recDerived (Some Samples.recDerived)
         [("Child", [(Some "a", Samples.variable "a" Samples.uint256)])] Samples.call_f_a
       = Done (Some "B:f:uint256")
    /\ parsing (S (S fuel)) Samples.derived ["/d/Child.sol"] = Throw TypeError.
Proof.
  intros fuel. split.
  { intros contracts contractRoot Child variableTypeMap call A B recA recB fA fB
           Hext Hmiss HA HfA HB HfB. split.
    - now apply (@last_of_two_ancestors fuel contracts contractRoot Child
                   variableTypeMap call A B recA recB fA fB).
    - intros Htyped.
      now apply (@last_ancestor_wins_typed fuel contracts contractRoot Child
                   variableTypeMap call A B recA recB fA fB). }
  split; [vm_compute; reflexivity|]. split; [vm_compute; reflexivity|].
  split; [reflexivity|]. split; [reflexivity|].
  split; [reflexivity|]. split; [reflexivity|].
  split; [vm_compute; reflexivity|]. split; [vm_compute; reflexivity|].
  vm_compute. reflexivity.
Qed.

(** The resolver on an absent universe. *)
Lemma findAndRenameCall_no_universe (fuel : nat) (contractRoot : ContractRecord)
    (contractInfo : option ContractRecord) (variableTypeMap : VariableTypeMap)
    (call : CallRef) :
  findAndRenameCall (S fuel) None contractRoot contractInfo variableTypeMap call
  = Done None.
Proof. reflexivity. Qed.

(** The resolver on an absent contract record in a present universe. *)
Lemma findAndRenameCall_no_record (fuel : nat) (contracts : list ContractRecord)
    (contractRoot : ContractRecord) (variableTypeMap : VariableTypeMap)
    (call : CallRef) :
  findAndRenameCall (S fuel) (Some contracts) contractRoot None variableTypeMap call
  = Throw TypeError.
Proof. reflexivity. Qed.

(** Extraction of Wallet.sol gives the universe used below. *)
Lemma processData_misnamed :
  processData 2 Samples.misnamed (Some "/c/Wallet.sol") [] [] ["SafeMathLib"; "Wallet"]
  = Done ([Samples.recSafeMathLib; Samples.recWallet], [Some "/c/SafeMath.sol"]).
Proof. vm_compute. reflexivity. Qed.

(** C10 (absent contract record).  Wallet.sol imports SafeMath.sol, which
    defines [SafeMathLib]; the name taken from the import path,
    "SafeMath", has no record in the universe.  Resolving a call that
    [Wallet] does not define reaches [contractInfo.methodCalls] on
    [undefined] and throws, at every recursion depth from two on, whereas
    an absent universe gives [undefined]; [parsing] of Wallet.sol ends in
    that exception. *)
Theorem C10_absent_record_throws :
  forall fuel : nat,
    findContract [Samples.recSafeMathLib; Samples.recWallet]
                 (Path.parse_name "/c/SafeMath.sol") = None
    /\ findAndRenameCall (S (S fuel)) (Some [Samples.recSafeMathLib; Samples.recWallet])
         Samples.recWallet (Some Samples.recWallet) [] Samples.call_check
       = Throw TypeError
    /\ findAndRenameCall (S (S fuel)) None
         Samples.recWallet (Some Samples.recWallet) [] Samples.call_check
       = Done None
    /\ parsing (S (S fuel)) Samples.misnamed ["/c/Wallet.sol"] = Throw TypeError.
Proof.
  intros fuel. split; [reflexivity|]. split; [|split; [reflexivity|]].
  - rewrite findAndRenameCall_miss by reflexivity.
    reflexivity.
  - vm_compute. reflexivity.
Qed.

(** In the universe extracted from two files that import each other, a
    call no contract defines is looked for in A, then B, then A, ... *)
Lemma cyclic_resolution_exhausts (contractRoot : ContractRecord)
    (variableTypeMap : VariableTypeMap) (call : CallRef) :
  findMethod Samples.recA call = None ->
  findMethod Samples.recB call = None ->
  forall fuel : nat,
    findAndRenameCall fuel (Some [Samples.recA; Samples.recB; Samples.recA])
      contractRoot (Some Samples.recA) variableTypeMap call = OutOfFuel
    /\ findAndRenameCall fuel (Some [Samples.recA; Samples.recB; Samples.recA])
         contractRoot (Some Samples.recB) variableTypeMap call = OutOfFuel.
Proof.
  intros HA HB. induction fuel as [|fuel [IHA IHB]]; [split; reflexivity|].
  split.
  - rewrite findAndRenameCall_miss by exact HA.
    cbn [Samples.recA extendsContracts importList forEach bind].
    change (findContract _ (Path.parse_name "/c/B.sol")) with (Some Samples.recB).
    cbn [includes existsb negb]. rewrite IHB. reflexivity.
  - rewrite findAndRenameCall_miss by exact HB.
    cbn [Samples.recB extendsContracts importList forEach bind].
    change (findContract _ (Path.parse_name "/c/A.sol")) with (Some Samples.recA).
    cbn [includes existsb negb]. rewrite IHA. reflexivity.
Qed.

Lemma renameContract_cyclic (fuel : nat) (variableTypeMap : VariableTypeMap) :
  renameContract fuel [Samples.recA; Samples.recB; Samples.recA] variableTypeMap
                 Samples.recA
  = OutOfFuel.
Proof.
  unfold renameContract.
  change (methodCalls Samples.recA)
    with [mkMethodRecord "foo" "A:foo" [Samples.call_keccak; mkCallRef (Some "bar") []]].
  cbn [mapM]. unfold renameMethod at 1. cbn [callMethods mapM].
  unfold renameCall at 1.
  rewrite (proj1 (@cyclic_resolution_exhausts Samples.recA variableTypeMap
                    Samples.call_keccak eq_refl eq_refl fuel)).
  reflexivity.
Qed.

(** C5 (termination on an unresolvable call).  In the universe extracted
    from A.sol and B.sol, which import each other, no contract defines
    [keccak256]; the resolver started in [A] does not return for any bound
    on the depth of its recursion, and so [parsing] of A.sol does not
    return either. *)
Theorem C5_cyclic_imports_never_return :
  forall (fuel : nat) (variableTypeMap : VariableTypeMap),
    (forall c, In c [Samples.recA; Samples.recB; Samples.recA] ->
               findMethod c Samples.call_keccak = None)
    /\ findAndRenameCall fuel (Some [Samples.recA; Samples.recB; Samples.recA])
         Samples.recA (Some Samples.recA) variableTypeMap Samples.call_keccak
       = OutOfFuel
    /\ parsing fuel Samples.cyclic ["/c/A.sol"] = OutOfFuel.
Proof.
  intros fuel variableTypeMap. split; [|split].
  - intros c [<- | [<- | [<- | []]]]; reflexivity.
  - apply (@cyclic_resolution_exhausts Samples.recA variableTypeMap
             Samples.call_keccak eq_refl eq_refl fuel).
  - destruct fuel as [|[|[|n]]]; try reflexivity.
    unfold parsing. cbn [forEach].
    replace (profileData (S (S (S n))) Samples.cyclic "/c/A.sol"
               (mkProfileState [] [] [] []))
      with (Done (mkProfileState ["/c/B.sol"; "/c/A.sol"] [] ["A"; "B"; "A"]
                                 [("A", []); ("B", [])]))
      by (vm_compute; reflexivity).
    cbn [bind pf_ignoresList pf_contractsList pf_variableType].
    replace (processData (S (S (S n))) Samples.cyclic (Some "/c/A.sol") [] []
               ["A"; "B"; "A"])
      with (Done ([Samples.recA; Samples.recB; Samples.recA],
                  [Some "/c/B.sol"; Some "/c/A.sol"]))
      by (vm_compute; reflexivity).
    cbn [bind app]. unfold renameToSymLinks. cbn [mapM contract].
    rewrite renameContract_cyclic. reflexivity.
Qed.

(** ** The call visitor *)

(** When the [FunctionCall] handler records a call: the callee differs
    from the function's own name, and the body has more than one
    statement, and the callee is countable. *)
Lemma visitFunctionCall_records_iff (contractsList ignoresList : list string)
    (fDef : FunctionDefinition) (callMethods : list CallRef)
    (expression : Node) (arguments : list Node) :
  visitFunctionCall contractsList ignoresList fDef callMethods expression arguments
  = (callMethods ++ [mkCallRef (node_name expression) arguments])%list
  <-> (node_name expression <> Some (fd_name fDef)
       /\ 1 < statements_length fDef
       /\ isCountableStatement expression contractsList ignoresList = true).
Proof.
  unfold visitFunctionCall.
  destruct (negb (str_eq_opt (fd_name fDef) (node_name expression))) eqn:Hname;
  destruct (Nat.ltb 1 (statements_length fDef)) eqn:Hlen;
  destruct (isCountableStatement expression contractsList ignoresList) eqn:Hcount;
  simpl; split;
  try (intros Heq; exfalso;
       apply (f_equal (@List.length CallRef)) in Heq;
       rewrite length_app in Heq; simpl in Heq; lia);
  try (intros (Hn & Hl & Hc); exfalso;
       first [ discriminate Hc
             | apply Nat.ltb_ge in Hlen; lia
             | apply negb_false_iff in Hname;
               destruct (node_name expression) as [x|]; simpl in Hname;
               [apply String.eqb_eq in Hname; subst; now apply Hn | discriminate] ]).
  - intros _. repeat split.
    + intros Heq. rewrite Heq in Hname. simpl in Hname.
      rewrite String.eqb_refl in Hname. discriminate.
    + now apply Nat.ltb_lt.
  - reflexivity.
Qed.

(** Otherwise the handler leaves [callMethods] as it is. *)
Lemma visitFunctionCall_skips (contractsList ignoresList : list string)
    (fDef : FunctionDefinition) (callMethods : list CallRef)
    (expression : Node) (arguments : list Node) :
  node_name expression = Some (fd_name fDef) \/ statements_length fDef <= 1 ->
  visitFunctionCall contractsList ignoresList fDef callMethods expression arguments
  = callMethods.
Proof.
  unfold visitFunctionCall. intros [Hname | Hlen].
  - rewrite Hname. simpl. rewrite String.eqb_refl. reflexivity.
  - apply Nat.ltb_ge in Hlen. rewrite Hlen, andb_false_r. reflexivity.
Qed.

(** A call the [FunctionCall] handler adds is not in [ignoresList]. *)
Lemma visitFunctionCall_not_ignored (contractsList ignoresList : list string)
    (fDef : FunctionDefinition) (callMethods : list CallRef)
    (expression : Node) (arguments : list Node) (c : CallRef) :
  In c (visitFunctionCall contractsList ignoresList fDef callMethods expression arguments) ->
  In c callMethods \/ includes ignoresList (name c) = false.
Proof.
  unfold visitFunctionCall.
  destruct (negb (str_eq_opt (fd_name fDef) (node_name expression))
            && Nat.ltb 1 (statements_length fDef)
            && isCountableStatement expression contractsList ignoresList) eqn:Hcond;
    [|now left].
  intros Hin. apply in_app_or in Hin as [Hin | [<- | []]]; [now left|].
  right. simpl.
  apply andb_true_iff in Hcond as [_ Hcount].
  unfold isCountableStatement in Hcount.
  repeat (apply andb_true_iff in Hcount as [Hcount ?]).
  now apply negb_true_iff.
Qed.

(** C1 (direct calls).  [function hello() { greet(); }]: the callee is
    countable and is not the function's own name, and yet nothing is
    recorded, because the body has one statement.
    [function count() { step(); count(); }]: the body has two statements,
    and yet the call of [count] is not recorded; [step] is. *)
Theorem C1_guard_is_a_conjunction :
  (isCountableStatement (Identifier "greet") [] [] = true
   /\ fd_name Samples.hello <> "greet"
   /\ statements_length Samples.hello = 1
   /\ visitFunction [] [] Samples.hello = [])
  /\ (isCountableStatement (Identifier "count") [] [] = true
      /\ statements_length Samples.count = 2
      /\ visitFunction [] [] Samples.count = [mkCallRef (Some "step") []]).
Proof.
  repeat split; try reflexivity. discriminate.
Qed.

(** The member-access handler never looks at [ignoresList]: what it
    records depends on [contractsList] and the node only. *)
Lemma parserFunctionVisitor_member_ignores (contractsList ignoresList ignoresList' : list string)
    (fDef : FunctionDefinition) (callMethods : list CallRef)
    (expression : Node) (memberName : string) :
  parserFunctionVisitor contractsList ignoresList fDef callMethods
                        (MemberAccess expression memberName)
  = parserFunctionVisitor contractsList ignoresList' fDef callMethods
                          (MemberAccess expression memberName).
Proof. reflexivity. Qed.

(** C7 (ignore propagation).  Main.sol calls the struct [Lib.Point] of the
    library it imports.  Profiling puts [Point] in [ignoresList] and [Lib]
    in [contractsList]; extraction with these lists records a call named
    [Point] for [Main:pay], through the member-access handler. *)
Theorem C7_member_access_records_ignored_name :
  forall fuel : nat,
    exists (sh : ProfileState) (recLib recMain : ContractRecord)
           (visited : list (option string)) (m : MethodRecord),
      profileData (S (S fuel)) Samples.library "/c/Main.sol" (mkProfileState [] [] [] [])
      = Done sh
      /\ includes (pf_ignoresList sh) (Some "Point") = true
      /\ processData (S (S fuel)) Samples.library (Some "/c/Main.sol") []
           (pf_ignoresList sh) (pf_contractsList sh)
         = Done ([recLib; recMain], visited)
      /\ methodCalls recMain = [m]
      /\ functionDefinition m = "Main:pay"
      /\ In (mkCallRef (Some "Point") []) (callMethods m).
Proof.
  intros fuel.
  eexists. eexists. eexists. eexists. eexists.
  split; [vm_compute; reflexivity|].
  split; [reflexivity|].
  split; [vm_compute; reflexivity|].
  split; [reflexivity|].
  split; [reflexivity|].
  simpl. auto.
Qed.

(** C4 (cycle safety).  A.sol and B.sol import each other.  Extraction of
    A.sol starts with an empty visited list, so the import of A.sol in
    B.sol is followed: the call returns, and the array it returns holds
    the record of [A] twice. *)
Theorem C4_cyclic_import_duplicates_entry :
  forall fuel : nat,
    (exists sh,
        profileData (S (S (S fuel))) Samples.cyclic "/c/A.sol" (mkProfileState [] [] [] [])
        = Done sh
        /\ pf_ignoresList sh = [] /\ pf_contractsList sh = ["A"; "B"; "A"])
    /\ processData (S (S (S fuel))) Samples.cyclic (Some "/c/A.sol") [] [] ["A"; "B"; "A"]
       = Done ([Samples.recA; Samples.recB; Samples.recA],
               [Some "/c/B.sol"; Some "/c/A.sol"])
    /\ List.length (filter (fun c => opt_str_eqb (contractName c) (Some "A"))
                            [Samples.recA; Samples.recB; Samples.recA]) = 2.
Proof.
  intros fuel. split; [|split].
  - eexists. split; [vm_compute; reflexivity|]. split; reflexivity.
  - vm_compute. reflexivity.
  - vm_compute. reflexivity.
Qed.

(** ** Argument segments *)

(** A member-access argument appends [:address] for [sender], [:uint256]
    for [value] and nothing otherwise. *)
Lemma argSegment_MemberAccess (variableTypeMap : VariableTypeMap)
    (expression : Node) (memberName : string) :
  argSegment variableTypeMap (MemberAccess expression memberName)
  = Done (if String.eqb memberName "sender" then ":address"
          else if String.eqb memberName "value" then ":uint256"
          else "").
Proof. reflexivity. Qed.

(** The segment of the last argument ends the identifier. *)
Lemma localDefinition_last_argument (info : ContractRecord)
    (variableTypeMap : VariableTypeMap) (callee : option string)
    (arguments : list Node) (p : Node) :
  localDefinition info variableTypeMap (mkCallRef callee (arguments ++ [p])%list)
  = (functionDefinition <- localDefinition info variableTypeMap (mkCallRef callee arguments) ;;
     segment <- argSegment variableTypeMap p ;;
     Done (functionDefinition ++ segment)).
Proof.
  unfold localDefinition. cbn [args name]. rewrite forEach_app.
  destruct (forEach _ arguments _) as [functionDefinition| |]; simpl; try reflexivity.
  destruct (argSegment variableTypeMap p); reflexivity.
Qed.

(** C6 (member-access arguments).  In the resolver a call of [transfer]
    with the argument [msg.value] gets [:uint256] as its last segment, and
    the handler of direct calls would record [transfer(msg.value)] with
    that argument.  But for the member-style call
    [Lib.transfer(msg.value)] of Main.sol the member-access handler
    records no arguments (it reads [arguments] of the receiver [Lib], not
    of the call), and linking resolves the call to [Lib:transfer], without
    a type segment. *)
Theorem C6_member_call_loses_arguments :
  forall fuel : nat,
    localDefinition Samples.recLib [] (mkCallRef (Some "transfer") [Samples.msg_value])
    = Done "Lib:transfer:uint256"
    /\ visitFunctionCall ["Lib"; "Main"] ["Point"] Samples.pay []
         (Identifier "transfer") [Samples.msg_value]
       = [mkCallRef (Some "transfer") [Samples.msg_value]]
    /\ visitMemberAccess ["Lib"; "Main"] [] (Identifier "Lib") "transfer"
       = [mkCallRef (Some "transfer") []]
    /\ parsing (S (S fuel)) Samples.library ["/c/Main.sol"] = Done Samples.linkedMain.
Proof.
  intros fuel. split; [reflexivity|]. split; [reflexivity|]. split; [reflexivity|].
  vm_compute. reflexivity.
Qed.

(** ** Linking *)

(** A string the resolver returns was built in a record of the universe
    that defines the callee. *)
Lemma findAndRenameCall_found (cs : list ContractRecord) (contractRoot : ContractRecord)
    (variableTypeMap : VariableTypeMap) (call : CallRef) :
  forall (fuel : nat) (contractInfo : option ContractRecord) (s : string),
    (forall info, contractInfo = Some info -> In info cs) ->
    findAndRenameCall fuel (Some cs) contractRoot contractInfo variableTypeMap call
    = Done (Some s) ->
    exists (c : ContractRecord) (m : MethodRecord),
      In c cs /\ findMethod c call = Some m
      /\ localDefinition c variableTypeMap call = Done s.
Proof.
  set (P := fun t : string =>
              exists (c : ContractRecord) (m : MethodRecord),
                In c cs /\ findMethod c call = Some m
                /\ localDefinition c variableTypeMap call = Done t).
  induction fuel as [|fuel IH]; intros contractInfo s Hin Hrun; [discriminate|].
  destruct contractInfo as [info|]; [|discriminate].
  specialize (Hin info eq_refl).
  destruct (findMethod info call) as [m|] eqn:Hfind.
  - rewrite (findAndRenameCall_hit _ _ _ _ _ _ Hfind) in Hrun.
    apply bind_Done in Hrun as (functionDefinition & Hbuild & Hrun).
    injection Hrun as <-. exists info, m. auto.
  - rewrite findAndRenameCall_miss in Hrun by exact Hfind.
    apply bind_Done in Hrun as (found & Hanc & Hrun).
    assert (Hfound : forall t, found = Some t -> P t).
    { revert Hanc.
      apply (forEach_invariant (fun acc => forall t, acc = Some t -> P t));
        [|discriminate].
      intros acc e acc' _ Hacc Hstep t Ht.
      apply bind_Done in Hstep as (r & Hr & Hstep). injection Hstep as <-.
      destruct r as [r|]; simpl in Ht.
      - injection Ht as <-. apply (IH _ _ (fun i Hi => proj1 (findContract_name _ _ Hi)) Hr).
      - now apply Hacc. }
    destruct found as [t|].
    + injection Hrun as <-. now apply Hfound.
    + assert (Hs : forall t, Some s = Some t -> P t);
        [|now apply Hs].
      eapply (forEach_invariant (fun acc => forall t, acc = Some t -> P t));
        [| |exact Hrun]; [|discriminate].
      intros acc e acc' _ Hacc Hstep t Ht. cbv beta in Hstep.
      destruct (negb _) in Hstep.
      * apply bind_Done in Hstep as (r & Hr & Hstep). injection Hstep as <-.
        destruct r as [r|]; simpl in Ht.
        -- injection Ht as <-.
           apply (IH _ _ (fun i Hi => proj1 (findContract_name _ _ Hi)) Hr).
        -- now apply Hacc.
      * injection Hstep as <-. now apply Hacc.
Qed.

(** Such a string names a contract of the universe and one of its
    functions, followed by type segments. *)
Lemma findAndRenameCall_form (cs : list ContractRecord) (contractRoot : ContractRecord)
    (variableTypeMap : VariableTypeMap) (call : CallRef) :
  forall (fuel : nat) (contractInfo : option ContractRecord) (s : string),
    (forall info, contractInfo = Some info -> In info cs) ->
    findAndRenameCall fuel (Some cs) contractRoot contractInfo variableTypeMap call
    = Done (Some s) ->
    resolvedForm cs s.
Proof.
  intros fuel contractInfo s Hin Hrun.
  destruct (@findAndRenameCall_found cs contractRoot variableTypeMap call
              fuel contractInfo s Hin Hrun) as (c & m & Hc & Hfind & Hbuild).
  destruct (localDefinition_form _ _ _ Hbuild) as (tys & Htys).
  apply findMethod_name in Hfind as [Hm Hname].
  exists c, m, tys. repeat split; auto.
  rewrite Htys, Hname. reflexivity.
Qed.

(** C8 (resolved identifiers).  When [renameToSymLinks] completes, every
    call of every function of every contract of every linked universe
    holds in [name] either [undefined], the unresolved marker, or a string
    [Contract:Function[:Type]*] whose contract is a record of that
    universe as extracted and whose function that record defines. *)
Theorem C8_linked_calls_resolved_or_unresolved :
  forall (fuel : nat) (allContractsData : list FileData)
         (variableTypeMap : VariableTypeMap) (linked : list FileData),
    renameToSymLinks fuel allContractsData variableTypeMap = Done linked ->
    forall (data' : FileData) (contractInfo' : ContractRecord)
           (method' : MethodRecord) (call' : CallRef),
      In data' linked ->
      In contractInfo' (contract data') ->
      In method' (methodCalls contractInfo') ->
      In call' (callMethods method') ->
      exists data : FileData,
        In data allContractsData /\ file data = file data'
        /\ (name call' = None
            \/ exists s, name call' = Some s /\ resolvedForm (contract data) s).
Proof.
  intros fuel allContractsData variableTypeMap linked Hlink
         data' contractInfo' method' call' Hdata Hcontract Hmethod Hcall.
  unfold renameToSymLinks in Hlink. apply mapM_Forall2 in Hlink.
  destruct (@Forall2_In_r _ _ _ _ _ _ Hlink Hdata) as (data & Hin & Hd).
  apply bind_Done in Hd as (cs & Hcs & Hd). injection Hd as <-.
  simpl in Hcontract. apply mapM_Forall2 in Hcs.
  destruct (@Forall2_In_r _ _ _ _ _ _ Hcs Hcontract) as (contractInfo & Hinfo & Hc).
  unfold renameContract in Hc.
  apply bind_Done in Hc as (methods & Hms & Hc). injection Hc as <-.
  simpl in Hmethod. apply mapM_Forall2 in Hms.
  destruct (@Forall2_In_r _ _ _ _ _ _ Hms Hmethod) as (method & _ & Hm).
  unfold renameMethod in Hm.
  apply bind_Done in Hm as (calls & Hcalls & Hm). injection Hm as <-.
  simpl in Hcall. apply mapM_Forall2 in Hcalls.
  destruct (@Forall2_In_r _ _ _ _ _ _ Hcalls Hcall) as (call & _ & Hr).
  unfold renameCall in Hr.
  apply bind_Done in Hr as (r & Hr & Hcall'). injection Hcall' as <-.
  exists data. split; [exact Hin|]. split; [reflexivity|].
  destruct r as [s|]; [right | now left].
  exists s. split; [reflexivity|].
  apply findAndRenameCall_form in Hr; [exact Hr|].
  intros info Heq. injection Heq as <-. exact Hinfo.
Qed.

(** Linking [Child] and its bases. *)
Lemma C8_linked_calls_resolved_or_unresolved_witness :
  renameToSymLinks 2 Samples.childData [] = Done Samples.linkedChildData
  /\ exists data : FileData,
       In data Samples.childData /\ file data = "/c/Child.sol"
       /\ (Some "B:f:address" = None
           \/ exists s, Some "B:f:address" = Some s /\ resolvedForm (contract data) s).
Proof.
  split; [reflexivity|].
  apply (@C8_linked_calls_resolved_or_unresolved 2 Samples.childData []
           Samples.linkedChildData eq_refl
           (mkFileData "/c/Child.sol" [Samples.baseA; Samples.baseB; Samples.linkedChild])
           Samples.linkedChild
           (mkMethodRecord "g" "Child:g" [mkCallRef (Some "B:f:address") [Samples.msg_sender]])
           (mkCallRef (Some "B:f:address") [Samples.msg_sender])).
  - simpl. left. reflexivity.
  - simpl. right. right. left. reflexivity.
  - simpl. left. reflexivity.
  - simpl. left. reflexivity.
Defined.

(** ** Profiling *)

Lemma string_key_eq (a b : string) : key_eqb a b = true <-> a = b.
Proof. apply String.eqb_eq. Qed.

Lemma name_key_eq (a b : option string) : key_eqb a b = true <-> a = b.
Proof. apply opt_str_eqb_true. Qed.

Section MapLaws.

Context {K V : Type} {key : JsKey K}.
Hypothesis key_eq : forall a b : K, key_eqb a b = true <-> a = b.

Lemma key_eqb_refl (k : K) : key_eqb k k = true.
Proof. now apply key_eq. Qed.

Lemma map_get_set_same (k : K) (v : V) (m : JsMap K V) :
  map_get k (map_set k v m) = Some v.
Proof.
  induction m as [|[k' v'] rest IH]; simpl.
  - now rewrite key_eqb_refl.
  - destruct (key_eqb k' k) eqn:Hk; simpl; rewrite Hk; [reflexivity | exact IH].
Qed.

Lemma map_get_set_other (k k' : K) (v : V) (m : JsMap K V) :
  k <> k' -> map_get k (map_set k' v m) = map_get k m.
Proof.
  intros Hne. induction m as [|[k0 v0] rest IH]; simpl.
  - destruct (key_eqb k' k) eqn:Hk; [|reflexivity].
    apply key_eq in Hk. congruence.
  - destruct (key_eqb k0 k') eqn:Hk0; simpl.
    + apply key_eq in Hk0. subst k0.
      destruct (key_eqb k' k) eqn:Hk; [|reflexivity].
      apply key_eq in Hk. congruence.
    + destruct (key_eqb k0 k); [reflexivity | exact IH].
Qed.

End MapLaws.

(** After a run of [contractVariables.set(node.name, node)], a name holds
    its last declaration. *)
Lemma map_get_declarations (k : option string) :
  forall (ds : list VariableDeclaration) (m0 : ContractVariables),
    map_get k (fold_left (fun m d => map_set (vd_name d) d m) ds m0)
    = match last_declaration k ds with
      | Some d => Some d
      | None => map_get k m0
      end.
Proof.
  induction ds as [|d ds IH] using rev_ind; intros m0; [reflexivity|].
  rewrite fold_left_app. simpl.
  unfold last_declaration. rewrite rev_app_distr. simpl.
  destruct (opt_str_eqb (vd_name d) k) eqn:Hd.
  - apply opt_str_eqb_true in Hd. subst k. apply (map_get_set_same name_key_eq).
  - rewrite (map_get_set_other name_key_eq).
    + apply IH.
    + intros Heq. subst k. rewrite (proj2 (opt_str_eqb_true _ _) eq_refl) in Hd.
      discriminate.
Qed.

Lemma last_declaration_exists (d : VariableDeclaration) (ds : list VariableDeclaration) :
  In d ds ->
  exists d', last_declaration (vd_name d) ds = Some d' /\ vd_name d' = vd_name d.
Proof.
  intros Hin. unfold last_declaration.
  destruct (find (fun d0 => opt_str_eqb (vd_name d0) (vd_name d)) (rev ds)) as [d'|] eqn:Hfind.
  - exists d'. split; [reflexivity|].
    apply find_some in Hfind as [_ Heq]. now apply opt_str_eqb_true in Heq.
  - apply find_none with (x := d) in Hfind; [|now apply in_rev in Hin].
    rewrite (proj2 (opt_str_eqb_true _ _) eq_refl) in Hfind. discriminate.
Qed.

Lemma last_cons {A : Type} (a d : A) (l : list A) : last (a :: l) d = last l a.
Proof.
  revert a d. induction l as [|b l IH]; intros a d; [reflexivity|].
  change (last (a :: b :: l) d) with (last (b :: l) d).
  rewrite (IH b d). symmetry. apply IH.
Qed.

(** The locals of an activation do not depend on what the imports do. *)
Lemma onProfileNode_locals (env : Env)
    (rec : string -> ProfileState -> outcome ProfileState) (solidityFile : string) :
  forall (nodes : list ProfileNode) (loc loc' : ProfileLocals) (sh sh' : ProfileState),
    forEach (onProfileNode env rec solidityFile) nodes (loc, sh) = Done (loc', sh') ->
    loc' = fold_left local_step nodes loc.
Proof.
  induction nodes as [|n nodes IH]; simpl; intros loc loc' sh sh' Hrun.
  - now injection Hrun as <- _.
  - apply bind_Done in Hrun as ([loc1 sh1] & Hstep & Hrun).
    apply IH in Hrun. subst loc'. f_equal.
    destruct n as [node|nm|nm|nm|path]; simpl in Hstep;
      try (now injection Hstep as <- _).
    destruct (negb _) in Hstep.
    + apply bind_Done in Hstep as (sh2 & _ & Hstep). now injection Hstep as <- _.
    + now injection Hstep as <- _.
Qed.

Lemma local_step_fold :
  forall (nodes : list ProfileNode) (loc : ProfileLocals),
    fold_left local_step nodes loc
    = mkProfileLocals
        (last (flat_map (fun n => match n with PContractDefinition c => [c] | _ => [] end)
                        nodes)
              (pl_contractName loc))
        (fold_left (fun m d => map_set (vd_name d) d m)
           (flat_map (fun n => match n with PVariableDeclaration d => [d] | _ => [] end)
                     nodes)
           (pl_contractVariables loc)).
Proof.
  induction nodes as [|n nodes IH]; intros loc.
  - now destruct loc.
  - destruct n as [node|nm|nm|nm|path];
      cbn [fold_left flat_map app]; rewrite IH;
      cbn [local_step pl_contractName pl_contractVariables fold_left];
      rewrite ?last_cons; reflexivity.
Qed.

(** The declarations the profiling scan meets in a function are those of
    its walk; its parameters and return parameters are none of them. *)
Lemma function_declarations (f : FunctionDefinition) :
  part_profile_nodes (FunctionDef f)
  = map PVariableDeclaration (declarations_in (fdef_subnodes f)).
Proof. reflexivity. Qed.

(** C9 (variable registry), as the code has it.  When profiling of a file
    returns, the registry holds, under the name of the last contract
    definition of that file (the empty string if it has none), one map
    with all variable declarations the scan of the file meets (state
    variables, struct members, event parameters and local variables of
    all its contracts; function parameters are no variable declarations):
    a name holds its last declaration and is absent if the file does not
    declare it.  In a file with one contract definition that name is the
    contract's. *)
Theorem C9_variables_keyed_by_last_contract :
  forall (fuel : nat) (env : Env) (solidityFile : string) (ast : SourceUnit)
         (sh sh' : ProfileState),
    readFile env solidityFile = Some ast ->
    profileData fuel env solidityFile sh = Done sh' ->
    map_get (file_profileName ast) (pf_variableType sh')
    = Some (variables_of (file_declarations ast))
    /\ (forall k, map_get k (variables_of (file_declarations ast))
                  = last_declaration k (file_declarations ast))
    /\ (forall d, In d (file_declarations ast) ->
          exists d', last_declaration (vd_name d) (file_declarations ast) = Some d'
                     /\ vd_name d' = vd_name d
                     /\ map_get (vd_name d) (variables_of (file_declarations ast)) = Some d')
    /\ (forall c, file_contracts ast = [c] -> file_profileName ast = c).
Proof.
  intros fuel env solidityFile ast sh sh' Hread Hrun.
  assert (Hget : forall k, map_get k (variables_of (file_declarations ast))
                           = last_declaration k (file_declarations ast)).
  { intros k. unfold variables_of. rewrite map_get_declarations.
    destruct (last_declaration k (file_declarations ast)); reflexivity. }
  split; [|split; [exact Hget|split]].
  - destruct fuel as [|fuel]; [discriminate|].
    simpl in Hrun. unfold profileData_body in Hrun. rewrite Hread in Hrun.
    apply bind_Done in Hrun as ([loc sh1] & Hscan & Hset).
    injection Hset as <-. simpl.
    apply onProfileNode_locals in Hscan. rewrite local_step_fold in Hscan.
    subst loc. simpl. apply (map_get_set_same string_key_eq).
  - intros d Hd.
    destruct (last_declaration_exists d _ Hd) as (d' & Hlast & Hname).
    exists d'. repeat split; auto.
    rewrite Hget. exact Hlast.
  - intros c Hc. unfold file_profileName. rewrite Hc. reflexivity.
Qed.

(** Profiling Lib.sol: the struct member [x] is registered under [Lib],
    the parameter [amount] of [transfer] is not. *)
Lemma C9_variables_keyed_by_last_contract_witness :
  readFile Samples.library "/c/Lib.sol" = Some Samples.fileLib
  /\ profileData 1 Samples.library "/c/Lib.sol" (mkProfileState [] [] [] [])
     = Done (mkProfileState [] ["Point"] ["Lib"]
               [("Lib", [(Some "x", Samples.variable "x" Samples.uint256)])])
  /\ map_get "Lib" [("Lib", [(Some "x", Samples.variable "x" Samples.uint256)])]
     = Some [(Some "x", Samples.variable "x" Samples.uint256)].
Proof.
  split; [reflexivity|]. split; [reflexivity|].
  exact (proj1 (@C9_variables_keyed_by_last_contract 1 Samples.library "/c/Lib.sol"
                  Samples.fileLib (mkProfileState [] [] [] [])
                  (mkProfileState [] ["Point"] ["Lib"]
                     [("Lib", [(Some "x", Samples.variable "x" Samples.uint256)])])
                  eq_refl eq_refl)).
Defined.

(** XY.sol defines [contract X { uint256 a; }] and
    [contract Y { uint256 b; }].  After profiling, the registry has no
    entry for [X]; the variable [a] of [X] sits under [Y]. *)
Lemma C9_counterexample :
  profileData 1 Samples.twoContracts "/c/XY.sol" (mkProfileState [] [] [] [])
  = Done (mkProfileState [] [] ["X"; "Y"] Samples.registryXY)
  /\ map_get "X" Samples.registryXY = None
  /\ (exists vars, map_get "Y" Samples.registryXY = Some vars
                   /\ map_get (Some "a") vars = Some (Samples.variable "a" Samples.uint256))
  /\ ~ (exists vars, map_get "X" Samples.registryXY = Some vars
                     /\ map_get (Some "a") vars
                        = Some (Samples.variable "a" Samples.uint256)).
Proof.
  split; [reflexivity|]. split; [reflexivity|]. split.
  - eexists. split; reflexivity.
  - intros (vars & Hget & _). discriminate Hget.
Qed.

(** ** The resolver: fuel, termination, unresolved calls *)

(** A loop that ended without running out of fuel ends the same way with
    any body that agrees with the first one on such outcomes. *)
Lemma forEach_mono {A S : Type} (f g : S -> A -> outcome S) :
  (forall s a r, r <> OutOfFuel -> f s a = r -> g s a = r) ->
  forall (arr : list A) (s : S) (r : outcome S),
    r <> OutOfFuel -> forEach f arr s = r -> forEach g arr s = r.
Proof.
  intros Hfg. induction arr as [|a rest IH]; simpl; intros s r Hr Hrun; [exact Hrun|].
  destruct (f s a) as [s1|e|] eqn:Hf; simpl in Hrun.
  - rewrite (Hfg s a (Done s1) ltac:(discriminate) Hf). simpl. now apply IH.
  - rewrite (Hfg s a (Throw e) ltac:(discriminate) Hf). exact Hrun.
  - congruence.
Qed.

Lemma bind_mono {A B : Type} (m m' : outcome A) (k k' : A -> outcome B) (r : outcome B) :
  (forall x, x <> OutOfFuel -> m = x -> m' = x) ->
  (forall a y, y <> OutOfFuel -> k a = y -> k' a = y) ->
  r <> OutOfFuel -> bind m k = r -> bind m' k' = r.
Proof.
  intros Hm Hk Hr Hrun. destruct m as [a|e|] eqn:Em; simpl in Hrun.
  - rewrite (Hm (Done a) ltac:(discriminate) eq_refl). simpl. now apply Hk.
  - rewrite (Hm (Throw e) ltac:(discriminate) eq_refl). exact Hrun.
  - congruence.
Qed.

(** More fuel does not change a result of the resolver. *)
Lemma findAndRenameCall_fuel_mono (contracts : option (list ContractRecord))
    (contractRoot : ContractRecord) (variableTypeMap : VariableTypeMap) (call : CallRef) :
  forall (fuel fuel' : nat) (contractInfo : option ContractRecord)
         (r : outcome (option string)),
    fuel <= fuel' ->
    r <> OutOfFuel ->
    findAndRenameCall fuel contracts contractRoot contractInfo variableTypeMap call = r ->
    findAndRenameCall fuel' contracts contractRoot contractInfo variableTypeMap call = r.
Proof.
  induction fuel as [|fuel IH]; intros fuel' contractInfo r Hle Hr Hrun;
    [simpl in Hrun; congruence|].
  destruct fuel' as [|fuel']; [lia|].
  assert (Hle' : fuel <= fuel') by lia.
  destruct contracts as [cs|]; [|exact Hrun].
  destruct contractInfo as [info|]; [|exact Hrun].
  destruct (findMethod info call) as [m|] eqn:Hfind.
  - rewrite (findAndRenameCall_hit _ _ _ _ _ _ Hfind) in Hrun.
    rewrite (findAndRenameCall_hit _ _ _ _ _ _ Hfind). exact Hrun.
  - rewrite findAndRenameCall_miss in Hrun by exact Hfind.
    rewrite findAndRenameCall_miss by exact Hfind.
    revert Hrun. apply bind_mono; [| |exact Hr].
    + intros x Hx. apply forEach_mono; [|exact Hx].
      intros acc e y Hy. apply bind_mono; [| |exact Hy].
      * intros z Hz. now apply IH.
      * intros a z _ Hz. exact Hz.
    + intros found y Hy. destruct found as [t|]; [auto|].
      apply forEach_mono; [|exact Hy].
      intros acc e z Hz. destruct (negb _); [|auto].
      apply bind_mono; [| |exact Hz].
      * intros w Hw. now apply IH.
      * intros a w _ Hw. exact Hw.
Qed.

Section WellFounded.

Variable cs : list ContractRecord.
Variable contractRoot : ContractRecord.
Variable variableTypeMap : VariableTypeMap.
Variable call : CallRef.

(** Every name a record of the universe may look up has a record, of
    smaller rank: no name is missing and no chain of bases and imports
    comes back to where it started. *)
Variable rank : ContractRecord -> nat.
Hypothesis consulted_ranked :
  forall (c : ContractRecord) (n : string),
    In c cs -> In n (consulted c) ->
    exists c', findContract cs n = Some c' /\ rank c' < rank c.

(** In a record that defines the callee, the identifier can be built. *)
Hypothesis local_hit_returns :
  forall (c : ContractRecord) (m : MethodRecord),
    In c cs -> findMethod c call = Some m ->
    exists s, localDefinition c variableTypeMap call = Done s.

(** On such a universe the resolver returns. *)
Lemma findAndRenameCall_returns :
  forall (fuel : nat) (info : ContractRecord),
    In info cs -> rank info < fuel ->
    exists r, findAndRenameCall fuel (Some cs) contractRoot (Some info)
                variableTypeMap call = Done r.
Proof.
  induction fuel as [|fuel IH]; intros info Hin Hrank; [lia|].
  destruct (findMethod info call) as [m|] eqn:Hfind.
  - rewrite (findAndRenameCall_hit _ _ _ _ _ _ Hfind).
    destruct (local_hit_returns info Hin Hfind) as (s & ->). simpl. eauto.
  - rewrite findAndRenameCall_miss by exact Hfind.
    assert (Hrec : forall n, In n (consulted info) ->
              exists r, findAndRenameCall fuel (Some cs) contractRoot
                          (findContract cs n) variableTypeMap call = Done r).
    { intros n Hn. destruct (consulted_ranked info n Hin Hn) as (c' & Hc' & Hlt).
      rewrite Hc'. apply IH; [|lia]. now apply findContract_name in Hc'. }
    destruct (@forEach_total string (option string)
                (fun foundResult extending =>
                   result <- findAndRenameCall fuel (Some cs) contractRoot
                               (findContract cs extending) variableTypeMap call ;;
                   Done (overwrite foundResult result))
                (extendsContracts info) None) as (found & ->).
    { intros acc e He.
      destruct (Hrec e) as (r & ->); [apply in_or_app; now left|].
      simpl. eauto. }
    simpl. destruct found as [t|]; [eauto|].
    apply forEach_total. intros acc e He.
    destruct (negb _); [|eauto].
    destruct (Hrec (Path.parse_name e)) as (r & ->).
    + apply in_or_app. right. now apply in_map.
    + simpl. eauto.
Qed.

End WellFounded.

(** If no record of the universe defines the callee, a result of the
    resolver is the unresolved marker. *)
Lemma findAndRenameCall_unresolved (cs : list ContractRecord)
    (contractRoot : ContractRecord) (variableTypeMap : VariableTypeMap)
    (call : CallRef) :
  (forall c, In c cs -> findMethod c call = None) ->
  forall (fuel : nat) (info : ContractRecord) (r : option string),
    In info cs ->
    findAndRenameCall fuel (Some cs) contractRoot (Some info) variableTypeMap call
    = Done r ->
    r = None.
Proof.
  intros Hnone fuel info r Hin Hrun.
  destruct r as [s|]; [|reflexivity].
  apply findAndRenameCall_found in Hrun.
  - destruct Hrun as (c & m & Hc & Hfind & _).
    rewrite (Hnone c Hc) in Hfind. discriminate.
  - intros i Hi. injection Hi as <-. exact Hin.
Qed.

(** [Child is A, B] with its two bases: the rank is the number of bases. *)
Example findAndRenameCall_returns_child :
  exists r, findAndRenameCall 3 (Some [Samples.baseA; Samples.baseB; Samples.child])
              Samples.child (Some Samples.child) [] Samples.call_check = Done r.
Proof.
  apply (@findAndRenameCall_returns [Samples.baseA; Samples.baseB; Samples.child]
           Samples.child [] Samples.call_check
           (fun c => List.length (extendsContracts c))).
  - intros c n [<- | [<- | [<- | []]]]; simpl; try contradiction.
    intros [<- | [<- | [<- | [<- | []]]]]; vm_compute; eauto.
  - intros c m Hc Hm. exists (js_str (contractName c) ++ ":check"). reflexivity.
  - simpl. auto.
  - simpl. lia.
Qed.

(** * Further properties of the code *)

(** ** What the call visitor records *)

Lemma includes_true (l : list string) (x : option string) :
  includes l x = true <-> exists y, In y l /\ x = Some y.
Proof.
  unfold includes. rewrite existsb_exists.
  split; intros (y & Hy & H); exists y; (split; [exact Hy|]); now apply str_eq_opt_true.
Qed.

(** A handler only appends to [callMethods]. *)
Lemma parserFunctionVisitor_appends (contractsList ignoresList : list string)
    (fDef : FunctionDefinition) (callMethods : list CallRef) (n : Node) :
  parserFunctionVisitor contractsList ignoresList fDef callMethods n
  = (callMethods ++ parserFunctionVisitor contractsList ignoresList fDef [] n)%list.
Proof.
  destruct n as [x|e m|e a|b i|d|t cs]; simpl; try now rewrite app_nil_r.
  - unfold visitMemberAccess.
    destruct ((negb _ || _ || _) && _); [|now rewrite app_nil_r].
    destruct (isKeywordCall (Some m)); [now rewrite app_nil_r|].
    destruct e; reflexivity.
  - unfold visitFunctionCall.
    destruct (_ && _ && _); [reflexivity | now rewrite app_nil_r].
Qed.

Lemma visit_flat_map (contractsList ignoresList : list string) (fDef : FunctionDefinition) :
  forall (nodes : list Node) (callMethods : list CallRef),
    fold_left (parserFunctionVisitor contractsList ignoresList fDef) nodes callMethods
    = (callMethods
       ++ flat_map (parserFunctionVisitor contractsList ignoresList fDef []) nodes)%list.
Proof.
  induction nodes as [|n nodes IH]; intros callMethods; simpl.
  - now rewrite app_nil_r.
  - rewrite IH, parserFunctionVisitor_appends, app_assoc. reflexivity.
Qed.

(** What one [FunctionCall] node contributes. *)
Lemma visitFunctionCall_In (contractsList ignoresList : list string)
    (fDef : FunctionDefinition) (e : Node) (a : list Node) (c : CallRef) :
  In c (visitFunctionCall contractsList ignoresList fDef [] e a)
  <-> c = mkCallRef (node_name e) a
      /\ node_name e <> Some (fd_name fDef)
      /\ 1 < statements_length fDef
      /\ isKeywordFunction (node_name e) = false
      /\ includes ignoresList (node_name e) = false
      /\ includes contractsList (node_name e) = false
      /\ node_name e <> None.
Proof.
  unfold visitFunctionCall, isCountableStatement.
  destruct (node_name e) as [x|] eqn:Hname.
  - destruct (str_eq_opt (fd_name fDef) (Some x)) eqn:Hown;
    destruct (Nat.ltb 1 (statements_length fDef)) eqn:Hlen;
    destruct (isKeywordFunction (Some x)) eqn:Hkw;
    destruct (includes ignoresList (Some x)) eqn:Hign;
    destruct (includes contractsList (Some x)) eqn:Hcon; simpl;
    split; try contradiction;
    try (intros (_ & Hn & Hl & Hk & Hi & Hc & Hd); exfalso;
         first [ discriminate
               | apply Nat.ltb_ge in Hlen; lia
               | apply str_eq_opt_true in Hown; now apply Hn ]).
    + intros [<- | []]. repeat split; try reflexivity; try discriminate.
      * intros Heq. apply str_eq_opt_true in Heq. congruence.
      * now apply Nat.ltb_lt.
    + intros (-> & _). now left.
  - rewrite !andb_false_r. simpl. split; [contradiction|].
    intros (_ & _ & _ & _ & _ & _ & Hd). now apply Hd.
Qed.

(** What one [MemberAccess] node contributes. *)
Lemma visitMemberAccess_In (contractsList : list string)
    (e : Node) (m : string) (c : CallRef) :
  In c (visitMemberAccess contractsList [] e m)
  <-> c = mkCallRef (Some m) (receiverArguments e)
      /\ (node_type e <> "Identifier"
          \/ includes contractsList (node_name e) = true
          \/ node_name e = Some "super")
      /\ node_type e <> "IndexAccess"
      /\ m <> "length".
Proof.
  assert (H1 : (negb (String.eqb (node_type e) "Identifier")
                || includes contractsList (node_name e)
                || opt_str_eqb (node_name e) (Some "super")) = true
               <-> (node_type e <> "Identifier"
                    \/ includes contractsList (node_name e) = true
                    \/ node_name e = Some "super")).
  { rewrite !orb_true_iff, negb_true_iff, String.eqb_neq, opt_str_eqb_true. tauto. }
  assert (H2 : negb (String.eqb (node_type e) "IndexAccess") = true
               <-> node_type e <> "IndexAccess").
  { rewrite negb_true_iff. apply String.eqb_neq. }
  assert (H3 : isKeywordCall (Some m) = false <-> m <> "length").
  { unfold isKeywordCall. simpl. apply String.eqb_neq. }
  assert (Hpush : match e with
                  | FunctionCall _ arguments => ([] ++ [mkCallRef (Some m) arguments])%list
                  | _ => ([] ++ [mkCallRef (Some m) []])%list
                  end = [mkCallRef (Some m) (receiverArguments e)])
    by (destruct e; reflexivity).
  unfold visitMemberAccess. rewrite Hpush.
  destruct (negb (String.eqb (node_type e) "Identifier")
            || includes contractsList (node_name e)
            || opt_str_eqb (node_name e) (Some "super")) eqn:E1;
  destruct (negb (String.eqb (node_type e) "IndexAccess")) eqn:E2;
  destruct (isKeywordCall (Some m)) eqn:E3; simpl; split;
  try contradiction;
  try (intros (_ & P1 & P2 & P3); exfalso;
       first [ apply H1 in P1; discriminate P1
             | apply H2 in P2; discriminate P2
             | apply H3 in P3; discriminate P3 ]).
  - intros [<- | []]. split; [reflexivity|].
    split; [now apply H1|]. split; [now apply H2 | now apply H3].
  - intros (-> & _). now left.
Qed.

(** The calls recorded for a function are exactly these: for every
    [FunctionCall] node under it whose callee has a name that is not the
    function's own, not [require], [revert] or [assert], not in
    [ignoresList] and not in [contractsList], provided the body has more
    than one statement, the callee with the call's arguments; and for
    every [MemberAccess] node under it whose receiver is not an index
    access and is either no identifier, or a contract name, or [super],
    and whose member is not [length], the member name with the arguments
    of the receiver. *)
Lemma visitFunction_In :
  forall (contractsList ignoresList : list string) (fDef : FunctionDefinition)
         (c : CallRef),
    In c (visitFunction contractsList ignoresList fDef)
    <-> (exists e a,
            In (FunctionCall e a) (fdef_subnodes fDef)
            /\ c = mkCallRef (node_name e) a
            /\ node_name e <> Some (fd_name fDef)
            /\ 1 < statements_length fDef
            /\ isKeywordFunction (node_name e) = false
            /\ includes ignoresList (node_name e) = false
            /\ includes contractsList (node_name e) = false
            /\ node_name e <> None)
        \/ (exists e m,
               In (MemberAccess e m) (fdef_subnodes fDef)
               /\ c = mkCallRef (Some m) (receiverArguments e)
               /\ (node_type e <> "Identifier"
                   \/ includes contractsList (node_name e) = true
                   \/ node_name e = Some "super")
               /\ node_type e <> "IndexAccess"
               /\ m <> "length").
Proof.
  intros contractsList ignoresList fDef c.
  unfold visitFunction. rewrite visit_flat_map. simpl. rewrite in_flat_map.
  split.
  - intros (n & Hn & Hc).
    destruct n as [x|e m|e a|b i|d|t cs]; simpl in Hc; try contradiction.
    + right. exists e, m. split; [exact Hn|]. now apply visitMemberAccess_In.
    + left. exists e, a. split; [exact Hn|]. now apply visitFunctionCall_In.
  - intros [(e & a & Hn & Hc) | (e & m & Hn & Hc)].
    + exists (FunctionCall e a). split; [exact Hn|]. simpl. now apply visitFunctionCall_In.
    + exists (MemberAccess e m). split; [exact Hn|]. simpl. now apply visitMemberAccess_In.
Qed.

(** The walk of a function starts in its parameter list: the member
    access in the type of the parameter is recorded before the calls of
    the body, also when the body has one statement. *)
Example visitFunction_parameter_type :
  visitFunction ["Lib"] [] Fixtures.sized
  = [mkCallRef (Some "SIZE") []; mkCallRef (Some "g") []; mkCallRef (Some "h") []]
  /\ visitFunction ["Lib"] [] Fixtures.sizedOne = [mkCallRef (Some "SIZE") []].
Proof. split; reflexivity. Qed.

(** X2.  For a function without member accesses, every recorded call has
    a name, which is not the function's own name, not an assertion
    keyword, not in [ignoresList] and not in [contractsList]; and a call
    is recorded only if the body has more than one statement. *)
Theorem X2_direct_calls_filtered :
  forall (contractsList ignoresList : list string) (fDef : FunctionDefinition),
    (forall e m, ~ In (MemberAccess e m) (fdef_subnodes fDef)) ->
    forall c : CallRef,
      In c (visitFunction contractsList ignoresList fDef) ->
      exists n : string,
        name c = Some n
        /\ n <> fd_name fDef
        /\ n <> "require" /\ n <> "revert" /\ n <> "assert"
        /\ ~ In n ignoresList
        /\ ~ In n contractsList
        /\ 1 < statements_length fDef.
Proof.
  intros contractsList ignoresList fDef Hnomember c Hc.
  unfold visitFunction in Hc. rewrite visit_flat_map in Hc. simpl in Hc.
  apply in_flat_map in Hc as (n & Hn & Hc).
  destruct n as [x|e m|e a|b i|d|t cs]; simpl in Hc; try contradiction.
  - exfalso. exact (Hnomember e m Hn).
  - apply visitFunctionCall_In in Hc as (-> & Hown & Hlen & Hkw & Hign & Hcon & Hdef).
    destruct (node_name e) as [f|]; [|now elim Hdef].
    exists f. simpl. split; [reflexivity|].
    split; [congruence|].
    unfold isKeywordFunction in Hkw. simpl in Hkw.
    apply orb_false_iff in Hkw as [Hkw Hassert].
    apply orb_false_iff in Hkw as [Hrequire Hrevert].
    repeat split; try (now apply String.eqb_neq); try exact Hlen.
    + intros Hin. assert (includes ignoresList (Some f) = true)
        by (apply includes_true; eauto). congruence.
    + intros Hin. assert (includes contractsList (Some f) = true)
        by (apply includes_true; eauto). congruence.
Qed.

(** [function count() { step(); count(); }] with [Transfer] ignored and
    [Token] a contract. *)
Lemma X2_direct_calls_filtered_witness :
  (forall e m, ~ In (MemberAccess e m) (fdef_subnodes Samples.count))
  /\ In (mkCallRef (Some "step") []) (visitFunction ["Token"] ["Transfer"] Samples.count)
  /\ exists n : string,
       Some "step" = Some n
       /\ n <> "count"
       /\ n <> "require" /\ n <> "revert" /\ n <> "assert"
       /\ ~ In n ["Transfer"]
       /\ ~ In n ["Token"]
       /\ 1 < 2.
Proof.
  assert (Hnomember : forall e m, ~ In (MemberAccess e m) (fdef_subnodes Samples.count)).
  { intros e m H. simpl in H.
    repeat (destruct H as [H | H]; [discriminate H|]). exact H. }
  split; [exact Hnomember|].
  split; [simpl; left; reflexivity|].
  exact (@X2_direct_calls_filtered ["Token"] ["Transfer"] Samples.count Hnomember
           (mkCallRef (Some "step") []) (or_introl eq_refl)).
Defined.

(** ** What extraction returns for the file itself *)

Lemma signature_fold (ps : list FunctionParameter) :
  forall acc : string,
    fold_left (fun acc p => acc ++ ":" ++ js_str (type_of (p_typeName p))) ps acc
    = acc ++ segments (map (fun p => js_str (type_of (p_typeName p))) ps).
Proof.
  induction ps as [|p ps IH]; intros acc; simpl.
  - now rewrite append_empty_r.
  - rewrite IH, append_assoc. reflexivity.
Qed.

Section OwnRecord.

Variable env : Env.
Variables ignoresList contractsList : list string.
Variable rec :
  option string -> list (option string)
  -> outcome (list ContractRecord * list (option string)).

(** A dependency only adds to [processed] and [importVisited]. *)
Lemma visitPath_keeps (nodePath : option string) (st st' : ProcessState) :
  visitPath rec nodePath st = Done st' ->
  ps_methodCalls st' = ps_methodCalls st
  /\ ps_extendsContracts st' = ps_extendsContracts st.
Proof.
  unfold visitPath. intros H.
  apply bind_Done in H as ([result visited] & _ & H).
  injection H as <-. split; reflexivity.
Qed.

Lemma onFunctionDefinition_methods (contractName : option string)
    (importList : list string) (st st' : ProcessState) (fDef : FunctionDefinition) :
  onFunctionDefinition ignoresList contractsList rec contractName importList st fDef
  = Done st' ->
  ps_methodCalls st'
  = (ps_methodCalls st
     ++ if isConstructor fDef then []
        else [methodRecord contractsList ignoresList contractName fDef])%list
  /\ ps_extendsContracts st' = ps_extendsContracts st.
Proof.
  unfold onFunctionDefinition. destruct (isConstructor fDef).
  - rewrite app_nil_r.
    apply (forEach_invariant
             (fun s => ps_methodCalls s = ps_methodCalls st
                       /\ ps_extendsContracts s = ps_extendsContracts st));
      [|split; reflexivity].
    intros s1 modifier s2 _ [Hm He] Hstep. cbv beta in Hstep.
    destruct (negb _) in Hstep.
    + apply visitPath_keeps in Hstep as [Hm' He']. split; congruence.
    + injection Hstep as <-. split; assumption.
  - intros H. injection H as <-. simpl. split; [|reflexivity].
    unfold methodRecord, signature. rewrite signature_fold, !append_assoc.
    reflexivity.
Qed.

Lemma functions_scan (contractName : option string) (importList : list string) :
  forall (fs : list FunctionDefinition) (st st' : ProcessState),
    forEach (onFunctionDefinition ignoresList contractsList rec contractName importList)
            fs st = Done st' ->
    ps_methodCalls st'
    = (ps_methodCalls st
       ++ map (methodRecord contractsList ignoresList contractName)
              (filter (fun f => negb (isConstructor f)) fs))%list
    /\ ps_extendsContracts st' = ps_extendsContracts st.
Proof.
  induction fs as [|f fs IH]; simpl; intros st st' H.
  - injection H as <-. rewrite app_nil_r. split; reflexivity.
  - apply bind_Done in H as (s1 & Hf & H).
    apply onFunctionDefinition_methods in Hf as [Hm He].
    apply IH in H as [Hm' He']. rewrite Hm', Hm, He', He.
    split; [|reflexivity].
    destruct (isConstructor f); simpl; [now rewrite app_nil_r|].
    now rewrite <- app_assoc.
Qed.

Lemma inheritance_scan (importList : list string) :
  forall (bases : list string) (st st' : ProcessState),
    forEach (onInheritanceSpecifier rec importList) bases st = Done st' ->
    ps_methodCalls st' = ps_methodCalls st
    /\ ps_extendsContracts st' = (ps_extendsContracts st ++ bases)%list.
Proof.
  induction bases as [|b bases IH]; simpl; intros st st' H.
  - injection H as <-. rewrite app_nil_r. split; reflexivity.
  - apply bind_Done in H as (s1 & Hb & H).
    apply IH in H as [Hm' He']. rewrite Hm', He'.
    unfold onInheritanceSpecifier in Hb.
    apply bind_Done in Hb as (s0 & Hv & Hb). injection Hb as <-. simpl.
    destruct (negb _) in Hv.
    + apply visitPath_keeps in Hv as [Hm He]. rewrite Hm, He, <- app_assoc.
      split; reflexivity.
    + injection Hv as <-. rewrite <- app_assoc. split; reflexivity.
Qed.

Lemma imports_scan :
  forall (paths : list string) (st st' : ProcessState),
    forEach (onImport rec) paths st = Done st' ->
    ps_methodCalls st' = ps_methodCalls st
    /\ ps_extendsContracts st' = ps_extendsContracts st.
Proof.
  intros paths st st'.
  apply (forEach_invariant
           (fun s => ps_methodCalls s = ps_methodCalls st
                     /\ ps_extendsContracts s = ps_extendsContracts st));
    [|split; reflexivity].
  intros s1 nodePath s2 _ [Hm He] Hstep. unfold onImport in Hstep.
  destruct (includes_opt _ _) in Hstep.
  - injection Hstep as <-. split; assumption.
  - apply visitPath_keeps in Hstep as [Hm' He']. split; congruence.
Qed.

Lemma processData_body_own (solidityFile : string) (ast : SourceUnit)
    (importVisited visited' : list (option string)) (records : list ContractRecord) :
  readFile env solidityFile = Some ast ->
  processData_body env ignoresList contractsList rec (Some solidityFile) importVisited
  = Done (records, visited') ->
  exists dependencies : list ContractRecord,
    records
    = (dependencies
       ++ [ownRecord env contractsList ignoresList solidityFile ast])%list.
Proof.
  intros Hread H. unfold processData_body in H. rewrite Hread in H.
  apply bind_Done in H as (s1 & H1 & H).
  apply bind_Done in H as (s2 & H2 & H).
  apply bind_Done in H as (s3 & H3 & H).
  injection H as <- _.
  apply functions_scan in H1 as [Hm1 He1].
  apply inheritance_scan in H2 as [Hm2 He2].
  apply imports_scan in H3 as [Hm3 He3].
  exists (ps_processed s3). unfold ownRecord.
  rewrite Hm3, Hm2, Hm1, He3, He2, He1. reflexivity.
Qed.

End OwnRecord.

(** X3.  When extraction of a readable file returns, the last record of
    the returned array describes the file itself: the name of the last
    contract the file defines, all base names in the order of the
    inheritance specifiers, the resolved import paths, and one method
    record per function that is no constructor, in source order, with
    the signature [contract:function:type1:...:typen] of its parameter
    types and with no calls if the function has no body.  The records of
    its dependencies come before it. *)
Theorem X3_own_record_last :
  forall (fuel : nat) (env : Env) (solidityFile : string) (ast : SourceUnit)
         (importVisited visited' : list (option string))
         (ignoresList contractsList : list string) (records : list ContractRecord),
    readFile env solidityFile = Some ast ->
    processData fuel env (Some solidityFile) importVisited ignoresList contractsList
    = Done (records, visited') ->
    exists dependencies : list ContractRecord,
      records
      = (dependencies
         ++ [ownRecord env contractsList ignoresList solidityFile ast])%list.
Proof.
  intros fuel env solidityFile ast importVisited visited' ignoresList contractsList
         records Hread H.
  destruct fuel as [|fuel]; [discriminate|].
  simpl in H. eapply processData_body_own; eauto.
Qed.

(** Extraction of Wallet.sol. *)
Lemma X3_own_record_last_witness :
  readFile Samples.misnamed "/c/Wallet.sol" = Some Samples.fileWallet
  /\ processData 2 Samples.misnamed (Some "/c/Wallet.sol") [] []
       ["SafeMathLib"; "Wallet"]
     = Done ([Samples.recSafeMathLib; Samples.recWallet], [Some "/c/SafeMath.sol"])
  /\ exists dependencies : list ContractRecord,
       [Samples.recSafeMathLib; Samples.recWallet]
       = (dependencies
          ++ [ownRecord Samples.misnamed ["SafeMathLib"; "Wallet"] []
                        "/c/Wallet.sol" Samples.fileWallet])%list.
Proof.
  split; [reflexivity|]. split; [reflexivity|].
  exact (@X3_own_record_last 2 Samples.misnamed "/c/Wallet.sol" Samples.fileWallet
           [] [Some "/c/SafeMath.sol"] [] ["SafeMathLib"; "Wallet"]
           [Samples.recSafeMathLib; Samples.recWallet] eq_refl eq_refl).
Defined.

(** ** The visited list of extraction *)

Lemma includes_opt_false (l : list (option string)) (x : option string) :
  includes_opt l x = false -> ~ In x l.
Proof.
  unfold includes_opt. intros H Hin.
  assert (existsb (fun y => opt_str_eqb y x) l = true).
  { apply existsb_exists. exists x. split; [exact Hin | now apply opt_str_eqb_true]. }
  congruence.
Qed.

Lemma includes_opt_true (l : list (option string)) (x : option string) :
  includes_opt l x = true -> In x l.
Proof.
  unfold includes_opt. intros H.
  apply existsb_exists in H as (y & Hy & Heq).
  apply opt_str_eqb_true in Heq. now subst.
Qed.

Lemma NoDup_snoc {A : Type} (l : list A) (x : A) :
  NoDup l -> ~ In x l -> NoDup (l ++ [x]).
Proof.
  induction l as [|a l IH]; simpl; intros Hl Hx.
  - constructor; [intros [] | constructor].
  - inversion Hl as [|? ? Ha Hl']; subst. constructor.
    + intros Hin. apply in_app_or in Hin as [Hin | [<- | []]]; [now apply Ha|].
      apply Hx. now left.
    + apply IH; [exact Hl'|]. intros Hin. apply Hx. now right.
Qed.

Section VisitedList.

Variable env : Env.
Variables ignoresList contractsList : list string.
Variable rec :
  option string -> list (option string)
  -> outcome (list ContractRecord * list (option string)).

Hypothesis rec_visits_once : forall nodePath, visits_once (rec nodePath).

Lemma visitPath_invariant (visited : list (option string)) (nodePath : option string)
    (st st' : ProcessState) :
  scan_invariant visited st ->
  includes_opt (ps_importVisited st) nodePath = false ->
  visitPath rec nodePath st = Done st' ->
  scan_invariant visited st'.
Proof.
  intros (Hnd & added & Hv & Hlen) Hnew H. unfold visitPath in H.
  apply bind_Done in H as ([result v'] & Hrec & H). injection H as <-.
  apply rec_visits_once in Hrec as (Hnd' & added' & Hv' & Hlen');
    [apply NoDup_snoc; [exact Hnd | now apply includes_opt_false]|].
  unfold scan_invariant. simpl. split; [exact Hnd'|].
  exists (added ++ nodePath :: added')%list. split.
  - rewrite Hv', Hv, <- !app_assoc. reflexivity.
  - rewrite !length_app, Hlen, Hlen'. simpl. lia.
Qed.

Lemma onFunctionDefinition_invariant (visited : list (option string))
    (contractName : option string) (importList : list string)
    (st st' : ProcessState) (fDef : FunctionDefinition) :
  scan_invariant visited st ->
  onFunctionDefinition ignoresList contractsList rec contractName importList st fDef
  = Done st' ->
  scan_invariant visited st'.
Proof.
  unfold onFunctionDefinition. intros Hst. destruct (isConstructor fDef).
  - apply forEach_invariant; [|exact Hst].
    intros s1 modifier s2 _ Hs1 Hstep. cbv beta in Hstep.
    destruct (includes_opt _ _) eqn:Hinc in Hstep; simpl in Hstep.
    + now injection Hstep as <-.
    + eapply visitPath_invariant; eauto.
  - intros H. injection H as <-. exact Hst.
Qed.

Lemma onInheritanceSpecifier_invariant (visited : list (option string))
    (importList : list string) (st st' : ProcessState) (baseName : string) :
  scan_invariant visited st ->
  onInheritanceSpecifier rec importList st baseName = Done st' ->
  scan_invariant visited st'.
Proof.
  unfold onInheritanceSpecifier. intros Hst H.
  apply bind_Done in H as (s0 & Hv & H). injection H as <-.
  unfold scan_invariant. simpl.
  destruct (includes_opt _ _) eqn:Hinc in Hv; simpl in Hv.
  - injection Hv as <-. exact Hst.
  - eapply visitPath_invariant; eauto.
Qed.

Lemma onImport_invariant (visited : list (option string))
    (st st' : ProcessState) (nodePath : string) :
  scan_invariant visited st ->
  onImport rec st nodePath = Done st' ->
  scan_invariant visited st'.
Proof.
  unfold onImport. intros Hst H.
  destruct (includes_opt _ _) eqn:Hinc in H.
  - now injection H as <-.
  - eapply visitPath_invariant; eauto.
Qed.

Lemma processData_body_visits_once (solidityFile : option string) :
  visits_once (processData_body env ignoresList contractsList rec solidityFile).
Proof.
  intros visited visited' records H Hnd. unfold processData_body in H.
  destruct solidityFile as [file|]; [|discriminate].
  destruct (readFile env file) as [ast|]; [|discriminate].
  apply bind_Done in H as (s1 & H1 & H).
  apply bind_Done in H as (s2 & H2 & H).
  apply bind_Done in H as (s3 & H3 & H).
  injection H as <- <-.
  assert (J1 : scan_invariant visited s1).
  { revert H1. apply forEach_invariant.
    - intros a b c _. apply onFunctionDefinition_invariant.
    - split; [exact Hnd|]. exists []. simpl. now rewrite app_nil_r. }
  assert (J2 : scan_invariant visited s2).
  { revert H2. apply forEach_invariant; [|exact J1].
    intros a b c _. apply onInheritanceSpecifier_invariant. }
  assert (J3 : scan_invariant visited s3).
  { revert H3. apply forEach_invariant; [|exact J2].
    intros a b c _. apply onImport_invariant. }
  destruct J3 as (Hnd3 & added & Hv & Hlen).
  split; [exact Hnd3|]. exists added. split; [exact Hv|].
  rewrite length_app, Hlen. simpl. lia.
Qed.

End VisitedList.

(** X4.  Extraction never removes or repeats an entry of the visited
    list: started on a list without duplicates it ends on that list
    followed by the newly visited paths, again without duplicates, and it
    returns exactly one record per newly visited path plus the record of
    the file it was called on. *)
Theorem X4_one_record_per_visited_path :
  forall (fuel : nat) (env : Env) (solidityFile : option string)
         (importVisited visited' : list (option string))
         (ignoresList contractsList : list string) (records : list ContractRecord),
    processData fuel env solidityFile importVisited ignoresList contractsList
    = Done (records, visited') ->
    NoDup importVisited ->
    NoDup visited'
    /\ exists added : list (option string),
         visited' = (importVisited ++ added)%list
         /\ List.length records = S (List.length added).
Proof.
  intros fuel env solidityFile importVisited visited' ignoresList contractsList records.
  revert solidityFile importVisited visited' records.
  induction fuel as [|fuel IH]; intros solidityFile importVisited visited' records H;
    [discriminate|].
  simpl in H. revert H.
  apply (@processData_body_visits_once env ignoresList contractsList
           (fun nodePath visited =>
              processData fuel env nodePath visited ignoresList contractsList)).
  intros nodePath visited v' r. apply IH.
Qed.

(** Extraction of A.sol, which imports B.sol, which imports A.sol. *)
Lemma X4_one_record_per_visited_path_witness :
  processData 3 Samples.cyclic (Some "/c/A.sol") [] [] ["A"; "B"; "A"]
  = Done ([Samples.recA; Samples.recB; Samples.recA],
          [Some "/c/B.sol"; Some "/c/A.sol"])
  /\ NoDup (@nil (option string))
  /\ NoDup [Some "/c/B.sol"; Some "/c/A.sol"]
  /\ exists added : list (option string),
       [Some "/c/B.sol"; Some "/c/A.sol"] = ([] ++ added)%list
       /\ 3 = S (List.length added).
Proof.
  split; [reflexivity|]. split; [constructor|].
  exact (@X4_one_record_per_visited_path 3 Samples.cyclic (Some "/c/A.sol") []
           [Some "/c/B.sol"; Some "/c/A.sol"] [] ["A"; "B"; "A"]
           [Samples.recA; Samples.recB; Samples.recA] eq_refl (NoDup_nil _)).
Defined.

(** ** Extraction returns or throws *)

Lemma includes_opt_In (l : list (option string)) (x : option string) :
  In x l -> includes_opt l x = true.
Proof.
  intros Hin. unfold includes_opt. apply existsb_exists.
  exists x. split; [exact Hin | now apply opt_str_eqb_true].
Qed.

Lemma filter_length_le {A : Type} (f g : A -> bool) (l : list A) :
  (forall x, g x = true -> f x = true) ->
  List.length (filter g l) <= List.length (filter f l).
Proof.
  intros Hgf. induction l as [|a l IH]; simpl; [lia|].
  destruct (g a) eqn:Hg.
  - rewrite (Hgf a Hg). simpl. lia.
  - destruct (f a); simpl; lia.
Qed.

Lemma filter_length_lt {A : Type} (f g : A -> bool) (l : list A) (a : A) :
  (forall x, g x = true -> f x = true) ->
  In a l -> f a = true -> g a = false ->
  List.length (filter g l) < List.length (filter f l).
Proof.
  intros Hgf Hin Hfa Hga. induction l as [|b l IH]; simpl; [contradiction|].
  destruct Hin as [-> | Hin].
  - rewrite Hfa, Hga. simpl.
    pose proof (filter_length_le f g l Hgf). lia.
  - specialize (IH Hin). destruct (g b) eqn:Hg.
    + rewrite (Hgf b Hg). simpl. lia.
    + destruct (f b); simpl; lia.
Qed.

Lemma unvisited_incl (files : list string) (visited visited' : list (option string)) :
  incl visited visited' ->
  List.length (unvisited files visited') <= List.length (unvisited files visited).
Proof.
  intros Hincl. apply filter_length_le. intros p Hp.
  apply negb_true_iff in Hp. apply negb_true_iff.
  destruct (includes_opt visited (Some p)) eqn:Hv; [|reflexivity].
  apply includes_opt_true in Hv. apply Hincl in Hv.
  apply includes_opt_In in Hv. congruence.
Qed.

Lemma unvisited_snoc (files : list string) (visited : list (option string)) (p : string) :
  In p files ->
  includes_opt visited (Some p) = false ->
  List.length (unvisited files (visited ++ [Some p]))
  < List.length (unvisited files visited).
Proof.
  intros Hin Hnew. apply filter_length_lt with (a := p).
  - intros x Hx. apply negb_true_iff in Hx. apply negb_true_iff.
    destruct (includes_opt visited (Some x)) eqn:Hv; [|reflexivity].
    apply includes_opt_true in Hv.
    assert (includes_opt (visited ++ [Some x]) (Some x) = true)
      by (apply includes_opt_In, in_or_app; now left).
    assert (includes_opt (visited ++ [Some p]) (Some x) = true)
      by (apply includes_opt_In, in_or_app; now left).
    congruence.
  - exact Hin.
  - now rewrite Hnew.
  - apply negb_false_iff. apply includes_opt_In, in_or_app. right. now left.
Qed.

(** A loop does not run out of fuel if no step does. *)
Lemma forEach_returns {A S : Type} (J : S -> Prop) (f : S -> A -> outcome S) :
  forall (arr : list A) (s : S),
    (forall s1 a, In a arr -> J s1 ->
                  f s1 a <> OutOfFuel /\ (forall s2, f s1 a = Done s2 -> J s2)) ->
    J s -> forEach f arr s <> OutOfFuel.
Proof.
  induction arr as [|a rest IH]; simpl; intros s Hstep Hs; [discriminate|].
  destruct (Hstep s a (or_introl eq_refl) Hs) as [Hne Hnext].
  destruct (f s a) as [s1|e|]; simpl; [|discriminate|congruence].
  apply IH; [|now apply Hnext].
  intros s2 b Hb. apply Hstep. now right.
Qed.

Section Extends.

Variable env : Env.
Variables ignoresList contractsList : list string.
Variable rec :
  option string -> list (option string)
  -> outcome (list ContractRecord * list (option string)).
Hypothesis rec_extends :
  forall nodePath visited records visited',
    rec nodePath visited = Done (records, visited') -> incl visited visited'.

Lemma visitPath_extends (visited : list (option string)) (nodePath : option string)
    (st st' : ProcessState) :
  incl visited (ps_importVisited st) ->
  visitPath rec nodePath st = Done st' ->
  incl visited (ps_importVisited st').
Proof.
  intros Hst H. unfold visitPath in H.
  apply bind_Done in H as ([result v'] & Hrec & H). injection H as <-. simpl.
  apply rec_extends in Hrec.
  intros x Hx. apply Hrec, in_or_app. left. now apply Hst.
Qed.

Lemma onFunctionDefinition_extends (visited : list (option string))
    (contractName : option string) (importList : list string)
    (st st' : ProcessState) (fDef : FunctionDefinition) :
  incl visited (ps_importVisited st) ->
  onFunctionDefinition ignoresList contractsList rec contractName importList st fDef
  = Done st' ->
  incl visited (ps_importVisited st').
Proof.
  unfold onFunctionDefinition. intros Hst. destruct (isConstructor fDef).
  - apply (forEach_invariant (fun s => incl visited (ps_importVisited s))); [|exact Hst].
    intros s1 modifier s2 _ Hs1 Hstep. cbv beta in Hstep.
    destruct (negb _) in Hstep.
    + eapply visitPath_extends; eauto.
    + now injection Hstep as <-.
  - intros H. injection H as <-. exact Hst.
Qed.

Lemma onInheritanceSpecifier_extends (visited : list (option string))
    (importList : list string) (st st' : ProcessState) (baseName : string) :
  incl visited (ps_importVisited st) ->
  onInheritanceSpecifier rec importList st baseName = Done st' ->
  incl visited (ps_importVisited st').
Proof.
  unfold onInheritanceSpecifier. intros Hst H.
  apply bind_Done in H as (s0 & Hv & H). injection H as <-. simpl.
  destruct (negb _) in Hv.
  - eapply visitPath_extends; eauto.
  - now injection Hv as <-.
Qed.

Lemma onImport_extends (visited : list (option string))
    (st st' : ProcessState) (nodePath : string) :
  incl visited (ps_importVisited st) ->
  onImport rec st nodePath = Done st' ->
  incl visited (ps_importVisited st').
Proof.
  unfold onImport. intros Hst H.
  destruct (includes_opt _ _) in H.
  - now injection H as <-.
  - eapply visitPath_extends; eauto.
Qed.

Lemma processData_body_extends (solidityFile : option string)
    (visited visited' : list (option string)) (records : list ContractRecord) :
  processData_body env ignoresList contractsList rec solidityFile visited
  = Done (records, visited') ->
  incl visited visited'.
Proof.
  intros H. unfold processData_body in H.
  destruct solidityFile as [file|]; [|discriminate].
  destruct (readFile env file) as [ast|]; [|discriminate].
  apply bind_Done in H as (s1 & H1 & H).
  apply bind_Done in H as (s2 & H2 & H).
  apply bind_Done in H as (s3 & H3 & H).
  injection H as _ <-.
  revert H3. apply (forEach_invariant (fun s => incl visited (ps_importVisited s))).
  { intros a b c _. apply onImport_extends. }
  revert H2. apply (forEach_invariant (fun s => incl visited (ps_importVisited s))).
  { intros a b c _. apply onInheritanceSpecifier_extends. }
  revert H1. apply (forEach_invariant (fun s => incl visited (ps_importVisited s))).
  { intros a b c _. apply onFunctionDefinition_extends. }
  apply incl_refl.
Qed.

End Extends.

Lemma processData_extends (env : Env) (ignoresList contractsList : list string) :
  forall (fuel : nat) (solidityFile : option string)
         (visited visited' : list (option string)) (records : list ContractRecord),
    processData fuel env solidityFile visited ignoresList contractsList
    = Done (records, visited') ->
    incl visited visited'.
Proof.
  induction fuel as [|fuel IH]; intros solidityFile visited visited' records H;
    [discriminate|].
  simpl in H. revert H. apply processData_body_extends.
  intros nodePath v r v'. apply IH.
Qed.

Section Returns.

Variable env : Env.
Variable files : list string.
Hypothesis files_cover : forall p ast, readFile env p = Some ast -> In p files.
Variables ignoresList contractsList : list string.

(** The recursive calls, with a budget of [fuel]. *)
Variable fuel : nat.
Variable rec :
  option string -> list (option string)
  -> outcome (list ContractRecord * list (option string)).
Hypothesis rec_extends :
  forall nodePath visited records visited',
    rec nodePath visited = Done (records, visited') -> incl visited visited'.
Hypothesis rec_returns :
  forall nodePath visited,
    S (List.length (unvisited files visited)) < fuel
    \/ (1 <= fuel /\ unreadable env nodePath) ->
    rec nodePath visited <> OutOfFuel.

Variable visited : list (option string).
Hypothesis budget : List.length (unvisited files visited) < fuel.

Lemma visitPath_returns (nodePath : option string) (st : ProcessState) :
  incl visited (ps_importVisited st) ->
  includes_opt (ps_importVisited st) nodePath = false ->
  visitPath rec nodePath st <> OutOfFuel
  /\ (forall st', visitPath rec nodePath st = Done st' ->
                  incl visited (ps_importVisited st')).
Proof.
  intros Hst Hnew. split.
  - unfold visitPath.
    assert (Hrec : rec nodePath (ps_importVisited st ++ [nodePath])%list <> OutOfFuel).
    { apply rec_returns.
      destruct nodePath as [p|]; [|right; split; [lia | exact I]].
      destruct (readFile env p) as [ast|] eqn:Hread;
        [|right; split; [lia | exact Hread]].
      left. pose proof (unvisited_snoc files (ps_importVisited st) p
                          (files_cover p Hread) Hnew).
      pose proof (unvisited_incl files Hst). lia. }
    destruct (rec nodePath (ps_importVisited st ++ [nodePath])%list) as [[r v]| |];
      simpl; [discriminate | discriminate | congruence].
  - intros st'. now apply visitPath_extends.
Qed.

Lemma onFunctionDefinition_returns (contractName : option string)
    (importList : list string) (st : ProcessState) (fDef : FunctionDefinition) :
  incl visited (ps_importVisited st) ->
  onFunctionDefinition ignoresList contractsList rec contractName importList st fDef
  <> OutOfFuel.
Proof.
  unfold onFunctionDefinition. intros Hst.
  destruct (isConstructor fDef); [|discriminate].
  apply (forEach_returns (fun s => incl visited (ps_importVisited s))); [|exact Hst].
  intros s1 modifier _ Hs1.
  destruct (includes_opt (ps_importVisited s1) (findImport importList (mi_name modifier)))
    eqn:Hinc; simpl.
  - split; [discriminate|]. intros s2 H. now injection H as <-.
  - now apply visitPath_returns.
Qed.

Lemma onInheritanceSpecifier_returns (importList : list string)
    (st : ProcessState) (baseName : string) :
  incl visited (ps_importVisited st) ->
  onInheritanceSpecifier rec importList st baseName <> OutOfFuel.
Proof.
  unfold onInheritanceSpecifier. intros Hst.
  destruct (includes_opt (ps_importVisited st) (findImport importList baseName))
    eqn:Hinc; simpl; [discriminate|].
  destruct (visitPath_returns (findImport importList baseName) st Hst Hinc) as [Hne _].
  destruct (visitPath rec (findImport importList baseName) st); simpl;
    [discriminate | discriminate | congruence].
Qed.

Lemma onImport_returns (st : ProcessState) (nodePath : string) :
  incl visited (ps_importVisited st) ->
  onImport rec st nodePath <> OutOfFuel.
Proof.
  unfold onImport. intros Hst.
  destruct (includes_opt (ps_importVisited st) (Some nodePath)) eqn:Hinc;
    [discriminate|].
  now apply visitPath_returns.
Qed.

Lemma processData_body_returns (solidityFile : option string) :
  processData_body env ignoresList contractsList rec solidityFile visited <> OutOfFuel.
Proof.
  unfold processData_body.
  destruct solidityFile as [file|]; [|discriminate].
  destruct (readFile env file) as [ast|]; [|discriminate].
  set (K := fun s : ProcessState => incl visited (ps_importVisited s)).
  assert (H1 : forall st, K st ->
            forEach (onFunctionDefinition ignoresList contractsList rec
                       (file_contractName ast)
                       (map (importPath env file) (file_imports ast)))
                    (file_functions ast) st <> OutOfFuel).
  { intros st Hst. apply (forEach_returns K); [|exact Hst].
    intros s1 f _ Hs1. split; [now apply onFunctionDefinition_returns|].
    intros s2. now apply onFunctionDefinition_extends. }
  assert (H2 : forall st, K st ->
            forEach (onInheritanceSpecifier rec
                       (map (importPath env file) (file_imports ast)))
                    (file_inheritance ast) st <> OutOfFuel).
  { intros st Hst. apply (forEach_returns K); [|exact Hst].
    intros s1 b _ Hs1. split; [now apply onInheritanceSpecifier_returns|].
    intros s2. now apply onInheritanceSpecifier_extends. }
  assert (H3 : forall st, K st ->
            forEach (onImport rec) (map (importPath env file) (file_imports ast)) st
            <> OutOfFuel).
  { intros st Hst. apply (forEach_returns K); [|exact Hst].
    intros s1 b _ Hs1. split; [now apply onImport_returns|].
    intros s2. now apply onImport_extends. }
  destruct (forEach _ (file_functions ast) _) as [s1| |] eqn:E1; simpl;
    [|discriminate|exfalso; revert E1; apply H1, incl_refl].
  assert (K1 : K s1).
  { revert E1. apply (forEach_invariant K); [|apply incl_refl].
    intros a b c _. now apply onFunctionDefinition_extends. }
  destruct (forEach _ (file_inheritance ast) s1) as [s2| |] eqn:E2; simpl;
    [|discriminate|exfalso; revert E2; now apply H2].
  assert (K2 : K s2).
  { revert E2. apply (forEach_invariant K); [|exact K1].
    intros a b c _. now apply onInheritanceSpecifier_extends. }
  destruct (forEach _ _ s2) as [s3| |] eqn:E3; simpl;
    [discriminate|discriminate|exfalso; revert E3; now apply H3].
Qed.

End Returns.

(** X5.  On a file system with finitely many readable files, extraction
    returns or throws whatever the imports, bases and constructor
    modifiers refer to, cycles included: a recursion depth of two more
    than the number of readable files that are not yet in the visited
    list is never exceeded. *)
Theorem X5_extraction_returns_or_throws :
  forall (env : Env) (files : list string),
    (forall p ast, readFile env p = Some ast -> In p files) ->
    forall (fuel : nat) (solidityFile : option string)
           (importVisited : list (option string))
           (ignoresList contractsList : list string),
      S (List.length (unvisited files importVisited)) < fuel ->
      processData fuel env solidityFile importVisited ignoresList contractsList
      <> OutOfFuel.
Proof.
  intros env files Hcover fuel solidityFile importVisited ignoresList contractsList Hfuel.
  assert (Hall : forall n nodePath visited,
             S (List.length (unvisited files visited)) < n
             \/ (1 <= n /\ unreadable env nodePath) ->
             processData n env nodePath visited ignoresList contractsList <> OutOfFuel).
  { induction n as [|n IH]; intros nodePath visited Hn; [lia|].
    simpl.
    destruct nodePath as [p|]; [|discriminate].
    destruct (readFile env p) as [ast|] eqn:Hread.
    - apply (@processData_body_returns env files Hcover ignoresList contractsList n
               (fun np v => processData n env np v ignoresList contractsList)).
      + intros np v r v'. apply processData_extends.
      + exact IH.
      + destruct Hn as [Hn | [_ Hn]]; [lia|]. simpl in Hn. congruence.
    - unfold processData_body. rewrite Hread. discriminate. }
  apply Hall. now left.
Qed.

(** A.sol and B.sol import each other; nothing is visited yet. *)
Lemma X5_extraction_returns_or_throws_witness :
  (forall p ast, readFile Samples.cyclic p = Some ast -> In p ["/c/A.sol"; "/c/B.sol"])
  /\ S (List.length (unvisited ["/c/A.sol"; "/c/B.sol"] [])) < 4
  /\ processData 4 Samples.cyclic (Some "/c/A.sol") [] [] ["A"; "B"; "A"] <> OutOfFuel.
Proof.
  assert (Hcover : forall p ast, readFile Samples.cyclic p = Some ast ->
                                 In p ["/c/A.sol"; "/c/B.sol"]).
  { intros p ast H. simpl in H.
    destruct (String.eqb p "/c/A.sol") eqn:EA;
      [apply String.eqb_eq in EA; subst; now left|].
    destruct (String.eqb p "/c/B.sol") eqn:EB;
      [apply String.eqb_eq in EB; subst; right; now left | discriminate]. }
  split; [exact Hcover|]. split; [simpl; lia|].
  apply (@X5_extraction_returns_or_throws Samples.cyclic ["/c/A.sol"; "/c/B.sol"]
           Hcover 4 (Some "/c/A.sol") [] [] ["A"; "B"; "A"]).
  simpl. lia.
Defined.

(** ** A base contract without an import *)

Lemma functions_scan_no_constructor (ignoresList contractsList : list string)
    (rec : option string -> list (option string)
           -> outcome (list ContractRecord * list (option string)))
    (contractName : option string) (importList : list string) :
  forall (fs : list FunctionDefinition) (st : ProcessState),
    (forall f, In f fs -> isConstructor f = false) ->
    exists st',
      forEach (onFunctionDefinition ignoresList contractsList rec contractName importList)
              fs st = Done st'
      /\ ps_importVisited st' = ps_importVisited st.
Proof.
  induction fs as [|f fs IH]; simpl; intros st Hfs.
  - exists st. split; reflexivity.
  - unfold onFunctionDefinition at 1. rewrite (Hfs f (or_introl eq_refl)). simpl.
    match goal with
    | |- exists st', forEach _ _ ?s = _ /\ _ =>
        destruct (IH s (fun g Hg => Hfs g (or_intror Hg))) as (st' & Hrun & Hv)
    end.
    exists st'. split; [exact Hrun | exact Hv].
Qed.

(** X6.  If a file without constructors names a base contract in its
    first inheritance specifier and none of its import paths contains
    that name (the base is defined in the same file, say), extraction of
    the file attempts to read the path [undefined] and throws. *)
Theorem X6_base_without_import_throws :
  forall (fuel : nat) (env : Env) (solidityFile : string) (ast : SourceUnit)
         (importVisited : list (option string))
         (ignoresList contractsList : list string)
         (baseName : string) (others : list string),
    readFile env solidityFile = Some ast ->
    (forall f, In f (file_functions ast) -> isConstructor f = false) ->
    file_inheritance ast = baseName :: others ->
    findImport (map (importPath env solidityFile) (file_imports ast)) baseName = None ->
    ~ In None importVisited ->
    processData (S (S fuel)) env (Some solidityFile) importVisited
                ignoresList contractsList
    = Throw FileError.
Proof.
  intros fuel env solidityFile ast importVisited ignoresList contractsList
         baseName others Hread Hnoctor Hbases Hnoimport Hvisited.
  change (processData (S (S fuel)) env (Some solidityFile) importVisited
                      ignoresList contractsList)
    with (processData_body env ignoresList contractsList
            (fun nodePath visited =>
               processData (S fuel) env nodePath visited ignoresList contractsList)
            (Some solidityFile) importVisited).
  unfold processData_body at 1. rewrite Hread.
  destruct (functions_scan_no_constructor ignoresList contractsList
              (fun nodePath visited =>
                 processData (S fuel) env nodePath visited ignoresList contractsList)
              (file_contractName ast)
              (map (importPath env solidityFile) (file_imports ast))
              (file_functions ast) (mkProcessState [] [] [] importVisited) Hnoctor)
    as (st & -> & Hv).
  cbn [bind]. rewrite Hbases. cbn [forEach].
  unfold onInheritanceSpecifier at 1. rewrite Hnoimport, Hv. simpl ps_importVisited.
  destruct (includes_opt importVisited None) eqn:Hinc;
    [apply includes_opt_true in Hinc; contradiction|].
  reflexivity.
Qed.

(** Pair.sol defines [Base] and [Child is Base]. *)
Lemma X6_base_without_import_throws_witness :
  readFile Fixtures.pair "/c/Pair.sol" = Some Fixtures.filePair
  /\ file_inheritance Fixtures.filePair = ["Base"]
  /\ processData 2 Fixtures.pair (Some "/c/Pair.sol") [] [] ["Base"; "Child"]
     = Throw FileError.
Proof.
  split; [reflexivity|]. split; [reflexivity|].
  apply (@X6_base_without_import_throws 0 Fixtures.pair "/c/Pair.sol" Fixtures.filePair
           [] [] ["Base"; "Child"] "Base" [] eq_refl).
  - intros f [<- | [<- | []]]; reflexivity.
  - reflexivity.
  - reflexivity.
  - intros [].
Defined.

(** ** What profiling collects *)

Lemma includes_false (l : list string) (x : string) :
  includes l (Some x) = false -> ~ In x l.
Proof.
  intros H Hin.
  assert (includes l (Some x) = true) by (apply includes_true; eauto).
  congruence.
Qed.

Lemma grows_refl (sh : ProfileState) : grows sh sh.
Proof. repeat split; apply incl_refl. Qed.

Lemma grows_trans (a b c : ProfileState) : grows a b -> grows b c -> grows a c.
Proof.
  intros (H1 & H2 & H3) (K1 & K2 & K3).
  repeat split; eapply incl_tran; eauto.
Qed.

Lemma profiled_grows (env : Env) (p : string) (sh sh' : ProfileState) :
  profiled env p sh -> grows sh sh' -> profiled env p sh'.
Proof.
  intros (ast & Hread & Hi & Hc) (_ & Gi & Gc).
  exists ast. repeat split; [exact Hread | |]; eapply incl_tran; eauto.
Qed.

Section Profiled.

Variable env : Env.
Variable rec : string -> ProfileState -> outcome ProfileState.
Hypothesis rec_profiles :
  forall (p : string) (sh sh' : ProfileState),
    rec p sh = Done sh' ->
    grows sh sh' /\ profiled env p sh' /\ closed_under_imports env sh sh'.

Lemma onProfileNode_collects (solidityFile : string) (n : ProfileNode)
    (loc loc' : ProfileLocals) (sh sh' : ProfileState) :
  onProfileNode env rec solidityFile (loc, sh) n = Done (loc', sh') ->
  grows sh sh'
  /\ incl (ignored_in [n]) (pf_ignoresList sh')
  /\ incl (contracts_in [n]) (pf_contractsList sh')
  /\ closed_under_imports env sh sh'.
Proof.
  assert (Hsame : forall s : ProfileState, closed_under_imports env s s)
    by (intros s p Hp Hn; contradiction).
  destruct n as [node|nm|nm|nm|path]; simpl; intros H.
  - injection H as _ <-.
    repeat split; try apply incl_refl; try apply incl_nil_l; apply Hsame.
  - injection H as _ <-. unfold grows, closed_under_imports. simpl.
    repeat split; try apply incl_refl; try apply incl_nil_l.
    + apply incl_appl, incl_refl.
    + intros x [<- | []]. apply in_or_app. right. now left.
    + intros p Hp Hn. contradiction.
  - injection H as _ <-. unfold grows, closed_under_imports. simpl.
    repeat split; try apply incl_refl; try apply incl_nil_l.
    + apply incl_appl, incl_refl.
    + intros x [<- | []]. apply in_or_app. right. now left.
    + intros p Hp Hn. contradiction.
  - injection H as _ <-. unfold grows, closed_under_imports. simpl.
    repeat split; try apply incl_refl; try apply incl_nil_l.
    + apply incl_appl, incl_refl.
    + intros x [<- | []]. apply in_or_app. right. now left.
    + intros p Hp Hn. contradiction.
  - destruct (includes (pf_importVisited sh) (Some (importPath env solidityFile path)))
      eqn:Hinc; simpl in H.
    + injection H as _ <-.
      repeat split; try apply incl_refl; try apply incl_nil_l; apply Hsame.
    + apply bind_Done in H as (sh1 & Hrec & H). injection H as _ <-.
      apply rec_profiles in Hrec as ((Gv & Gi & Gc) & Hown & Hclosed).
      simpl in Gv, Gi, Gc. unfold grows.
      repeat split; try apply incl_nil_l; auto.
      * intros x Hx. apply Gv, in_or_app. now left.
      * intros p Hp Hn.
        destruct (string_dec p (importPath env solidityFile path)) as [-> | Hne];
          [exact Hown|].
        apply Hclosed; [exact Hp|]. simpl. intros Hin.
        apply in_app_or in Hin as [Hin | [Heq | []]]; [now apply Hn | now apply Hne].
Qed.

Lemma profile_scan_collects (solidityFile : string) :
  forall (nodes : list ProfileNode) (loc loc' : ProfileLocals) (sh sh' : ProfileState),
    forEach (onProfileNode env rec solidityFile) nodes (loc, sh) = Done (loc', sh') ->
    grows sh sh'
    /\ incl (ignored_in nodes) (pf_ignoresList sh')
    /\ incl (contracts_in nodes) (pf_contractsList sh')
    /\ closed_under_imports env sh sh'.
Proof.
  induction nodes as [|n nodes IH]; simpl forEach; intros loc loc' sh sh' H.
  - injection H as _ <-.
    repeat split; try apply incl_refl; try apply incl_nil_l.
    intros p Hp Hn. contradiction.
  - apply bind_Done in H as ([loc1 sh1] & Hstep & H).
    apply onProfileNode_collects in Hstep as (G1 & Hi1 & Hc1 & Hcl1).
    apply IH in H as (G2 & Hi2 & Hc2 & Hcl2).
    split; [eapply grows_trans; eauto|].
    destruct G2 as (G2v & G2i & G2c).
    unfold ignored_in, contracts_in in *. cbn [flat_map] in *.
    rewrite app_nil_r in Hi1, Hc1.
    split; [|split].
    + apply incl_app; [|exact Hi2]. eapply incl_tran; [exact Hi1 | exact G2i].
    + apply incl_app; [|exact Hc2]. eapply incl_tran; [exact Hc1 | exact G2c].
    + intros p Hp Hn.
      destruct (in_dec string_dec p (pf_importVisited sh1)) as [Hin | Hnin].
      * apply profiled_grows with (sh := sh1); [now apply Hcl1 | now repeat split].
      * now apply Hcl2.
Qed.

Lemma profileData_body_profiles (solidityFile : string) (sh sh' : ProfileState) :
  profileData_body env rec solidityFile sh = Done sh' ->
  grows sh sh' /\ profiled env solidityFile sh' /\ closed_under_imports env sh sh'.
Proof.
  unfold profileData_body. intros H.
  destruct (readFile env solidityFile) as [ast|] eqn:Hread; [|discriminate].
  apply bind_Done in H as ([loc sh1] & Hscan & H). injection H as <-.
  apply profile_scan_collects in Hscan as (G & Hi & Hc & Hcl).
  split; [exact G|]. split.
  - exists ast. split; [exact Hread|]. split; [exact Hi | exact Hc].
  - intros p Hp Hn. destruct (Hcl p Hp Hn) as (a & Ha & Hai & Hac).
    exists a. repeat split; assumption.
Qed.

End Profiled.

Lemma profileData_profiles (fuel : nat) (env : Env) :
  forall (solidityFile : string) (sh sh' : ProfileState),
    profileData fuel env solidityFile sh = Done sh' ->
    grows sh sh'
    /\ profiled env solidityFile sh'
    /\ closed_under_imports env sh sh'.
Proof.
  induction fuel as [|fuel IH]; intros solidityFile sh sh' H; [discriminate|].
  simpl in H. revert H. apply profileData_body_profiles.
  intros p s s'. apply IH.
Qed.

(** X7.  When profiling of a file returns, the ignore list holds the
    names of all events and structs, and the contract list the names of
    all contracts, of that file and of every file that came onto the
    visited list during the call; nothing that was in the three lists
    before is lost. *)
Theorem X7_profiling_collects_names :
  forall (fuel : nat) (env : Env) (solidityFile : string) (sh sh' : ProfileState),
    profileData fuel env solidityFile sh = Done sh' ->
    grows sh sh'
    /\ profiled env solidityFile sh'
    /\ closed_under_imports env sh sh'.
Proof.
  intros fuel env solidityFile sh sh'. apply profileData_profiles.
Qed.

(** Profiling Main.sol, which imports Lib.sol with its struct [Point]. *)
Lemma X7_profiling_collects_names_witness :
  profileData 2 Samples.library "/c/Main.sol" (mkProfileState [] [] [] [])
  = Done Fixtures.profiledMain
  /\ grows (mkProfileState [] [] [] []) Fixtures.profiledMain
  /\ profiled Samples.library "/c/Main.sol" Fixtures.profiledMain
  /\ closed_under_imports Samples.library (mkProfileState [] [] [] [])
                          Fixtures.profiledMain.
Proof.
  split; [reflexivity|].
  exact (@X7_profiling_collects_names 2 Samples.library "/c/Main.sol"
           (mkProfileState [] [] [] []) Fixtures.profiledMain eq_refl).
Defined.

(** ** Profiling returns or throws *)

Lemma includes_map_Some (l : list string) (x : string) :
  includes_opt (map Some l) (Some x) = includes l (Some x).
Proof.
  induction l as [|y l IH]; simpl; [reflexivity|]. now rewrite IH.
Qed.

Lemma unvisited_snoc_profile (files visited : list string) (p : string) :
  In p files ->
  includes visited (Some p) = false ->
  List.length (unvisited files (map Some (visited ++ [p])))
  < List.length (unvisited files (map Some visited)).
Proof.
  intros Hin Hnew. rewrite map_app. simpl.
  apply unvisited_snoc; [exact Hin|]. now rewrite includes_map_Some.
Qed.

Section ProfileReturns.

Variable env : Env.
Variable files : list string.
Hypothesis files_cover : forall p ast, readFile env p = Some ast -> In p files.

Variable fuel : nat.
Variable rec : string -> ProfileState -> outcome ProfileState.
Hypothesis rec_grows :
  forall p sh sh', rec p sh = Done sh' -> grows sh sh'.
Hypothesis rec_returns :
  forall p sh,
    S (List.length (unvisited files (map Some (pf_importVisited sh)))) < fuel
    \/ (1 <= fuel /\ readFile env p = None) ->
    rec p sh <> OutOfFuel.

Variable visited : list string.
Hypothesis budget : List.length (unvisited files (map Some visited)) < fuel.

Lemma onProfileNode_returns (solidityFile : string) (n : ProfileNode)
    (loc : ProfileLocals) (sh : ProfileState) :
  incl visited (pf_importVisited sh) ->
  onProfileNode env rec solidityFile (loc, sh) n <> OutOfFuel
  /\ (forall loc' sh',
         onProfileNode env rec solidityFile (loc, sh) n = Done (loc', sh') ->
         incl visited (pf_importVisited sh')).
Proof.
  intros Hsh.
  destruct n as [node|nm|nm|nm|path]; simpl;
    try (split; [discriminate | intros loc' sh' H; now injection H as _ <-]).
  destruct (includes (pf_importVisited sh) (Some (importPath env solidityFile path)))
    eqn:Hinc; simpl;
    [split; [discriminate | intros loc' sh' H; now injection H as _ <-]|].
  set (np := importPath env solidityFile path) in *.
  set (sh0 := mkProfileState (pf_importVisited sh ++ [np])%list (pf_ignoresList sh)
                             (pf_contractsList sh) (pf_variableType sh)).
  assert (Hrec : rec np sh0 <> OutOfFuel).
  { apply rec_returns.
    destruct (readFile env np) as [ast|] eqn:Hread; [|right; split; [lia | reflexivity]].
    left. simpl.
    pose proof (unvisited_snoc_profile files (pf_importVisited sh) np
                  (files_cover np Hread) Hinc).
    assert (Hle : List.length (unvisited files (map Some (pf_importVisited sh)))
                  <= List.length (unvisited files (map Some visited))).
    { apply unvisited_incl. intros x Hx. apply in_map_iff in Hx as (y & <- & Hy).
      apply in_map, Hsh, Hy. }
    lia. }
  split.
  - destruct (rec np sh0); simpl; [discriminate | discriminate | congruence].
  - intros loc' sh' H. apply bind_Done in H as (sh1 & Hrun & H). injection H as _ <-.
    apply rec_grows in Hrun as (Gv & _). simpl in Gv.
    intros x Hx. apply Gv, in_or_app. left. now apply Hsh.
Qed.

Lemma profileData_body_returns (solidityFile : string) (sh : ProfileState) :
  pf_importVisited sh = visited ->
  profileData_body env rec solidityFile sh <> OutOfFuel.
Proof.
  intros Hv. unfold profileData_body.
  destruct (readFile env solidityFile) as [ast|]; [|discriminate].
  assert (Hscan : forEach (onProfileNode env rec solidityFile) (profile_nodes ast)
                          (mkProfileLocals "" [], sh) <> OutOfFuel).
  { apply (forEach_returns
             (fun s : ProfileLocals * ProfileState => incl visited (pf_importVisited (snd s)))).
    - intros [loc s1] n _ Hs1. simpl in Hs1.
      destruct (onProfileNode_returns solidityFile n loc s1 Hs1) as [Hne Hnext].
      split; [exact Hne|]. intros [loc2 s2] H. simpl. eapply Hnext; eauto.
    - simpl. rewrite Hv. apply incl_refl. }
  destruct (forEach _ _ _) as [[loc s1]| |]; simpl; [discriminate|discriminate|congruence].
Qed.

End ProfileReturns.

(** X8.  On a file system with finitely many readable files, profiling
    returns or throws, also when files import each other: a recursion
    depth of two more than the number of readable files that are not yet
    in the visited list is never exceeded. *)
Theorem X8_profiling_returns_or_throws :
  forall (env : Env) (files : list string),
    (forall p ast, readFile env p = Some ast -> In p files) ->
    forall (fuel : nat) (solidityFile : string) (sh : ProfileState),
      S (List.length (unvisited files (map Some (pf_importVisited sh)))) < fuel ->
      profileData fuel env solidityFile sh <> OutOfFuel.
Proof.
  intros env files Hcover fuel solidityFile sh Hfuel.
  assert (Hall : forall n p s,
             S (List.length (unvisited files (map Some (pf_importVisited s)))) < n
             \/ (1 <= n /\ readFile env p = None) ->
             profileData n env p s <> OutOfFuel).
  { induction n as [|n IH]; intros p s Hn; [lia|].
    simpl.
    destruct (readFile env p) as [ast|] eqn:Hread.
    - apply (@profileData_body_returns env files Hcover n (profileData n env)
               (fun q a b H => proj1 (@profileData_profiles n env q a b H))
               IH (pf_importVisited s)).
      + destruct Hn as [Hn | [_ Hn]]; [lia | congruence].
      + reflexivity.
    - unfold profileData_body. rewrite Hread. discriminate. }
  apply Hall. now left.
Qed.

(** A.sol and B.sol import each other; nothing is visited yet. *)
Lemma X8_profiling_returns_or_throws_witness :
  (forall p ast, readFile Samples.cyclic p = Some ast -> In p ["/c/A.sol"; "/c/B.sol"])
  /\ S (List.length (unvisited ["/c/A.sol"; "/c/B.sol"] (map Some []))) < 4
  /\ profileData 4 Samples.cyclic "/c/A.sol" (mkProfileState [] [] [] []) <> OutOfFuel.
Proof.
  assert (Hcover : forall p ast, readFile Samples.cyclic p = Some ast ->
                                 In p ["/c/A.sol"; "/c/B.sol"]).
  { intros p ast H. simpl in H.
    destruct (String.eqb p "/c/A.sol") eqn:EA;
      [apply String.eqb_eq in EA; subst; now left|].
    destruct (String.eqb p "/c/B.sol") eqn:EB;
      [apply String.eqb_eq in EB; subst; right; now left | discriminate]. }
  split; [exact Hcover|]. split; [simpl; lia|].
  apply (@X8_profiling_returns_or_throws Samples.cyclic ["/c/A.sol"; "/c/B.sol"]
           Hcover 4 "/c/A.sol" (mkProfileState [] [] [] [])).
  simpl. lia.
Defined.

(** ** The type of an identifier argument *)

(** Once [argType] is set, no later declaration is read. *)
Lemma argType_set (x : option string) :
  forall (l : list (option string * VariableDeclaration)) (t : string),
    forEach (fun argType (kv : option string * VariableDeclaration) =>
               if key_is (fst kv) x && negb (is_defined argType)
               then declaredType (snd kv) else Done argType)
            l (Some t)
    = Done (Some t).
Proof.
  induction l as [|kv l IH]; intros t; simpl; [reflexivity|].
  rewrite andb_false_r. simpl. apply IH.
Qed.

Lemma argType_unset (x : string) :
  forall l : list (option string * VariableDeclaration),
    forEach (fun argType (kv : option string * VariableDeclaration) =>
               if key_is (fst kv) (Some x) && negb (is_defined argType)
               then declaredType (snd kv) else Done argType)
            l None
    = match find (settles x) l with
      | Some kv => declaredType (snd kv)
      | None => Done None
      end.
Proof.
  induction l as [|kv l IH]; simpl; [reflexivity|].
  unfold settles at 1, declaredType at 1.
  destruct (key_is (fst kv) (Some x)); simpl; [|exact IH].
  destruct (typeName (snd kv)) as [t|] eqn:Ht; simpl.
  - destruct (type_of t) as [ty|] eqn:Hty; simpl.
    + unfold declaredType. rewrite Ht, Hty. apply (argType_set (Some x)).
    + exact IH.
  - unfold declaredType. rewrite Ht. reflexivity.
Qed.

(** The nested loops read the declarations of the registry in one
    sequence, contract after contract. *)
Lemma lookupArgType_entries (variableTypeMap : VariableTypeMap) (x : option string) :
  lookupArgType variableTypeMap x
  = forEach (fun argType (kv : option string * VariableDeclaration) =>
               if key_is (fst kv) x && negb (is_defined argType)
               then declaredType (snd kv) else Done argType)
            (registry_entries variableTypeMap) None.
Proof.
  unfold lookupArgType, registry_entries. generalize (@None string) as acc.
  induction variableTypeMap as [|valueVar rest IH]; intros acc; simpl; [reflexivity|].
  rewrite forEach_app. apply bind_ext. exact IH.
Qed.

(** X9.  The segment of an identifier argument [x] is settled by the
    first declaration named [x], searching the registry contract after
    contract whatever contract the call is in, that has no type name at
    all or a type with a name or a name path.  If it has no type name
    ([x] declared by [var (x, y) = ...]) the resolver throws; otherwise
    the segment is [:T] for its type [T].  Declarations of [x] whose type
    is an array or a mapping are passed over, and if no declaration
    settles the type the segment is [:undefined]. *)
Theorem X9_identifier_argument_type :
  forall (variableTypeMap : VariableTypeMap) (x : string),
    argSegment variableTypeMap (Identifier x)
    = match find (settles x) (registry_entries variableTypeMap) with
      | Some kv =>
          match typeName (snd kv) with
          | Some t => Done (":" ++ js_str (type_of t))
          | None => Throw TypeError
          end
      | None => Done ":undefined"
      end
    /\ (forall kv, find (settles x) (registry_entries variableTypeMap) = Some kv ->
                   fst kv = Some x
                   /\ forall t, typeName (snd kv) = Some t -> type_of t <> None).
Proof.
  intros variableTypeMap x. split.
  - unfold argSegment. simpl.
    rewrite lookupArgType_entries, argType_unset.
    destruct (find (settles x) (registry_entries variableTypeMap)) as [kv|];
      [|reflexivity].
    unfold declaredType. destruct (typeName (snd kv)); reflexivity.
  - intros kv H. apply find_some in H as [_ H]. unfold settles in H.
    apply andb_true_iff in H as [Hk Ht]. split.
    + unfold key_is in Hk. destruct (fst kv) as [k|]; [|discriminate].
      apply String.eqb_eq in Hk. now subst.
    + intros t Heq. rewrite Heq in Ht. destruct (type_of t); [discriminate | discriminate].
Qed.

(** ** Where a resolved identifier comes from *)

Lemma findAndRenameCall_absent_record (fuel : nat) (cs : list ContractRecord)
    (contractRoot : ContractRecord) (variableTypeMap : VariableTypeMap)
    (call : CallRef) (r : option string) :
  findAndRenameCall fuel (Some cs) contractRoot None variableTypeMap call <> Done r.
Proof. destruct fuel; discriminate. Qed.

Lemma findAndRenameCall_reachable (cs : list ContractRecord)
    (contractRoot : ContractRecord) (variableTypeMap : VariableTypeMap) (call : CallRef) :
  forall (fuel : nat) (info : ContractRecord) (s : string),
    findAndRenameCall fuel (Some cs) contractRoot (Some info) variableTypeMap call
    = Done (Some s) ->
    exists (c : ContractRecord) (m : MethodRecord),
      reachable cs info c
      /\ findMethod c call = Some m
      /\ localDefinition c variableTypeMap call = Done s.
Proof.
  induction fuel as [|fuel IH]; intros info s Hrun; [discriminate|].
  set (P := fun t : string =>
              exists (c : ContractRecord) (m : MethodRecord),
                reachable cs info c /\ findMethod c call = Some m
                /\ localDefinition c variableTypeMap call = Done t).
  assert (Hstep : forall n r t,
             In n (consulted info) ->
             findAndRenameCall fuel (Some cs) contractRoot (findContract cs n)
                               variableTypeMap call = Done r ->
             r = Some t -> P t).
  { intros n r t Hn Hr ->.
    destruct (findContract cs n) as [c'|] eqn:Hc';
      [|now apply findAndRenameCall_absent_record in Hr].
    apply IH in Hr as (c & m & Hreach & Hfind & Hs).
    exists c, m. split; [|split; assumption].
    eapply reachable_step; eauto. }
  destruct (findMethod info call) as [m|] eqn:Hfind.
  - rewrite (findAndRenameCall_hit _ _ _ _ _ _ Hfind) in Hrun.
    apply bind_Done in Hrun as (functionDefinition & Hbuild & Hrun).
    injection Hrun as <-. exists info, m. split; [constructor | split; auto].
  - rewrite findAndRenameCall_miss in Hrun by exact Hfind.
    apply bind_Done in Hrun as (found & Hanc & Hrun).
    assert (Hfound : forall t, found = Some t -> P t).
    { revert Hanc.
      apply (forEach_invariant (fun acc => forall t, acc = Some t -> P t));
        [|discriminate].
      intros acc e acc' He Hacc Hrec t Ht.
      apply bind_Done in Hrec as (r & Hr & Hrec). injection Hrec as <-.
      destruct r as [r|]; simpl in Ht.
      - injection Ht as <-.
        apply (Hstep e (Some r) r); [apply in_or_app; now left | exact Hr | reflexivity].
      - now apply Hacc. }
    destruct found as [t|].
    + injection Hrun as <-. now apply Hfound.
    + assert (Hs : forall t, Some s = Some t -> P t); [|now apply Hs].
      eapply (forEach_invariant (fun acc => forall t, acc = Some t -> P t));
        [| |exact Hrun]; [|discriminate].
      intros acc e acc' He Hacc Hrec t Ht. cbv beta in Hrec.
      destruct (negb _) in Hrec.
      * apply bind_Done in Hrec as (r & Hr & Hrec). injection Hrec as <-.
        destruct r as [r|]; simpl in Ht.
        -- injection Ht as <-.
           apply (Hstep (Path.parse_name e) (Some r) r);
             [apply in_or_app; right; now apply in_map | exact Hr | reflexivity].
        -- now apply Hacc.
      * injection Hrec as <-. now apply Hacc.
Qed.

(** X10.  A resolved identifier is never invented: it is the identifier
    built in a record that defines a function with the callee's name and
    that the resolver can get to from the current record through records
    of bases and of imports present in the universe; it consists of that
    record's contract name, the callee as written and the argument
    segments. *)
Theorem X10_resolved_in_reachable_record :
  forall (fuel : nat) (cs : list ContractRecord) (contractRoot info : ContractRecord)
         (variableTypeMap : VariableTypeMap) (call : CallRef) (s : string),
    findAndRenameCall fuel (Some cs) contractRoot (Some info) variableTypeMap call
    = Done (Some s) ->
    exists (c : ContractRecord) (m : MethodRecord) (callee : string) (tys : list string),
      reachable cs info c
      /\ findMethod c call = Some m
      /\ name call = Some callee
      /\ s = js_str (contractName c) ++ ":" ++ callee ++ segments tys.
Proof.
  intros fuel cs contractRoot info variableTypeMap call s Hrun.
  apply findAndRenameCall_reachable in Hrun as (c & m & Hreach & Hfind & Hbuild).
  destruct (localDefinition_form _ _ _ Hbuild) as (tys & Htys).
  pose proof (findMethod_name _ _ Hfind) as [_ Hname].
  exists c, m, (functionName m), tys.
  repeat split; auto. rewrite Htys, Hname. reflexivity.
Qed.

(** [Child is A, B] calls [f(msg.sender)]. *)
Lemma X10_resolved_in_reachable_record_witness :
  findAndRenameCall 2 (Some [Samples.baseA; Samples.baseB; Samples.child])
    Samples.child (Some Samples.child) [] Samples.call_f_sender
  = Done (Some "B:f:address")
  /\ exists (c : ContractRecord) (m : MethodRecord) (callee : string) (tys : list string),
       reachable [Samples.baseA; Samples.baseB; Samples.child] Samples.child c
       /\ findMethod c Samples.call_f_sender = Some m
       /\ name Samples.call_f_sender = Some callee
       /\ "B:f:address" = js_str (contractName c) ++ ":" ++ callee ++ segments tys.
Proof.
  split; [reflexivity|].
  exact (@X10_resolved_in_reachable_record 2
           [Samples.baseA; Samples.baseB; Samples.child] Samples.child Samples.child
           [] Samples.call_f_sender "B:f:address" eq_refl).
Defined.

(** X11.  On a universe in which every name a record may look up has a
    record and the records can be ranked so that bases and imports rank
    below the record that names them, a call that no record of the
    universe defines resolves to the unresolved marker, at every
    recursion depth above the rank of the current record. *)
Theorem X11_undefined_callee_unresolved :
  forall (cs : list ContractRecord) (contractRoot : ContractRecord)
         (variableTypeMap : VariableTypeMap) (call : CallRef)
         (rank : ContractRecord -> nat),
    (forall (c : ContractRecord) (n : string),
        In c cs -> In n (consulted c) ->
        exists c', findContract cs n = Some c' /\ rank c' < rank c) ->
    (forall c, In c cs -> findMethod c call = None) ->
    forall (fuel : nat) (info : ContractRecord),
      In info cs -> rank info < fuel ->
      findAndRenameCall fuel (Some cs) contractRoot (Some info) variableTypeMap call
      = Done None.
Proof.
  intros cs contractRoot variableTypeMap call rank Hrank Hnone fuel info Hin Hfuel.
  assert (Hlocal : forall (c : ContractRecord) (m : MethodRecord),
             In c cs -> findMethod c call = Some m ->
             exists s, localDefinition c variableTypeMap call = Done s).
  { intros c m Hc Hm. rewrite (Hnone c Hc) in Hm. discriminate. }
  destruct (@findAndRenameCall_returns cs contractRoot variableTypeMap call rank Hrank
              Hlocal fuel info Hin Hfuel) as (r & Hr).
  rewrite Hr. f_equal.
  eapply findAndRenameCall_unresolved; eauto.
Qed.

(** [Child is A, B] calls [check()], which nobody defines. *)
Lemma X11_undefined_callee_unresolved_witness :
  findAndRenameCall 3 (Some [Samples.baseA; Samples.baseB; Samples.child])
    Samples.child (Some Samples.child) [] Samples.call_check
  = Done None.
Proof.
  apply (@X11_undefined_callee_unresolved
           [Samples.baseA; Samples.baseB; Samples.child] Samples.child []
           Samples.call_check (fun c => List.length (extendsContracts c))).
  - intros c n [<- | [<- | [<- | []]]]; simpl; try contradiction.
    intros [<- | [<- | [<- | [<- | []]]]]; vm_compute; eauto.
  - intros c [<- | [<- | [<- | []]]]; reflexivity.
  - simpl. auto.
  - simpl. lia.
Defined.

(** ** Bases before imports *)

(** X12.  If the current record does not define the callee and one of
    its bases resolves the call while no base after it does, the result
    is that base's, whatever the record imports: once a base has resolved
    the call the imports are not looked at (so an import without a record
    does no harm then). *)
Theorem X12_base_result_shadows_imports :
  forall (fuel : nat) (cs : list ContractRecord) (contractRoot info : ContractRecord)
         (variableTypeMap : VariableTypeMap) (call : CallRef)
         (before after : list string) (B : string) (s : string),
    findMethod info call = None ->
    extendsContracts info = (before ++ B :: after)%list ->
    Forall (fun e => exists r, findAndRenameCall fuel (Some cs) contractRoot
                                 (findContract cs e) variableTypeMap call = Done r)
           before ->
    findAndRenameCall fuel (Some cs) contractRoot (findContract cs B) variableTypeMap call
    = Done (Some s) ->
    Forall (fun e => findAndRenameCall fuel (Some cs) contractRoot (findContract cs e)
                       variableTypeMap call = Done None)
           after ->
    findAndRenameCall (S fuel) (Some cs) contractRoot (Some info) variableTypeMap call
    = Done (Some s).
Proof.
  intros fuel cs contractRoot info variableTypeMap call before after B s
         Hmiss Hext Hbefore HB Hafter.
  rewrite findAndRenameCall_miss by exact Hmiss. rewrite Hext.
  rewrite (@ancestors_last_wins fuel cs contractRoot variableTypeMap call B s HB
             after Hafter before None Hbefore).
  reflexivity.
Qed.

(** [Wallet] given the base [A]: the import of SafeMath.sol, which has no
    record, is not looked at. *)
Lemma X12_base_result_shadows_imports_witness :
  findAndRenameCall 2
    (Some [Samples.baseA;
           mkContractRecord (Some "Wallet") ["A"] ["/c/SafeMath.sol"] []])
    Samples.baseA
    (Some (mkContractRecord (Some "Wallet") ["A"] ["/c/SafeMath.sol"] []))
    [] Samples.call_f_value
  = Done (Some "A:f:uint256").
Proof.
  apply (@X12_base_result_shadows_imports 1
           [Samples.baseA;
            mkContractRecord (Some "Wallet") ["A"] ["/c/SafeMath.sol"] []]
           Samples.baseA
           (mkContractRecord (Some "Wallet") ["A"] ["/c/SafeMath.sol"] [])
           [] Samples.call_f_value [] [] "A" "A:f:uint256").
  - reflexivity.
  - reflexivity.
  - constructor.
  - reflexivity.
  - constructor.
Defined.

(** ** Resolution does not read the calls *)

Lemma forEach_ext {A S : Type} (f g : S -> A -> outcome S) :
  (forall s a, f s a = g s a) ->
  forall (arr : list A) (s : S), forEach f arr s = forEach g arr s.
Proof.
  intros Hfg. induction arr as [|a rest IH]; intros s; simpl; [reflexivity|].
  rewrite Hfg. destruct (g s a); simpl; auto.
Qed.

Lemma find_by_name (p : string -> bool) :
  forall l l' : list MethodRecord,
    map functionName l = map functionName l' ->
    (find (fun m => p (functionName m)) l = None
     <-> find (fun m => p (functionName m)) l' = None).
Proof.
  induction l as [|m l IH]; intros [|m' l'] Hmap; simpl in *; try discriminate;
    [tauto|].
  injection Hmap as Hname Hrest. rewrite Hname.
  destruct (p (functionName m')); [split; discriminate | now apply IH].
Qed.

Lemma findMethod_same_links (c c' : ContractRecord) (call : CallRef) :
  same_links c c' ->
  (findMethod c call = None <-> findMethod c' call = None).
Proof.
  intros (_ & _ & _ & Hnames). unfold findMethod.
  apply (find_by_name (fun n => str_eq_opt n (name call))). exact Hnames.
Qed.

Lemma findContract_same_links (n : string) :
  forall cs cs' : list ContractRecord,
    Forall2 same_links cs cs' ->
    match findContract cs n, findContract cs' n with
    | Some c, Some c' => same_links c c'
    | None, None => True
    | _, _ => False
    end.
Proof.
  intros cs cs' H. unfold findContract.
  induction H as [|c c' cs cs' Hc _ IH]; simpl; [exact I|].
  pose proof Hc as (Hname & _). rewrite <- Hname.
  destruct (opt_str_eqb (contractName c) (Some n)); [exact Hc | exact IH].
Qed.

Lemma findAndRenameCall_same_links (cs cs' : list ContractRecord)
    (contractRoot contractRoot' : ContractRecord)
    (variableTypeMap : VariableTypeMap) (call : CallRef) :
  Forall2 same_links cs cs' ->
  forall (fuel : nat) (contractInfo contractInfo' : option ContractRecord),
    match contractInfo, contractInfo' with
    | Some c, Some c' => same_links c c'
    | None, None => True
    | _, _ => False
    end ->
    findAndRenameCall fuel (Some cs) contractRoot contractInfo variableTypeMap call
    = findAndRenameCall fuel (Some cs') contractRoot' contractInfo' variableTypeMap call.
Proof.
  intros Hcs. induction fuel as [|fuel IH]; intros contractInfo contractInfo' Hrel;
    [reflexivity|].
  destruct contractInfo as [info|], contractInfo' as [info'|];
    try contradiction; [|reflexivity].
  pose proof (@findMethod_same_links info info' call Hrel) as Hfind.
  pose proof Hrel as (Hname & Hext & Himp & _).
  destruct (findMethod info call) as [m|] eqn:Hm;
  destruct (findMethod info' call) as [m'|] eqn:Hm'.
  - rewrite (findAndRenameCall_hit _ _ _ _ _ _ Hm),
            (findAndRenameCall_hit _ _ _ _ _ _ Hm').
    unfold localDefinition. rewrite Hname. reflexivity.
  - destruct Hfind as [_ Hfind]. specialize (Hfind eq_refl). discriminate.
  - destruct Hfind as [Hfind _]. specialize (Hfind eq_refl). discriminate.
  - rewrite !findAndRenameCall_miss by assumption.
    rewrite <- Hext, <- Himp.
    assert (Hrec : forall n,
               findAndRenameCall fuel (Some cs) contractRoot (findContract cs n)
                                 variableTypeMap call
               = findAndRenameCall fuel (Some cs') contractRoot' (findContract cs' n)
                                   variableTypeMap call).
    { intros n. apply IH. apply findContract_same_links. exact Hcs. }
    rewrite (forEach_ext _
               (fun foundResult extending =>
                  result <- findAndRenameCall fuel (Some cs') contractRoot'
                              (findContract cs' extending) variableTypeMap call ;;
                  Done (overwrite foundResult result))
               (fun acc e => f_equal (fun o => bind o _) (Hrec e))).
    match goal with
    | |- bind ?m _ = bind ?m _ => destruct m as [found| |]; simpl; try reflexivity
    end.
    destruct found; [reflexivity|].
    apply forEach_ext. intros acc e.
    destruct (negb _); [|reflexivity]. now rewrite Hrec.
Qed.

(** X13.  The resolver reads of a contract record only its name, its
    bases, its import paths and the names of its functions, and does not
    read the root record: on two universes that agree on these, from two
    records that agree on these, it gives the same result (also the same
    exception), whatever the recorded calls are.  The overwriting of
    call names during linking therefore does not change what later calls
    resolve to. *)
Theorem X13_resolution_ignores_recorded_calls :
  forall (fuel : nat) (cs cs' : list ContractRecord)
         (contractRoot contractRoot' info info' : ContractRecord)
         (variableTypeMap : VariableTypeMap) (call : CallRef),
    Forall2 same_links cs cs' ->
    same_links info info' ->
    findAndRenameCall fuel (Some cs) contractRoot (Some info) variableTypeMap call
    = findAndRenameCall fuel (Some cs') contractRoot' (Some info') variableTypeMap call.
Proof.
  intros fuel cs cs' contractRoot contractRoot' info info' variableTypeMap call Hcs Hinfo.
  apply findAndRenameCall_same_links; assumption.
Qed.

(** [Child] and its bases before and after linking. *)
Lemma X13_resolution_ignores_recorded_calls_witness :
  Forall2 same_links [Samples.baseA; Samples.baseB; Samples.child]
                     [Samples.baseA; Samples.baseB; Samples.linkedChild]
  /\ findAndRenameCall 2 (Some [Samples.baseA; Samples.baseB; Samples.child])
       Samples.child (Some Samples.child) [] Samples.call_f_sender
     = findAndRenameCall 2 (Some [Samples.baseA; Samples.baseB; Samples.linkedChild])
         Samples.baseA (Some Samples.linkedChild) [] Samples.call_f_sender.
Proof.
  assert (Hcs : Forall2 same_links [Samples.baseA; Samples.baseB; Samples.child]
                        [Samples.baseA; Samples.baseB; Samples.linkedChild]).
  { repeat constructor. }
  split; [exact Hcs|].
  apply (@X13_resolution_ignores_recorded_calls 2 _ _ Samples.child Samples.baseA
           Samples.child Samples.linkedChild [] Samples.call_f_sender Hcs).
  repeat constructor.
Defined.

(** ** What linking changes and what it keeps *)

Lemma renameCall_linked (fuel : nat) (universe : list ContractRecord)
    (contractInfo : ContractRecord) (variableTypeMap : VariableTypeMap)
    (call call' : CallRef) :
  renameCall fuel universe contractInfo variableTypeMap call = Done call' ->
  linked_call fuel universe contractInfo variableTypeMap call call'.
Proof.
  unfold renameCall. intros H.
  apply bind_Done in H as (r & Hr & H). injection H as <-.
  split; [reflexivity | exact Hr].
Qed.

Lemma renameMethod_linked (fuel : nat) (universe : list ContractRecord)
    (contractInfo : ContractRecord) (variableTypeMap : VariableTypeMap)
    (method method' : MethodRecord) :
  renameMethod fuel universe contractInfo variableTypeMap method = Done method' ->
  linked_method fuel universe contractInfo variableTypeMap method method'.
Proof.
  unfold renameMethod. intros H.
  apply bind_Done in H as (calls & Hcalls & H). injection H as <-.
  split; [reflexivity|]. split; [reflexivity|]. simpl.
  apply mapM_Forall2 in Hcalls.
  eapply Forall2_impl; [|exact Hcalls].
  intros a b. apply renameCall_linked.
Qed.

Lemma renameContract_linked (fuel : nat) (universe : list ContractRecord)
    (variableTypeMap : VariableTypeMap) (c c' : ContractRecord) :
  renameContract fuel universe variableTypeMap c = Done c' ->
  linked_contract fuel universe variableTypeMap c c'.
Proof.
  unfold renameContract. intros H.
  apply bind_Done in H as (methods & Hms & H). injection H as <-.
  split; [reflexivity|]. split; [reflexivity|]. split; [reflexivity|]. simpl.
  apply mapM_Forall2 in Hms.
  eapply Forall2_impl; [|exact Hms].
  intros a b. apply renameMethod_linked.
Qed.

Lemma renameToSymLinks_linked (fuel : nat) (allContractsData linked : list FileData)
    (variableTypeMap : VariableTypeMap) :
  renameToSymLinks fuel allContractsData variableTypeMap = Done linked ->
  Forall2 (linked_file fuel variableTypeMap) allContractsData linked.
Proof.
  unfold renameToSymLinks. intros H. apply mapM_Forall2 in H.
  eapply Forall2_impl; [|exact H].
  intros d d' Hd. cbv beta in Hd.
  apply bind_Done in Hd as (cs & Hcs & Hd). injection Hd as <-.
  split; [reflexivity|]. simpl.
  apply mapM_Forall2 in Hcs.
  eapply Forall2_impl; [|exact Hcs].
  intros a b. apply renameContract_linked.
Qed.

Lemma Forall2_map_eq {A B C : Type} (R : A -> B -> Prop) (f : A -> C) (g : B -> C) :
  (forall a b, R a b -> g b = f a) ->
  forall (l : list A) (l' : list B), Forall2 R l l' -> map g l' = map f l.
Proof.
  intros HR l l' H. induction H as [|a b l l' Hab _ IH]; simpl; [reflexivity|].
  now rewrite (HR a b Hab), IH.
Qed.

Lemma linked_contract_same_links (fuel : nat) (universe : list ContractRecord)
    (variableTypeMap : VariableTypeMap) (c c' : ContractRecord) :
  linked_contract fuel universe variableTypeMap c c' -> same_links c c'.
Proof.
  intros (Hn & He & Hi & Hm). repeat split; try (symmetry; assumption).
  symmetry. eapply Forall2_map_eq; [|exact Hm].
  intros a b (H & _). exact H.
Qed.

(** X14.  When linking completes, every file keeps its name and its
    contracts in number and order; every contract keeps its name, bases,
    import paths and its functions in number and order; every function
    keeps its name and its signature and its calls in number and order;
    every call keeps its arguments, and its name is what the resolver
    returns for the call as extracted, resolved from its own contract in
    the universe of its own file as extracted. *)
Theorem X14_linking_rewrites_names_only :
  forall (fuel : nat) (allContractsData linked : list FileData)
         (variableTypeMap : VariableTypeMap),
    renameToSymLinks fuel allContractsData variableTypeMap = Done linked ->
    Forall2 (linked_file fuel variableTypeMap) allContractsData linked
    /\ Forall2 (fun data data' => Forall2 same_links (contract data) (contract data'))
               allContractsData linked.
Proof.
  intros fuel allContractsData linked variableTypeMap H.
  apply renameToSymLinks_linked in H. split; [exact H|].
  eapply Forall2_impl; [|exact H].
  intros d d' (_ & Hcs). eapply Forall2_impl; [|exact Hcs].
  intros c c'. apply linked_contract_same_links.
Qed.

(** Linking [Child] and its bases. *)
Lemma X14_linking_rewrites_names_only_witness :
  renameToSymLinks 2 Samples.childData [] = Done Samples.linkedChildData
  /\ Forall2 (linked_file 2 []) Samples.childData Samples.linkedChildData
  /\ Forall2 (fun data data' => Forall2 same_links (contract data) (contract data'))
             Samples.childData Samples.linkedChildData.
Proof.
  split; [reflexivity|].
  exact (@X14_linking_rewrites_names_only 2 Samples.childData Samples.linkedChildData
           [] eq_refl).
Defined.

(** ** The result of [parsing] *)

Lemma processData_readable (fuel : nat) (env : Env) (solidityFile : string)
    (importVisited visited' : list (option string))
    (ignoresList contractsList : list string) (records : list ContractRecord) :
  processData fuel env (Some solidityFile) importVisited ignoresList contractsList
  = Done (records, visited') ->
  exists ast, readFile env solidityFile = Some ast.
Proof.
  destruct fuel as [|fuel]; [discriminate|]. simpl. unfold processData_body.
  destruct (readFile env solidityFile) as [ast|]; [eauto | discriminate].
Qed.

Lemma processData_own (fuel : nat) (env : Env) (solidityFile : string)
    (importVisited visited' : list (option string))
    (ignoresList contractsList : list string) (records : list ContractRecord) :
  processData fuel env (Some solidityFile) importVisited ignoresList contractsList
  = Done (records, visited') ->
  exists ast dependencies,
    readFile env solidityFile = Some ast
    /\ records
       = (dependencies ++ [ownRecord env contractsList ignoresList solidityFile ast])%list.
Proof.
  intros H. destruct (processData_readable _ _ _ _ _ _ H) as (ast & Hread).
  destruct fuel as [|fuel]; [discriminate|]. simpl in H.
  exists ast. destruct (@processData_body_own env ignoresList contractsList
                          (fun nodePath visited =>
                             processData fuel env nodePath visited ignoresList contractsList)
                          solidityFile ast importVisited visited' records Hread H)
    as (deps & Hdeps).
  exists deps. split; assumption.
Qed.

(** The loop of [parsing] over the entry files. *)
Lemma parsing_loop (fuel : nat) (env : Env) :
  forall (files : list string) (acc acc' : list FileData * VariableTypeMap),
    forEach (fun (acc : list FileData * VariableTypeMap) file =>
               let '(contractsArray, variableTypeMap) := acc in
               sh <- profileData fuel env file
                       (mkProfileState [] [] [] variableTypeMap) ;;
               '(contract, _) <- processData fuel env (Some file) []
                                   (pf_ignoresList sh) (pf_contractsList sh) ;;
               Done ((contractsArray ++ [mkFileData file contract])%list,
                     pf_variableType sh))
            files acc = Done acc' ->
    exists added : list FileData,
      fst acc' = (fst acc ++ added)%list
      /\ Forall2 (fun f data =>
                    file data = f
                    /\ exists ignoresList contractsList visited',
                         processData fuel env (Some f) [] ignoresList contractsList
                         = Done (contract data, visited'))
                 files added.
Proof.
  induction files as [|f files IH]; simpl forEach; intros [arr vtm] acc' H.
  - injection H as <-. exists []. simpl. rewrite app_nil_r. split; constructor.
  - apply bind_Done in H as ([arr1 vtm1] & Hstep & H).
    apply bind_Done in Hstep as (sh & _ & Hstep).
    apply bind_Done in Hstep as ([records v'] & Hproc & Hstep).
    injection Hstep as <- <-.
    apply IH in H as (added & Hacc & Hall). simpl in Hacc.
    exists (mkFileData f records :: added). split.
    + simpl. rewrite Hacc, <- app_assoc. reflexivity.
    + constructor; [|exact Hall]. split; [reflexivity|]. simpl. eauto.
Qed.

Lemma Forall2_compose {A B C : Type} (R1 : A -> B -> Prop) (R2 : B -> C -> Prop) :
  forall (l1 : list A) (l2 : list B) (l3 : list C),
    Forall2 R1 l1 l2 -> Forall2 R2 l2 l3 ->
    Forall2 (fun a c => exists b, R1 a b /\ R2 b c) l1 l3.
Proof.
  intros l1 l2 l3 H. revert l3.
  induction H as [|a b l1 l2 Hab _ IH]; intros l3 H23; inversion H23; subst;
    constructor; eauto.
Qed.

Lemma Forall2_singleton_l {A B : Type} (R : A -> B -> Prop) (a : A) (l' : list B) :
  Forall2 R [a] l' -> exists b, l' = [b] /\ R a b.
Proof.
  intros H. inversion H as [|x b l m Hab Hnil]; subst.
  inversion Hnil; subst. eauto.
Qed.

(** X15.  When [parsing] completes, its result has one entry per entry
    file, in the order given and under the file's name; each file is
    readable, and the last contract of its entry is the file's own: it
    carries the name of the last contract the file defines and, for the
    functions of the file that are no constructors, in order, the
    signatures built from their parameter types. *)
Theorem X15_one_linked_universe_per_entry_file :
  forall (fuel : nat) (env : Env) (solidityFilesPath : list string)
         (linked : list FileData),
    parsing fuel env solidityFilesPath = Done linked ->
    Forall2 (fun f data' =>
               file data' = f
               /\ exists (ast : SourceUnit) (dependencies : list ContractRecord)
                         (own : ContractRecord),
                    readFile env f = Some ast
                    /\ contract data' = (dependencies ++ [own])%list
                    /\ contractName own = file_contractName ast
                    /\ map functionDefinition (methodCalls own)
                       = map (signature (file_contractName ast))
                             (filter (fun fd => negb (isConstructor fd))
                                     (file_functions ast)))
            solidityFilesPath linked.
Proof.
  intros fuel env solidityFilesPath linked H. unfold parsing in H.
  apply bind_Done in H as ([arr vtm] & Hloop & Hlink).
  apply parsing_loop in Hloop as (added & Harr & Hall). simpl in Harr. subst arr.
  apply renameToSymLinks_linked in Hlink.
  eapply Forall2_impl; [|exact (Forall2_compose Hall Hlink)].
  intros f d' (d & (Hfile & il & cl & v' & Hproc) & (Hfile' & Hcs)).
  split; [congruence|].
  apply processData_own in Hproc as (ast & deps & Hread & Hrecords).
  rewrite Hrecords in Hcs.
  apply Forall2_app_inv_l in Hcs as (deps' & last' & _ & Hlast & Hcontract).
  apply Forall2_singleton_l in Hlast as (own' & Hlast' & (Hn & _ & _ & Hms)).
  exists ast, deps', own'. split; [exact Hread|].
  split; [rewrite Hcontract, Hlast'; reflexivity|].
  split; [exact Hn|].
  rewrite (Forall2_map_eq functionDefinition functionDefinition
             (fun a b H => proj1 (proj2 H)) Hms).
  unfold ownRecord. simpl. rewrite map_map. reflexivity.
Qed.

(** [parsing] of Main.sol. *)
Lemma X15_one_linked_universe_per_entry_file_witness :
  parsing 2 Samples.library ["/c/Main.sol"] = Done Samples.linkedMain
  /\ Forall2 (fun f data' =>
                file data' = f
                /\ exists (ast : SourceUnit) (dependencies : list ContractRecord)
                          (own : ContractRecord),
                     readFile Samples.library f = Some ast
                     /\ contract data' = (dependencies ++ [own])%list
                     /\ contractName own = file_contractName ast
                     /\ map functionDefinition (methodCalls own)
                        = map (signature (file_contractName ast))
                              (filter (fun fd => negb (isConstructor fd))
                                      (file_functions ast)))
             ["/c/Main.sol"] Samples.linkedMain.
Proof.
  split; [reflexivity|].
  exact (@X15_one_linked_universe_per_entry_file 2 Samples.library ["/c/Main.sol"]
           Samples.linkedMain eq_refl).
Defined.

Lemma Forall2_In_l {A B : Type} (R : A -> B -> Prop) :
  forall (l : list A) (l' : list B) (a : A),
    Forall2 R l l' -> In a l -> exists b, In b l' /\ R a b.
Proof.
  intros l l' a H. induction H as [|x y l l' Hxy _ IH]; simpl; intros Hin.
  - contradiction.
  - destruct Hin as [<- | Hin].
    + exists y; auto.
    + destruct (IH Hin) as (b & Hb & HR). exists b; auto.
Qed.

(** X16.  If one of the entry files cannot be read, [parsing] returns no
    result at all, however many of the other files could be processed. *)
Theorem X16_unreadable_entry_file_no_result :
  forall (fuel : nat) (env : Env) (solidityFilesPath : list string) (f : string)
         (linked : list FileData),
    In f solidityFilesPath ->
    readFile env f = None ->
    parsing fuel env solidityFilesPath <> Done linked.
Proof.
  intros fuel env solidityFilesPath f linked Hin Hread H. unfold parsing in H.
  apply bind_Done in H as ([arr vtm] & Hloop & _).
  apply parsing_loop in Hloop as (added & _ & Hall).
  destruct (@Forall2_In_l _ _ _ _ _ f Hall Hin)
    as (d & _ & _ & il & cl & v' & Hproc).
  apply processData_readable in Hproc as (ast & Hast). congruence.
Qed.

(** Wallet.sol is readable, Missing.sol is not. *)
Lemma X16_unreadable_entry_file_no_result_witness :
  In "/c/Missing.sol" ["/c/Wallet.sol"; "/c/Missing.sol"]
  /\ readFile Samples.misnamed "/c/Missing.sol" = None
  /\ parsing 5 Samples.misnamed ["/c/Wallet.sol"; "/c/Missing.sol"] <> Done [].
Proof.
  split; [right; left; reflexivity|]. split; [reflexivity|].
  apply (@X16_unreadable_entry_file_no_result 5 Samples.misnamed
           ["/c/Wallet.sol"; "/c/Missing.sol"] "/c/Missing.sol" []).
  - right. left. reflexivity.
  - reflexivity.
Defined.

(** ** Extraction stays within what profiling has seen *)

Lemma import_nodes (ast : SourceUnit) (path : string) :
  In path (file_imports ast) -> In (PImportDirective path) (profile_nodes ast).
Proof.
  unfold file_imports, profile_nodes. intros H.
  apply in_flat_map in H as (it & Hit & H).
  apply in_flat_map. exists it. split; [exact Hit|].
  destruct it as [|p|c]; simpl in *; try contradiction.
  destruct H as [<- | []]. now left.
Qed.

Lemma imports_visited_grows (env : Env) (p : string) (sh sh' : ProfileState) :
  imports_visited env p sh -> grows sh sh' -> imports_visited env p sh'.
Proof.
  intros (ast & Hread & Hi) (Gv & _).
  exists ast. split; [exact Hread|]. eapply incl_tran; eauto.
Qed.

Section ImportsVisited.

Variable env : Env.
Variable rec : string -> ProfileState -> outcome ProfileState.
Hypothesis rec_grows : forall p sh sh', rec p sh = Done sh' -> grows sh sh'.
Hypothesis rec_imports :
  forall (p : string) (sh sh' : ProfileState),
    rec p sh = Done sh' ->
    imports_visited env p sh'
    /\ (forall q, In q (pf_importVisited sh') -> ~ In q (pf_importVisited sh) ->
                  imports_visited env q sh').

Lemma onProfileNode_imports (solidityFile : string) (n : ProfileNode)
    (loc loc' : ProfileLocals) (sh sh' : ProfileState) :
  onProfileNode env rec solidityFile (loc, sh) n = Done (loc', sh') ->
  grows sh sh'
  /\ (forall path, n = PImportDirective path ->
                   In (importPath env solidityFile path) (pf_importVisited sh'))
  /\ (forall q, In q (pf_importVisited sh') -> ~ In q (pf_importVisited sh) ->
                imports_visited env q sh').
Proof.
  destruct n as [node|nm|nm|nm|path]; simpl; intros H.
  - injection H as _ <-. split; [apply grows_refl|].
    split; [discriminate | intros q Hq Hn; contradiction].
  - injection H as _ <-. split.
    + unfold grows. simpl. repeat split; try apply incl_refl. apply incl_appl, incl_refl.
    + split; [discriminate | intros q Hq Hn; contradiction].
  - injection H as _ <-. split.
    + unfold grows. simpl. repeat split; try apply incl_refl. apply incl_appl, incl_refl.
    + split; [discriminate | intros q Hq Hn; contradiction].
  - injection H as _ <-. split.
    + unfold grows. simpl. repeat split; try apply incl_refl. apply incl_appl, incl_refl.
    + split; [discriminate | intros q Hq Hn; contradiction].
  - destruct (includes (pf_importVisited sh) (Some (importPath env solidityFile path)))
      eqn:Hinc; simpl in H.
    + injection H as _ <-. split; [apply grows_refl|]. split.
      * intros path' [= <-]. apply includes_true in Hinc as (y & Hy & [= <-]). exact Hy.
      * intros q Hq Hn. contradiction.
    + apply bind_Done in H as (sh1 & Hrec & H). injection H as _ <-.
      pose proof (rec_grows Hrec) as (Gv & Gi & Gc). simpl in Gv, Gi, Gc.
      apply rec_imports in Hrec as (Hown & Hclosed). simpl in Hclosed.
      split; [|split].
      * unfold grows. repeat split; auto.
        intros x Hx. apply Gv, in_or_app. now left.
      * intros path' [= <-]. apply Gv, in_or_app. right. now left.
      * intros q Hq Hn.
        destruct (string_dec q (importPath env solidityFile path)) as [-> | Hne];
          [exact Hown|].
        apply Hclosed; [exact Hq|]. intros Hin.
        apply in_app_or in Hin as [Hin | [Heq | []]]; [now apply Hn | now apply Hne].
Qed.

Lemma profile_scan_imports (solidityFile : string) :
  forall (nodes : list ProfileNode) (loc loc' : ProfileLocals) (sh sh' : ProfileState),
    forEach (onProfileNode env rec solidityFile) nodes (loc, sh) = Done (loc', sh') ->
    grows sh sh'
    /\ (forall path, In (PImportDirective path) nodes ->
                     In (importPath env solidityFile path) (pf_importVisited sh'))
    /\ (forall q, In q (pf_importVisited sh') -> ~ In q (pf_importVisited sh) ->
                  imports_visited env q sh').
Proof.
  induction nodes as [|n nodes IH]; simpl forEach; intros loc loc' sh sh' H.
  - injection H as _ <-. split; [apply grows_refl|].
    split; [intros path [] | intros q Hq Hn; contradiction].
  - apply bind_Done in H as ([loc1 sh1] & Hstep & H).
    apply onProfileNode_imports in Hstep as (G1 & Hi1 & Hcl1).
    apply IH in H as (G2 & Hi2 & Hcl2).
    split; [eapply grows_trans; eauto|]. split.
    + intros path [-> | Hin]; [|now apply Hi2].
      destruct G2 as (G2v & _). apply G2v. now apply Hi1.
    + intros q Hq Hn.
      destruct (in_dec string_dec q (pf_importVisited sh1)) as [Hin | Hnin].
      * apply imports_visited_grows with (sh := sh1); [now apply Hcl1 | exact G2].
      * now apply Hcl2.
Qed.

Lemma profileData_body_imports (solidityFile : string) (sh sh' : ProfileState) :
  profileData_body env rec solidityFile sh = Done sh' ->
  imports_visited env solidityFile sh'
  /\ (forall q, In q (pf_importVisited sh') -> ~ In q (pf_importVisited sh) ->
                imports_visited env q sh').
Proof.
  unfold profileData_body. intros H.
  destruct (readFile env solidityFile) as [ast|] eqn:Hread; [|discriminate].
  apply bind_Done in H as ([loc sh1] & Hscan & H). injection H as <-.
  apply profile_scan_imports in Hscan as (G & Hi & Hcl).
  split.
  - exists ast. split; [exact Hread|]. simpl.
    intros x Hx. apply in_map_iff in Hx as (path & <- & Hpath).
    apply Hi. now apply import_nodes.
  - intros q Hq Hn. destruct (Hcl q Hq Hn) as (a & Ha & Hai).
    exists a. split; assumption.
Qed.

End ImportsVisited.

Lemma profileData_imports (fuel : nat) (env : Env) :
  forall (solidityFile : string) (sh sh' : ProfileState),
    profileData fuel env solidityFile sh = Done sh' ->
    imports_visited env solidityFile sh'
    /\ (forall q, In q (pf_importVisited sh') -> ~ In q (pf_importVisited sh) ->
                  imports_visited env q sh').
Proof.
  induction fuel as [|fuel IH]; intros solidityFile sh sh' H; [discriminate|].
  simpl in H. revert H. apply profileData_body_imports.
  - intros p s s' Hp. now apply (@profileData_profiles fuel env p s s').
  - intros p s s'. apply IH.
Qed.

Lemma findImport_In (importList : list string) (x : string) (p : string) :
  findImport importList x = Some p -> In p importList.
Proof.
  unfold findImport. intros H.
  destruct (filter (fun imp => contains x imp) importList) as [|q l] eqn:Hf;
    [discriminate|].
  injection H as ->.
  assert (Hin : In p (filter (fun imp => contains x imp) importList))
    by (rewrite Hf; now left).
  now apply filter_In in Hin.
Qed.

Section WithinProfiled.

Variable env : Env.
Variable entry : string.
Variable seen : list string.
Hypothesis seen_closed :
  forall p ast, (p = entry \/ In p seen) -> readFile env p = Some ast ->
                incl (map (importPath env p) (file_imports ast)) seen.

Variables ignoresList contractsList : list string.
Variable rec :
  option string -> list (option string)
  -> outcome (list ContractRecord * list (option string)).
Hypothesis rec_within :
  forall nodePath visited records visited',
    rec nodePath visited = Done (records, visited') ->
    exists p, nodePath = Some p
              /\ ((p = entry \/ In p seen) -> incl visited (map Some seen) ->
                  incl visited' (map Some seen)).

Variable importList : list string.
Hypothesis importList_seen : incl importList seen.

Lemma visitPath_within (nodePath : option string) (st st' : ProcessState) :
  visited_within seen st ->
  (forall p, nodePath = Some p -> In p seen) ->
  visitPath rec nodePath st = Done st' ->
  visited_within seen st'.
Proof.
  unfold visited_within, visitPath. intros Hst Hnp H.
  apply bind_Done in H as ([result v'] & Hrec & H). injection H as <-. simpl.
  apply rec_within in Hrec as (p & -> & Hrec).
  specialize (Hnp p eq_refl).
  apply Hrec; [now right|].
  apply incl_app; [exact Hst|]. intros x [<- | []]. now apply in_map.
Qed.

Lemma findImport_seen (x p : string) :
  findImport importList x = Some p -> In p seen.
Proof. intros H. apply importList_seen. eapply findImport_In; eauto. Qed.

Lemma onFunctionDefinition_within (contractName : option string)
    (st st' : ProcessState) (fDef : FunctionDefinition) :
  visited_within seen st ->
  onFunctionDefinition ignoresList contractsList rec contractName importList st fDef
  = Done st' ->
  visited_within seen st'.
Proof.
  unfold onFunctionDefinition. intros Hst. destruct (isConstructor fDef).
  - apply (forEach_invariant (visited_within seen)); [|exact Hst].
    intros s1 modifier s2 _ Hs1 Hstep. cbv beta in Hstep.
    destruct (negb _) in Hstep.
    + eapply visitPath_within; eauto. intros p. apply findImport_seen.
    + now injection Hstep as <-.
  - intros H. injection H as <-. exact Hst.
Qed.

Lemma onInheritanceSpecifier_within (st st' : ProcessState) (baseName : string) :
  visited_within seen st ->
  onInheritanceSpecifier rec importList st baseName = Done st' ->
  visited_within seen st'.
Proof.
  unfold onInheritanceSpecifier. intros Hst H.
  apply bind_Done in H as (s0 & Hv & H). injection H as <-.
  unfold visited_within. simpl.
  destruct (negb _) in Hv.
  - eapply visitPath_within; eauto. intros p. apply findImport_seen.
  - now injection Hv as <-.
Qed.

Lemma onImport_within (st st' : ProcessState) (nodePath : string) :
  In nodePath importList ->
  visited_within seen st ->
  onImport rec st nodePath = Done st' ->
  visited_within seen st'.
Proof.
  unfold onImport. intros Hin Hst H.
  destruct (includes_opt _ _) in H.
  - now injection H as <-.
  - eapply visitPath_within; eauto. intros p [= <-]. now apply importList_seen.
Qed.

End WithinProfiled.

Lemma processData_body_within (env : Env) (entry : string) (seen : list string)
    (ignoresList contractsList : list string)
    (rec : option string -> list (option string)
           -> outcome (list ContractRecord * list (option string))) :
  (forall p ast, (p = entry \/ In p seen) -> readFile env p = Some ast ->
                 incl (map (importPath env p) (file_imports ast)) seen) ->
  (forall nodePath visited records visited',
      rec nodePath visited = Done (records, visited') ->
      exists p, nodePath = Some p
                /\ ((p = entry \/ In p seen) -> incl visited (map Some seen) ->
                    incl visited' (map Some seen))) ->
  forall (solidityFile : string) (visited visited' : list (option string))
         (records : list ContractRecord),
    (solidityFile = entry \/ In solidityFile seen) ->
    incl visited (map Some seen) ->
    processData_body env ignoresList contractsList rec (Some solidityFile) visited
    = Done (records, visited') ->
    incl visited' (map Some seen).
Proof.
  intros Hclosed Hrec solidityFile visited visited' records Hfile Hvisited H.
  unfold processData_body in H.
  destruct (readFile env solidityFile) as [ast|] eqn:Hread; [|discriminate].
  pose proof (Hclosed solidityFile ast Hfile Hread) as Himports.
  apply bind_Done in H as (s1 & H1 & H).
  apply bind_Done in H as (s2 & H2 & H).
  apply bind_Done in H as (s3 & H3 & H).
  injection H as _ <-.
  revert H3. apply (forEach_invariant (visited_within seen)).
  { intros a b c Hb. now apply (@onImport_within entry seen rec Hrec _ Himports). }
  revert H2. apply (forEach_invariant (visited_within seen)).
  { intros a b c _. now apply (@onInheritanceSpecifier_within entry seen rec Hrec _ Himports). }
  revert H1. apply (forEach_invariant (visited_within seen)).
  { intros a b c _.
    now apply (@onFunctionDefinition_within entry seen ignoresList contractsList
                 rec Hrec _ Himports). }
  exact Hvisited.
Qed.

Lemma processData_within (env : Env) (entry : string) (seen : list string)
    (ignoresList contractsList : list string) :
  (forall p ast, (p = entry \/ In p seen) -> readFile env p = Some ast ->
                 incl (map (importPath env p) (file_imports ast)) seen) ->
  forall (fuel : nat) (nodePath : option string)
         (visited visited' : list (option string)) (records : list ContractRecord),
    processData fuel env nodePath visited ignoresList contractsList
    = Done (records, visited') ->
    exists p, nodePath = Some p
              /\ ((p = entry \/ In p seen) -> incl visited (map Some seen) ->
                  incl visited' (map Some seen)).
Proof.
  intros Hclosed. induction fuel as [|fuel IH];
    intros nodePath visited visited' records H; [discriminate|].
  destruct nodePath as [p|]; [|discriminate].
  exists p. split; [reflexivity|]. intros Hp Hv.
  simpl in H. revert H.
  apply (@processData_body_within env entry seen ignoresList contractsList
           (fun np v => processData fuel env np v ignoresList contractsList)
           Hclosed (fun np v r v' => IH np v v' r) p visited visited' records Hp Hv).
Qed.

Lemma processData_visits_profiled :
  forall (fuel fuel' : nat) (env : Env) (entry : string)
         (variableTypeMap : VariableTypeMap) (sh' : ProfileState)
         (ignoresList contractsList : list string)
         (records : list ContractRecord) (visited' : list (option string)),
    profileData fuel env entry (mkProfileState [] [] [] variableTypeMap) = Done sh' ->
    processData fuel' env (Some entry) [] ignoresList contractsList
    = Done (records, visited') ->
    forall nodePath : option string,
      In nodePath visited' ->
      exists p, nodePath = Some p
                /\ In p (pf_importVisited sh')
                /\ profiled env p sh'.
Proof.
  intros fuel fuel' env entry variableTypeMap sh' ignoresList contractsList
         records visited' Hprofile Hprocess nodePath Hin.
  pose proof (profileData_imports _ _ _ _ Hprofile) as (Hentry & Hothers).
  pose proof (profileData_profiles _ _ _ _ Hprofile) as (_ & _ & Hprofiled).
  simpl in Hothers. unfold closed_under_imports in Hprofiled. simpl in Hprofiled.
  assert (Hclosed : forall p ast,
             (p = entry \/ In p (pf_importVisited sh')) -> readFile env p = Some ast ->
             incl (map (importPath env p) (file_imports ast)) (pf_importVisited sh')).
  { intros p ast [-> | Hp] Hread.
    - destruct Hentry as (a & Ha & Hincl).
      rewrite Hread in Ha. injection Ha as <-. exact Hincl.
    - destruct (Hothers p Hp (fun F => F)) as (a & Ha & Hincl).
      rewrite Hread in Ha. injection Ha as <-. exact Hincl. }
  destruct (@processData_within env entry (pf_importVisited sh') ignoresList
              contractsList Hclosed fuel' (Some entry) [] visited' records Hprocess)
    as (p0 & Hp0 & Hwithin).
  injection Hp0 as <-.
  specialize (Hwithin (or_introl eq_refl) (incl_nil_l _)).
  apply Hwithin in Hin. apply in_map_iff in Hin as (p & <- & Hp).
  exists p. split; [reflexivity|]. split; [exact Hp|].
  apply Hprofiled; [exact Hp | intros []].
Qed.

(** X17.  Extraction stays within what profiling has seen: if profiling
    of an entry file, started with an empty visited list, has returned,
    then every path that extraction of the same file puts on its own
    visited list is a file that profiling visited and read, so that its
    events and structs are in the ignore list and its contracts in the
    contract list that profiling produced. *)
Theorem X17_extraction_within_profiled_files :
  forall (fuel fuel' : nat) (env : Env) (entry : string)
         (variableTypeMap : VariableTypeMap) (sh' : ProfileState)
         (ignoresList contractsList : list string)
         (records : list ContractRecord) (visited' : list (option string)),
    profileData fuel env entry (mkProfileState [] [] [] variableTypeMap) = Done sh' ->
    processData fuel' env (Some entry) [] ignoresList contractsList
    = Done (records, visited') ->
    forall nodePath : option string,
      In nodePath visited' ->
      exists p, nodePath = Some p
                /\ In p (pf_importVisited sh')
                /\ profiled env p sh'.
Proof.
  intros fuel fuel' env entry variableTypeMap sh' ignoresList contractsList
         records visited'.
  apply processData_visits_profiled.
Qed.

(** Profiling and extraction of Main.sol, which imports Lib.sol. *)
Lemma X17_extraction_within_profiled_files_witness :
  profileData 2 Samples.library "/c/Main.sol" (mkProfileState [] [] [] [])
  = Done Fixtures.profiledMain
  /\ processData 2 Samples.library (Some "/c/Main.sol") [] ["Point"] ["Lib"; "Main"]
     = Done (Fixtures.extractedMain, [Some "/c/Lib.sol"])
  /\ exists p, Some "/c/Lib.sol" = Some p
               /\ In p (pf_importVisited Fixtures.profiledMain)
               /\ profiled Samples.library p Fixtures.profiledMain.
Proof.
  split; [reflexivity|]. split; [reflexivity|].
  exact (@X17_extraction_within_profiled_files 2 2 Samples.library "/c/Main.sol" []
           Fixtures.profiledMain ["Point"] ["Lib"; "Main"] Fixtures.extractedMain
           [Some "/c/Lib.sol"] eq_refl eq_refl (Some "/c/Lib.sol") (or_introl eq_refl)).
Defined.

(** ** Every returned record is the own record of a file read *)

Section Gathered.

Variable env : Env.
Variables ignoresList contractsList : list string.
Variable rec :
  option string -> list (option string)
  -> outcome (list ContractRecord * list (option string)).
Hypothesis rec_extends :
  forall nodePath visited records visited',
    rec nodePath visited = Done (records, visited') -> incl visited visited'.
Hypothesis rec_extracted :
  forall nodePath visited records visited',
    rec nodePath visited = Done (records, visited') ->
    Forall (extracted_from env contractsList ignoresList visited visited' nodePath)
           records.

Variable visited : list (option string).

Lemma visitPath_gathered (nodePath : option string) (st st' : ProcessState) :
  gathered env contractsList ignoresList visited st ->
  includes_opt (ps_importVisited st) nodePath = false ->
  visitPath rec nodePath st = Done st' ->
  gathered env contractsList ignoresList visited st'.
Proof.
  intros (Hincl & Hall) Hnew H. unfold visitPath in H.
  apply bind_Done in H as ([result v'] & Hrec & H). injection H as <-.
  pose proof (@rec_extends _ _ _ _ Hrec) as Hext.
  pose proof (@rec_extracted _ _ _ _ Hrec) as Hres.
  apply includes_opt_false in Hnew.
  unfold gathered. simpl. split.
  - intros x Hx. apply Hext, in_or_app. left. now apply Hincl.
  - apply Forall_app. split.
    + eapply Forall_impl; [|exact Hall].
      intros r (p & ast & Hp & Hn & Hread & Hr).
      exists p, ast. repeat split; auto.
      apply Hext, in_or_app. now left.
    + eapply Forall_impl; [|exact Hres].
      intros r (p & ast & Hp & Hread & Hr).
      exists p, ast. split; [|split; [|split]]; auto.
      * destruct Hp as [<- | [Hp _]]; [|exact Hp].
        apply Hext, in_or_app. right. now left.
      * destruct Hp as [<- | [_ Hp]].
        -- intros Hin. apply Hnew. now apply Hincl.
        -- intros Hin. apply Hp, in_or_app. left. now apply Hincl.
Qed.

Lemma onFunctionDefinition_gathered (contractName : option string)
    (importList : list string) (st st' : ProcessState) (fDef : FunctionDefinition) :
  gathered env contractsList ignoresList visited st ->
  onFunctionDefinition ignoresList contractsList rec contractName importList st fDef
  = Done st' ->
  gathered env contractsList ignoresList visited st'.
Proof.
  unfold onFunctionDefinition. intros Hst. destruct (isConstructor fDef).
  - apply (forEach_invariant (gathered env contractsList ignoresList visited));
      [|exact Hst].
    intros s1 modifier s2 _ Hs1 Hstep. cbv beta in Hstep.
    destruct (includes_opt _ _) eqn:Hinc in Hstep; simpl in Hstep.
    + now injection Hstep as <-.
    + eapply visitPath_gathered; eauto.
  - intros H. injection H as <-. exact Hst.
Qed.

Lemma onInheritanceSpecifier_gathered (importList : list string)
    (st st' : ProcessState) (baseName : string) :
  gathered env contractsList ignoresList visited st ->
  onInheritanceSpecifier rec importList st baseName = Done st' ->
  gathered env contractsList ignoresList visited st'.
Proof.
  unfold onInheritanceSpecifier. intros Hst H.
  apply bind_Done in H as (s0 & Hv & H). injection H as <-.
  unfold gathered. simpl.
  destruct (includes_opt _ _) eqn:Hinc in Hv; simpl in Hv.
  - injection Hv as <-. exact Hst.
  - eapply visitPath_gathered; eauto.
Qed.

Lemma onImport_gathered (st st' : ProcessState) (nodePath : string) :
  gathered env contractsList ignoresList visited st ->
  onImport rec st nodePath = Done st' ->
  gathered env contractsList ignoresList visited st'.
Proof.
  unfold onImport. intros Hst H.
  destruct (includes_opt _ _) eqn:Hinc in H.
  - now injection H as <-.
  - eapply visitPath_gathered; eauto.
Qed.

Lemma processData_body_extracted (solidityFile : option string)
    (visited' : list (option string)) (records : list ContractRecord) :
  processData_body env ignoresList contractsList rec solidityFile visited
  = Done (records, visited') ->
  Forall (extracted_from env contractsList ignoresList visited visited' solidityFile)
         records.
Proof.
  intros H. pose proof H as Hbody. unfold processData_body in H.
  destruct solidityFile as [file|]; [|discriminate].
  destruct (readFile env file) as [ast|] eqn:Hread; [|discriminate].
  destruct (@processData_body_own env ignoresList contractsList rec file ast
              visited visited' records Hread Hbody) as (deps & Hdeps).
  apply bind_Done in H as (s1 & H1 & H).
  apply bind_Done in H as (s2 & H2 & H).
  apply bind_Done in H as (s3 & H3 & H).
  injection H as Hrecords <-.
  assert (G3 : gathered env contractsList ignoresList visited s3).
  { revert H3. apply forEach_invariant.
    { intros a b c _. apply onImport_gathered. }
    revert H2. apply forEach_invariant.
    { intros a b c _. apply onInheritanceSpecifier_gathered. }
    revert H1. apply forEach_invariant.
    { intros a b c _. apply onFunctionDefinition_gathered. }
    split; [apply incl_refl | constructor]. }
  rewrite Hdeps in Hrecords. apply app_inj_tail in Hrecords as [Hps _].
  rewrite Hdeps, <- Hps. apply Forall_app. split.
  - destruct G3 as (_ & Hall). eapply Forall_impl; [|exact Hall].
    intros r (p & a & Hp & Hn & Hr & Heq). exists p, a. auto.
  - constructor; [|constructor]. exists file, ast. auto.
Qed.

End Gathered.

Lemma processData_extracted (env : Env) (ignoresList contractsList : list string) :
  forall (fuel : nat) (solidityFile : option string)
         (visited visited' : list (option string)) (records : list ContractRecord),
    processData fuel env solidityFile visited ignoresList contractsList
    = Done (records, visited') ->
    Forall (extracted_from env contractsList ignoresList visited visited' solidityFile)
           records.
Proof.
  induction fuel as [|fuel IH]; intros solidityFile visited visited' records H;
    [discriminate|].
  simpl in H. revert H. apply processData_body_extracted.
  - intros np v r v'. apply processData_extends.
  - intros np v r v'. apply IH.
Qed.

(** X18.  Every record that extraction returns is the own record of a
    readable file: of the file extraction was called on, or of a file
    whose path came onto the visited list during the call.  Each thus has
    the contract name, bases, import paths, signatures and recorded calls
    that the file's own extraction gives, with the same ignore and
    contract lists. *)
Theorem X18_records_are_own_records :
  forall (fuel : nat) (env : Env) (solidityFile : option string)
         (importVisited visited' : list (option string))
         (ignoresList contractsList : list string) (records : list ContractRecord),
    processData fuel env solidityFile importVisited ignoresList contractsList
    = Done (records, visited') ->
    forall r : ContractRecord,
      In r records ->
      exists (p : string) (ast : SourceUnit),
        (Some p = solidityFile
         \/ (In (Some p) visited' /\ ~ In (Some p) importVisited))
        /\ readFile env p = Some ast
        /\ r = ownRecord env contractsList ignoresList p ast.
Proof.
  intros fuel env solidityFile importVisited visited' ignoresList contractsList
         records H r Hr.
  apply processData_extracted in H.
  rewrite Forall_forall in H. exact (H r Hr).
Qed.

(** Extraction of Wallet.sol returns the record of SafeMath.sol first. *)
Lemma X18_records_are_own_records_witness :
  processData 2 Samples.misnamed (Some "/c/Wallet.sol") [] []
    ["SafeMathLib"; "Wallet"]
  = Done ([Samples.recSafeMathLib; Samples.recWallet], [Some "/c/SafeMath.sol"])
  /\ In Samples.recSafeMathLib [Samples.recSafeMathLib; Samples.recWallet]
  /\ exists (p : string) (ast : SourceUnit),
       (Some p = Some "/c/Wallet.sol"
        \/ (In (Some p) [Some "/c/SafeMath.sol"] /\ ~ In (Some p) []))
       /\ readFile Samples.misnamed p = Some ast
       /\ Samples.recSafeMathLib
          = ownRecord Samples.misnamed ["SafeMathLib"; "Wallet"] [] p ast.
Proof.
  split; [reflexivity|]. split; [left; reflexivity|].
  exact (@X18_records_are_own_records 2 Samples.misnamed (Some "/c/Wallet.sol") []
           [Some "/c/SafeMath.sol"] [] ["SafeMathLib"; "Wallet"]
           [Samples.recSafeMathLib; Samples.recWallet] eq_refl
           Samples.recSafeMathLib (or_introl eq_refl)).
Defined.

(** ** Ignored names in the recorded calls *)

(** X19.  In the pipeline of [parsing] (profiling of the entry file, then
    extraction with the lists profiling produced), take a recorded call
    whose name [n] is the name of an event or struct of a file that
    extraction read.  The handler of direct calls records no call of [n],
    in any function.  The call was recorded by the handler of member
    accesses: its record is the own record of a readable file, its method
    is the entry of a function of that file that is no constructor, and
    under that function there is a member access [e.n] whose receiver [e]
    is no index access and is no identifier or a contract name or
    [super]; the call holds [n] and the arguments of the receiver. *)
Theorem X19_ignored_names_only_by_member_access :
  forall (fuel fuel' : nat) (env : Env) (entry : string)
         (variableTypeMap : VariableTypeMap) (sh' : ProfileState)
         (records : list ContractRecord) (visited' : list (option string))
         (q : string) (astq : SourceUnit) (n : string)
         (r : ContractRecord) (m : MethodRecord) (c : CallRef),
    profileData fuel env entry (mkProfileState [] [] [] variableTypeMap) = Done sh' ->
    processData fuel' env (Some entry) [] (pf_ignoresList sh') (pf_contractsList sh')
    = Done (records, visited') ->
    (q = entry \/ In (Some q) visited') ->
    readFile env q = Some astq ->
    In n (ignored_in (profile_nodes astq)) ->
    In r records -> In m (methodCalls r) -> In c (callMethods m) ->
    name c = Some n ->
    (forall (fDef : FunctionDefinition) (callMethods : list CallRef)
            (e : Node) (a : list Node),
        node_name e = Some n ->
        visitFunctionCall (pf_contractsList sh') (pf_ignoresList sh') fDef callMethods e a
        = callMethods)
    /\ exists (p : string) (ast : SourceUnit) (fDef : FunctionDefinition) (e : Node),
         readFile env p = Some ast
         /\ r = ownRecord env (pf_contractsList sh') (pf_ignoresList sh') p ast
         /\ In fDef (file_functions ast)
         /\ isConstructor fDef = false
         /\ m = methodRecord (pf_contractsList sh') (pf_ignoresList sh')
                             (file_contractName ast) fDef
         /\ In (MemberAccess e n) (fdef_subnodes fDef)
         /\ c = mkCallRef (Some n) (receiverArguments e)
         /\ (node_type e <> "Identifier"
             \/ includes (pf_contractsList sh') (node_name e) = true
             \/ node_name e = Some "super")
         /\ node_type e <> "IndexAccess".
Proof.
  intros fuel fuel' env entry variableTypeMap sh' records visited' q astq n r m c
         Hprofile Hprocess Hq Hreadq Hn Hr Hm Hc Hname.
  assert (Hignored : includes (pf_ignoresList sh') (Some n) = true).
  { assert (Hprof : profiled env q sh').
    { destruct Hq as [-> | Hq].
      - destruct (@profileData_profiles fuel env _ _ _ Hprofile) as (_ & Hp & _).
        exact Hp.
      - destruct (@processData_visits_profiled fuel fuel' env entry variableTypeMap
                    sh' _ _ records visited' Hprofile Hprocess (Some q) Hq)
          as (p & [= <-] & _ & Hp). exact Hp. }
    destruct Hprof as (a & Ha & Hi & _).
    rewrite Hreadq in Ha. injection Ha as <-.
    apply includes_true. exists n. split; [now apply Hi | reflexivity]. }
  split.
  - intros fDef callMethods e a He. unfold visitFunctionCall, isCountableStatement.
    rewrite He, Hignored. simpl. rewrite !andb_false_r. reflexivity.
  - apply processData_extracted in Hprocess. rewrite Forall_forall in Hprocess.
    destruct (Hprocess r Hr) as (p & ast & _ & Hread & ->).
    unfold ownRecord in Hm. simpl in Hm.
    apply in_map_iff in Hm as (fDef & <- & HfDef).
    apply filter_In in HfDef as [HfDef Hcons]. apply negb_true_iff in Hcons.
    exists p, ast, fDef.
    unfold methodRecord in Hc. simpl in Hc.
    destruct (body fDef); [|contradiction].
    apply visitFunction_In in Hc as [(e & a & _ & -> & _ & _ & _ & Hign & _)
                                    | (e & mem & Hnode & -> & Hrecv & Hidx & _)].
    + simpl in Hname. rewrite Hname in Hign. congruence.
    + simpl in Hname. injection Hname as ->. exists e. repeat split; auto.
Qed.

(** Main.sol records a call named [Point], a struct of Lib.sol: it is
    the member access [Lib.Point]. *)
Lemma X19_ignored_names_only_by_member_access_witness :
  profileData 2 Samples.library "/c/Main.sol" (mkProfileState [] [] [] [])
  = Done Fixtures.profiledMain
  /\ processData 2 Samples.library (Some "/c/Main.sol") [] ["Point"] ["Lib"; "Main"]
     = Done (Fixtures.extractedMain, [Some "/c/Lib.sol"])
  /\ In "Point" (ignored_in (profile_nodes Samples.fileLib))
  /\ (forall (fDef : FunctionDefinition) (callMethods : list CallRef)
             (e : Node) (a : list Node),
         node_name e = Some "Point" ->
         visitFunctionCall ["Lib"; "Main"] ["Point"] fDef callMethods e a = callMethods)
  /\ exists (p : string) (ast : SourceUnit) (fDef : FunctionDefinition) (e : Node),
       readFile Samples.library p = Some ast
       /\ mkContractRecord (Some "Main") [] ["/c/Lib.sol"]
            [mkMethodRecord "pay" "Main:pay"
               [mkCallRef (Some "Point") []; mkCallRef (Some "transfer") []]]
          = ownRecord Samples.library ["Lib"; "Main"] ["Point"] p ast
       /\ In fDef (file_functions ast)
       /\ isConstructor fDef = false
       /\ mkMethodRecord "pay" "Main:pay"
            [mkCallRef (Some "Point") []; mkCallRef (Some "transfer") []]
          = methodRecord ["Lib"; "Main"] ["Point"] (file_contractName ast) fDef
       /\ In (MemberAccess e "Point") (fdef_subnodes fDef)
       /\ mkCallRef (Some "Point") [] = mkCallRef (Some "Point") (receiverArguments e)
       /\ (node_type e <> "Identifier"
           \/ includes ["Lib"; "Main"] (node_name e) = true
           \/ node_name e = Some "super")
       /\ node_type e <> "IndexAccess".
Proof.
  split; [reflexivity|]. split; [reflexivity|]. split; [left; reflexivity|].
  apply (@X19_ignored_names_only_by_member_access 2 2 Samples.library "/c/Main.sol"
           [] Fixtures.profiledMain Fixtures.extractedMain [Some "/c/Lib.sol"]
           "/c/Lib.sol" Samples.fileLib "Point"
           (mkContractRecord (Some "Main") [] ["/c/Lib.sol"]
              [mkMethodRecord "pay" "Main:pay"
                 [mkCallRef (Some "Point") []; mkCallRef (Some "transfer") []]])
           (mkMethodRecord "pay" "Main:pay"
              [mkCallRef (Some "Point") []; mkCallRef (Some "transfer") []])
           (mkCallRef (Some "Point") [])).
  - reflexivity.
  - reflexivity.
  - right. left. reflexivity.
  - reflexivity.
  - left. reflexivity.
  - right. left. reflexivity.
  - left. reflexivity.
  - left. reflexivity.
  - reflexivity.
Defined.
